(** * ucasm: the two-pass assembler for uCPU (assembler/ucasm.c)

    A shallow embedding of [ucasm.c] and the properties of its two-pass
    assembly engine.

    Conventions of the embedding.
    - [unsigned] values are integers in [Z]; [INVALID] is [(unsigned)-1].
      The program counter [pc] is an [unsigned char]: every assignment to
      it is reduced modulo 256.
    - The counters are C [int]s: integers in [Z], which a source of fewer
      than 2^31 lines cannot overflow. [unsigned long] has 64 bits.
    - C strings are [string]s without the terminating NUL.
    - [label] and [rom] are C arrays: lists read with [!!] and written
      with [<[_:=_]>]; an access outside the array has no defined
      behaviour in C and is the outcome [None] of the embedding.
    - [rom] is a local array of [main] that the program never
      initialises: its first contents are whatever the stack holds, a
      parameter [stack] of [main].
    - The text of the listing file (the column layout of [putatpos]) is
      left out; the diagnostics written to it are counted by the three
      counters of the program. *)

From Stdlib Require Import ZArith Ascii String Lia.
From stdpp Require Import base tactics option list strings.

Local Open Scope Z_scope.

(** ** The C library as the assembler uses it *)

Definition char_code (c : ascii) : Z := Z.of_N (N_of_ascii c).

(** [isspace] in the C locale: space and the controls 9 to 13. *)
Definition isspace (c : ascii) : bool :=
  (char_code c =? 32) || ((9 <=? char_code c) && (char_code c <=? 13)).

(** The value of a character read as a digit by [strtoul]. *)
Definition digit_val (c : ascii) : option Z :=
  let n := char_code c in
  if (48 <=? n) && (n <=? 57) then Some (n - 48)
  else if (65 <=? n) && (n <=? 90) then Some (n - 55)
  else if (97 <=? n) && (n <=? 122) then Some (n - 87)
  else None.

Definition is_digit (base : Z) (c : ascii) : bool :=
  match digit_val c with
  | Some d => d <? base
  | None => false
  end.

Definition ULONG_MAX : Z := 2 ^ 64 - 1.
Definition UINT_MOD : Z := 2 ^ 32.
Definition INVALID : Z := UINT_MOD - 1.

Fixpoint span_space (s : string) : nat :=
  match s with
  | String c s' => if isspace c then S (span_space s') else O
  | EmptyString => O
  end.

Fixpoint str_drop (n : nat) (s : string) : string :=
  match n, s with
  | S n', String _ s' => str_drop n' s'
  | _, _ => s
  end.

(** Length of the optional sign, and whether it is a minus. *)
Definition sign_of (s : string) : nat * bool :=
  match s with
  | String c _ =>
      if Ascii.eqb c "+" then (1%nat, false)
      else if Ascii.eqb c "-" then (1%nat, true)
      else (0%nat, false)
  | EmptyString => (0%nat, false)
  end.

(** Length of the optional [0x] of base 16, taken only before a digit. *)
Definition hex_prefix (base : Z) (s : string) : nat :=
  if base =? 16 then
    match s with
    | String z (String x (String d _)) =>
        if Ascii.eqb z "0"
           && ((char_code x =? 120) || (char_code x =? 88))
           && is_digit 16 d
        then 2%nat else 0%nat
    | _ => 0%nat
    end
  else 0%nat.

(** The longest run of digits of the base: its value and its length. *)
Fixpoint scan_digits (base : Z) (s : string) (acc : Z) : Z * nat :=
  match s with
  | String c s' =>
      match digit_val c with
      | Some d =>
          if d <? base
          then let '(v, n) := scan_digits base s' (acc * base + d) in (v, S n)
          else (acc, O)
      | None => (acc, O)
      end
  | EmptyString => (acc, O)
  end.

(** [strtoul(p, &q, base)] for the bases 10 and 16: the value returned
    (an [unsigned long]) and [q - p], the number of characters used.
    With no digit there is no conversion: the value is 0 and [q = p]. *)
Definition strtoul (p : string) (base : Z) : Z * nat :=
  let ws := span_space p in
  let s1 := str_drop ws p in
  let '(sg, neg) := sign_of s1 in
  let s2 := str_drop sg s1 in
  let px := hex_prefix base s2 in
  let '(v, n) := scan_digits base (str_drop px s2) 0 in
  match n with
  | O => (0, O)
  | _ =>
      (if ULONG_MAX <? v then ULONG_MAX
       else if neg then (- v) mod (ULONG_MAX + 1) else v,
       (ws + sg + px + n)%nat)
  end.

(** ** Tables *)

Inductive operand_t := REG | IMM | LAB | IND.

Global Instance operand_t_eq_dec : EqDecision operand_t.
Proof. solve_decision. Defined.

Record token_t := Token {
  tk_name : string;
  tk_code : Z;
  tk_type : operand_t
}.

Definition ORG : Z := 0x10.

(** The entries of [token] before the [NULL] entry that ends the table. *)
Definition token : list token_t := [
  Token "ANA" 0x0 REG;
  Token "ANI" 0x1 IMM;
  Token "XRA" 0x2 REG;
  Token "XRI" 0x3 IMM;
  Token "ADA" 0x4 REG;
  Token "ADI" 0x5 IMM;
  Token "SBA" 0x6 REG;
  Token "SBI" 0x7 IMM;
  Token "BNC" 0x8 LAB;
  Token "BNZ" 0x9 LAB;
  Token "JPR" 0xA REG;
  Token "JMP" 0xB LAB;
  Token "LDA" 0xC REG;
  Token "LDI" 0xD IMM;
  Token "STA" 0xE REG;
  Token "STX" 0xF REG;
  Token "ORG" ORG IMM
].

Record indreg_t := Indreg {
  ir_name : string;
  ir_code : Z
}.

(** The entries of [indreg] before the [NULL] entry. *)
Definition indreg : list indreg_t := [
  Indreg "%IX" 0xf8;
  Indreg "%IY" 0xf9;
  Indreg "@IX" 0xfa;
  Indreg "@IY" 0xfb;
  Indreg "@IX+" 0xfc;
  Indreg "@IY+" 0xfd;
  Indreg "@-IX" 0xfe;
  Indreg "@-YY" 0xff
].

(** ** Helpers of the assembler *)

(** [str_toupper]: the loop runs while [*p] is the terminator. On a
    string with a first character it stops at once and changes nothing;
    on the empty string it steps over the terminator and leaves the
    buffer, which C does not define. *)
Definition str_toupper (p : string) : option string :=
  match p with
  | EmptyString => None
  | String _ _ => Some p
  end.

(** [parse_label]: [lnum] is the [unsigned long] of [strtoul] stored in
    an [unsigned]; [!*q] holds when the whole of [p] was used. *)
Definition parse_label (p : string) (base max_width max_val : Z) : Z :=
  let '(v, used) := strtoul p base in
  let lnum := v mod UINT_MOD in
  if (lnum <=? max_val) && (Z.of_nat used <=? max_width)
     && (used =? String.length p)%nat
  then lnum else INVALID.

(** [memcmp(p, q, n) == 0] on C strings. The terminator of the shorter
    string is one of the bytes compared and differs from every
    character; past two terminators that agree no byte is defined, so
    the answer there is given only when no byte is left. *)
Fixpoint memcmp_eq (n : nat) (p q : string) : bool :=
  match n with
  | O => true
  | S n' =>
      match p, q with
      | String a p', String b q' => Ascii.eqb a b && memcmp_eq n' p' q'
      | EmptyString, EmptyString => (n' =? 0)%nat
      | _, _ => false
      end
  end.

(** The delimiters [" \t\n"] of the token loop. *)
Definition is_delim (c : ascii) : bool :=
  (char_code c =? 32) || (char_code c =? 9) || (char_code c =? 10).

Definition starts_token (s : string) : bool :=
  match s with
  | String c _ => negb (is_delim c)
  | EmptyString => false
  end.

(** All the tokens that the calls of [strtok] return for a line. *)
Fixpoint strtok (s : string) : list string :=
  match s with
  | EmptyString => []
  | String c s' =>
      if is_delim c then strtok s'
      else if starts_token s' then
        match strtok s' with
        | t :: ts => String c t :: ts
        | [] => [String c EmptyString]
        end
      else String c EmptyString :: strtok s'
  end.

Definition LINE_WIDTH : nat := 256.

(** The buffers that the calls of [fgets(line_buf, LINE_WIDTH, src_file)]
    fill until the end of the file: a buffer ends after a line feed or
    when [LINE_WIDTH - 1] characters are in it. *)
Fixpoint fgets (room : nat) (buf file : string) : list string :=
  match file with
  | EmptyString =>
      match buf with
      | EmptyString => []
      | _ => [buf]
      end
  | String c file' =>
      let buf' := buf +:+ String c EmptyString in
      if (char_code c =? 10) || (room =? 1)%nat
      then buf' :: fgets (LINE_WIDTH - 1) EmptyString file'
      else fgets (room - 1) buf' file'
  end.

(** A buffer read as a C string ends at its first NUL. *)
Fixpoint c_str (buf : string) : string :=
  match buf with
  | String c buf' =>
      if char_code c =? 0 then EmptyString else String c (c_str buf')
  | EmptyString => EmptyString
  end.

Definition source_lines (file : string) : list string :=
  map c_str (fgets (LINE_WIDTH - 1) EmptyString file).

(** ** The state of [main] *)

Record asm_state := Asm {
  label : list Z;
  rom : list Z;
  pc : Z;
  syntax_error : Z;
  other_error : Z;
  warning : Z
}.

Inductive parser_state_t := LABEL | MNEMONIC | OPERAND | COMMENT.

Global Instance parser_state_t_eq_dec : EqDecision parser_state_t.
Proof. solve_decision. Defined.

(** The variables declared in the body of the line loop. *)
Record line_vars := Line {
  lnum : Z;
  olnum : Z;
  optype : option operand_t;
  opcode : Z;
  name : option string;
  operand : Z;
  parser_state : parser_state_t
}.

Definition line_init : line_vars :=
  Line INVALID INVALID None INVALID None 0 LABEL.

Definition set_label v g :=
  Asm v (rom g) (pc g) (syntax_error g) (other_error g) (warning g).
Definition set_rom v g :=
  Asm (label g) v (pc g) (syntax_error g) (other_error g) (warning g).
Definition set_pc v g :=
  Asm (label g) (rom g) (v mod 256) (syntax_error g) (other_error g)
      (warning g).
Definition incr_syntax_error g :=
  Asm (label g) (rom g) (pc g) (syntax_error g + 1) (other_error g)
      (warning g).
Definition incr_other_error g :=
  Asm (label g) (rom g) (pc g) (syntax_error g) (other_error g + 1)
      (warning g).
Definition incr_warning g :=
  Asm (label g) (rom g) (pc g) (syntax_error g) (other_error g)
      (warning g + 1).

Definition set_lnum v l :=
  Line v (olnum l) (optype l) (opcode l) (name l) (operand l)
       (parser_state l).
Definition set_olnum v l :=
  Line (lnum l) v (optype l) (opcode l) (name l) (operand l)
       (parser_state l).
Definition set_token (t : token_t) l :=
  Line (lnum l) (olnum l) (Some (tk_type t)) (tk_code t) (Some (tk_name t))
       (operand l) (parser_state l).
Definition set_operand_var v l :=
  Line (lnum l) (olnum l) (optype l) (opcode l) (name l) v
       (parser_state l).
Definition set_parser_state v l :=
  Line (lnum l) (olnum l) (optype l) (opcode l) (name l) (operand l) v.

(** [a[i]] and [a[i] = v] on a C array. *)
Definition load (a : list Z) (i : Z) : option Z := a !! Z.to_nat i.

Definition store (a : list Z) (i v : Z) : option (list Z) :=
  if (Z.to_nat i <? length a)%nat then Some (<[Z.to_nat i := v]> a)
  else None.

(** ** One token of a line *)

Inductive msg_t :=
  | incorrect_label
  | unexpected_token
  | incorrect_operand
  | incorrect_label_operand
  | not_allowed_indexed_mode_operand
  | not_allowed_reg_operand
  | reg_operand_required.

(** Where control goes after a token. [Next] is [continue], and also the
    [break] of the undefined label operand, which leaves the [switch]
    only and so goes on with the next token in the same parser state. *)
Inductive flow :=
  | Next (g : asm_state) (l : line_vars)
  | PrintListing (g : asm_state) (l : line_vars)
  | SyntaxError (msg : msg_t) (p : string).

Definition first_is (c : ascii) (p : string) : bool :=
  match p with
  | String c' _ => Ascii.eqb c' c
  | EmptyString => false
  end.

(** [p + 1] *)
Definition str_tail (p : string) : string :=
  match p with
  | String _ p' => p'
  | EmptyString => EmptyString
  end.

Definition find_token (p : string) : option token_t :=
  List.find (fun t => memcmp_eq 3 p (tk_name t)) token.

Definition find_indreg (p : string) : option indreg_t :=
  List.find (fun r => String.eqb p (ir_name r)) indreg.

Definition is_type (ty : operand_t) (o : option operand_t) : bool :=
  bool_decide (o = Some ty).

(** [case LABEL] with a label present. *)
Definition case_LABEL (second_pass : bool) (g : asm_state) (l : line_vars)
    (p : string) : option flow :=
  let n := parse_label (str_tail p) 10 4 9999 in
  if negb second_pass && (n =? INVALID) then
    Some (SyntaxError incorrect_label p)
  else
    g1 ← (if second_pass then
            v ← load (label g) n;
            Some (if negb (v =? pc g) then incr_warning g else g)
          else Some g);
    lab ← store (label g1) n (pc g1);
    Some (Next (set_label lab g1) (set_parser_state MNEMONIC (set_lnum n l))).

(** [case MNEMONIC], also reached from [case LABEL] without a label. *)
Definition case_MNEMONIC (second_pass : bool) (g : asm_state) (l : line_vars)
    (p : string) : option flow :=
  if first_is ";" p then Some (PrintListing g l)
  else
    let l1 := match find_token p with
              | Some t => set_token t l
              | None => l
              end in
    if negb second_pass && negb (bool_decide (is_Some (name l1))) then
      Some (SyntaxError unexpected_token p)
    else
      r ← (if opcode l1 <? ORG
           then store (rom g) (pc g) (Z.shiftl (opcode l1) 8)
           else Some (rom g));
      Some (Next (set_rom r g) (set_parser_state OPERAND l1)).

(** The code at the label [set_operand]. *)
Definition set_operand (g : asm_state) (l : line_vars) : option flow :=
  r ← (if opcode l <? ORG
       then w ← load (rom g) (pc g);
            store (rom g) (pc g) (Z.lor w (operand l))
       else Some (rom g));
  Some (Next (set_rom r g) (set_parser_state COMMENT l)).

(** [case OPERAND] *)
Definition case_OPERAND (second_pass : bool) (g : asm_state) (l : line_vars)
    (p : string) : option flow :=
  if first_is "$" p then
    if negb second_pass && negb (is_type LAB (optype l)) then
      Some (SyntaxError incorrect_operand p)
    else
      let n := parse_label (str_tail p) 10 4 9999 in
      let l1 := set_olnum n l in
      if negb second_pass && (n =? INVALID) then
        Some (SyntaxError incorrect_label_operand p)
      else
        v ← load (label g) n;
        if v =? INVALID then
          Some (Next (if second_pass then incr_other_error g else g) l1)
        else set_operand g (set_operand_var v l1)
  else
    let l1 := match find_indreg p with
              | Some r => set_operand_var (ir_code r) l
              | None => l
              end in
    if negb (operand l1 =? 0) then
      if negb second_pass && negb (is_type REG (optype l1)) then
        Some (SyntaxError not_allowed_indexed_mode_operand p)
      else set_operand g l1
    else
      let marker :=
        if first_is "%" p then
          if negb second_pass && negb (is_type REG (optype l1))
          then inl not_allowed_reg_operand else inr (str_tail p)
        else
          if negb second_pass && is_type REG (optype l1)
          then inl reg_operand_required else inr p in
      match marker with
      | inl msg => Some (SyntaxError msg p)
      | inr p' =>
          let v := parse_label p' 16 2 0xff in
          if negb second_pass && (v =? INVALID) then
            Some (SyntaxError incorrect_operand p')
          else
            set_operand (if opcode l1 =? ORG then set_pc v g else g)
                        (set_operand_var v l1)
      end.

(** The [switch] on the parser state. *)
Definition on_token (second_pass : bool) (g : asm_state) (l : line_vars)
    (p : string) : option flow :=
  match parser_state l with
  | LABEL =>
      if first_is "$" p then case_LABEL second_pass g l p
      else case_MNEMONIC second_pass g l p
  | MNEMONIC => case_MNEMONIC second_pass g l p
  | OPERAND => case_OPERAND second_pass g l p
  | COMMENT => Some (PrintListing g l)
  end.

(** ** One line *)

Inductive line_end :=
  | Listing (g : asm_state) (l : line_vars)
  | Failed (g : asm_state) (msg : msg_t) (p : string).

(** The [for] loop over the tokens, up to one of the two labels after it. *)
Fixpoint token_loop (second_pass : bool) (g : asm_state) (l : line_vars)
    (ps : list string) : option line_end :=
  match ps with
  | [] => Some (Listing g l)
  | p :: ps' =>
      match on_token second_pass g l p with
      | None => None
      | Some (Next g' l') => token_loop second_pass g' l' ps'
      | Some (PrintListing g' l') => Some (Listing g' l')
      | Some (SyntaxError msg p') => Some (Failed g msg p')
      end
  end.

Definition reached_OPERAND (s : parser_state_t) : bool :=
  match s with
  | OPERAND | COMMENT => true
  | _ => false
  end.

(** [print_listing:] the mnemonic is printed with [%s], which needs a
    name; the address counter steps after an instruction. *)
Definition print_listing (g : asm_state) (l : line_vars) : option asm_state :=
  if reached_OPERAND (parser_state l) then
    match name l with
    | None => None
    | Some _ => Some (if opcode l <? ORG then set_pc (pc g + 1) g else g)
    end
  else Some g.

(** The body of the [while] loop for one buffer. *)
Definition asm_line (second_pass : bool) (g : asm_state) (line_buf : string)
    : option asm_state :=
  src_line ← str_toupper line_buf;
  e ← token_loop second_pass g line_init (strtok src_line);
  match e with
  | Listing g' l' => print_listing g' l'
  | Failed g' _ _ => Some (incr_syntax_error g')
  end.

(** ** A pass and the program *)

Fixpoint pass (second_pass : bool) (g : asm_state) (lines : list string)
    : option asm_state :=
  match lines with
  | [] => Some g
  | line_buf :: rest =>
      g' ← asm_line second_pass g line_buf;
      pass second_pass g' rest
  end.

(** [main] up to the first pass: [label] is filled with [INVALID], [rom]
    holds what the stack held. *)
Definition init (stack : Z → Z) : asm_state :=
  Asm (replicate (Z.to_nat 10000) INVALID)
      ((fun i => stack i mod UINT_MOD) <$> seqZ 0 256) 0 0 0 0.

Definition first_pass (stack : Z → Z) (lines : list string)
    : option asm_state :=
  pass false (set_pc 0 (init stack)) lines.

Definition second_pass (g1 : asm_state) (lines : list string)
    : option asm_state :=
  pass true (set_pc 0 g1) lines.

(** The two loops that write the hex file: 16 rows of 16 words. *)
Definition hexdump (r : list Z) : option (list (list Z)) :=
  mapM (fun i => mapM (fun j => load r (Z.shiftl i 4 + j)) (seqZ 0 16))
       (seqZ 0 16).

Record outcome := Outcome {
  exit_status : Z;
  passes : nat;
  hex_file : option (list (list Z));
  warnings : Z;
  errors : Z
}.

Definition main (argc : Z) (stack : Z → Z) (file : string) : option outcome :=
  if negb (argc =? 4) then Some (Outcome (-1) 0 None 0 0)
  else
    let lines := source_lines file in
    g1 ← first_pass stack lines;
    '(g, n) ← (if syntax_error g1 =? 0
               then g2 ← second_pass g1 lines; Some (g2, 2%nat)
               else Some (g1, 1%nat));
    if 0 <? syntax_error g then
      Some (Outcome 1 n None (warning g) (other_error g))
    else
      h ← hexdump (rom g);
      Some (Outcome 0 n (Some h) (warning g) (other_error g)).

(** The word of a hex file at an address. *)
Definition hex_word (h : list (list Z)) (a : Z) : option Z :=
  row ← h !! Z.to_nat (a / 16);
  row !! Z.to_nat (a mod 16).

Definition image_word (o : option outcome) (a : Z) : option Z :=
  r ← o; h ← hex_file r; hex_word h a.

Definition LF : string := String "010" EmptyString.

(** A source file from its lines. *)
Definition file_of (ls : list string) : string :=
  foldr (fun l f => l +:+ LF +:+ f) EmptyString ls.

Definition zero_stack : Z → Z := fun _ => 0.

(** ** Vocabulary of the properties *)

(** The label of a declaration token. *)
Definition token_id (p : string) : Z := parse_label (str_tail p) 10 4 9999.

(** The label that a line declares: its first token, when it starts
    with the marker and [parse_label] accepts the rest. *)
Definition declared_id (line_buf : string) : option Z :=
  match strtok line_buf with
  | p :: _ =>
      if first_is "$" p && negb (token_id p =? INVALID)
      then Some (token_id p) else None
  | [] => None
  end.

(** The arrays have their declared sizes and [pc] is a byte. *)
Record wf (g : asm_state) : Prop := Wf {
  wf_label : length (label g) = Z.to_nat 10000;
  wf_rom : length (rom g) = Z.to_nat 256;
  wf_pc : 0 ≤ pc g < 256
}.

(** An id with an address in the table. *)
Definition defined (g : asm_state) (n : Z) : Prop :=
  ∃ v, load (label g) n = Some v ∧ v ≠ INVALID.

Definition label_le (g1 g2 : asm_state) : Prop :=
  ∀ n, defined g1 n → defined g2 n.

(** The states of the two passes at the same place of the source. *)
Record sim_state (g1 g2 : asm_state) : Prop := SimState {
  sim_wf1 : wf g1;
  sim_wf2 : wf g2;
  sim_pc : pc g1 = pc g2;
  sim_le : label_le g1 g2
}.

(** The line variables of the two passes at the same token: in step, or
    the second pass already at the comment after an operand that the
    first pass could not resolve. *)
Record sim_vars (l1 l2 : line_vars) : Prop := SimVars {
  sim_opcode : opcode l1 = opcode l2;
  sim_optype : optype l1 = optype l2;
  sim_name : name l1 = name l2;
  sim_named : reached_OPERAND (parser_state l1) = true → is_Some (name l1);
  sim_lab : optype l1 = Some LAB → opcode l1 ≠ ORG;
  sim_parser :
    (parser_state l1 = parser_state l2
     ∧ (parser_state l1 ≠ COMMENT → operand l1 = 0 ∧ operand l2 = 0))
    ∨ (parser_state l1 = OPERAND ∧ parser_state l2 = COMMENT
       ∧ optype l1 = Some LAB)
}.

(** The two passes at the end of a line. *)
Definition sim_end (g1 : asm_state) (l1 : line_vars) (g2 : asm_state)
    (l2 : line_vars) : Prop :=
  sim_state g1 g2 ∧ opcode l1 = opcode l2 ∧ name l1 = name l2
  ∧ reached_OPERAND (parser_state l1) = reached_OPERAND (parser_state l2)
  ∧ (reached_OPERAND (parser_state l1) = true → is_Some (name l1)).

(** A stack that holds the same word everywhere. *)
Definition stack_of (w : Z) : Z → Z := fun _ => w.

(** A decimal digit. *)
Definition is_dec (c : ascii) : bool :=
  (48 <=? char_code c) && (char_code c <=? 57).

Fixpoint all_dec (s : string) : bool :=
  match s with
  | String c s' => is_dec c && all_dec s'
  | EmptyString => true
  end.

(** The text after the marker of a label written as the grammar has it:
    1 to 4 decimal digits. *)
Definition plain_decimal (s : string) : bool :=
  all_dec s && (1 <=? String.length s)%nat && (String.length s <=? 4)%nat.

(** The number that decimal digits write, most significant first. *)
Fixpoint dec_value_from (acc : Z) (s : string) : Z :=
  match s with
  | String c s' => dec_value_from (acc * 10 + (char_code c - 48)) s'
  | EmptyString => acc
  end.

Definition dec_value (s : string) : Z := dec_value_from 0 s.

(** The characters that [strtoul] can use in base 10. *)
Definition label_char (c : ascii) : bool :=
  is_dec c || isspace c || Ascii.eqb c "+" || Ascii.eqb c "-".

Fixpoint all_label_char (s : string) : bool :=
  match s with
  | String c s' => label_char c && all_label_char s'
  | EmptyString => true
  end.

(** Length of the longest prefix made of such characters. *)
Fixpoint span_label_char (s : string) : nat :=
  match s with
  | String c s' => if label_char c then S (span_label_char s') else O
  | EmptyString => O
  end.

(** The end of the line loop after the tokens: the listing, or the count
    of a syntax error. *)
Definition line_result (e : line_end) : option asm_state :=
  match e with
  | Listing g' l' => print_listing g' l'
  | Failed g' _ _ => Some (incr_syntax_error g')
  end.

(** A decimal digit with another character right after it. *)
Fixpoint digit_then_other (s : string) : bool :=
  match s with
  | String c s' =>
      match s' with
      | String c' _ => (is_dec c && negb (is_dec c')) || digit_then_other s'
      | EmptyString => false
      end
  | EmptyString => false
  end.

(** A text file: no NUL character. *)
Fixpoint no_nul (s : string) : bool :=
  match s with
  | String c s' => negb (char_code c =? 0) && no_nul s'
  | EmptyString => true
  end.


(** The values of the address counter at the start of the lines that a
    pass reads. *)
Fixpoint line_addresses (second_pass : bool) (g : asm_state)
    (lines : list string) : list Z :=
  match lines with
  | [] => []
  | line_buf :: rest =>
      pc g :: match asm_line second_pass g line_buf with
              | Some g' => line_addresses second_pass g' rest
              | None => []
              end
  end.

(** A word: a text with a first character and no delimiter. *)
Fixpoint no_delim (s : string) : bool :=
  match s with
  | String c s' => negb (is_delim c) && no_delim s'
  | EmptyString => true
  end.

Definition is_word (s : string) : Prop := s ≠ EmptyString ∧ no_delim s = true.

(** Words written one after the other, each followed by a delimiter. *)
Fixpoint join_words (sep : ascii) (ws : list string) : string :=
  match ws with
  | [] => EmptyString
  | w :: ws' => w +:+ String sep (join_words sep ws')
  end.




(** The state and the line variables after the mnemonic of a line
    without a label. *)
Definition after_mnemonic_state (t : token_t) (g : asm_state) : asm_state :=
  set_rom (if tk_code t <? ORG
           then <[Z.to_nat (pc g) := Z.shiftl (tk_code t) 8]> (rom g)
           else rom g) g.

Definition after_mnemonic_vars (t : token_t) : line_vars :=
  set_parser_state OPERAND (set_token t line_init).

(** The text of a numeric operand without its register marker, when the
    marker is there exactly for a register instruction. *)
Definition numeric_text (ty : operand_t) (op : string) : option string :=
  if first_is "%" op then
    if bool_decide (ty = REG) then Some (str_tail op) else None
  else
    if bool_decide (ty = REG) then None else Some op.


(** The ids that the lines of a source declare, in the order of the
    lines. *)
Definition declared_ids (lines : list string) : list Z :=
  omap declared_id lines.

(** ** The listing buffer *)

Definition LST_LINE_WIDTH : nat := 2 * LINE_WIDTH.

Definition NUL : ascii := "000"%char.
Definition SPACE : ascii := " "%char.

(** [buf[i] = c] on an array of characters. *)
Definition store_char (b : list ascii) (i : Z) (c : ascii)
    : option (list ascii) :=
  if (0 <=? i) && (Z.to_nat i <? length b)%nat
  then Some (<[Z.to_nat i := c]> b) else None.

(** [vsprintf(&buf[pos], fmt, ap)] for the text that the format and its
    arguments give: the characters of the text, then the terminator. *)
Fixpoint vsprintf (b : list ascii) (pos : Z) (text : string)
    : option (list ascii) :=
  match text with
  | EmptyString => store_char b pos NUL
  | String c text' => b' ← store_char b pos c; vsprintf b' (pos + 1) text'
  end.

(** The two statics of [putatpos]: the array that [buf] points to, and
    [end]. *)
Record putatpos_t := Putatpos {
  pa_buf : list ascii;
  pa_end : Z
}.

(** [putatpos(strbuf, pos)] with a buffer. *)
Definition putatpos_set (strbuf : list ascii) (pos : Z) : putatpos_t :=
  Putatpos strbuf pos.

(** [putatpos(NULL, pos, fmt, ...)]: the new statics and the value
    returned. *)
Definition putatpos (st : putatpos_t) (pos : Z) (text : string)
    : option (putatpos_t * Z) :=
  b1 ← (if pa_end st <? pos then store_char (pa_buf st) (pa_end st) SPACE
        else Some (pa_buf st));
  b2 ← vsprintf b1 pos text;
  let pos' := pos + Z.of_nat (String.length text) in
  if pos' <? pa_end st then
    b3 ← store_char b2 pos' SPACE; Some (Putatpos b3 (pa_end st), pos')
  else Some (Putatpos b2 pos', pos').

(** The buffer of a listing line between two calls of [putatpos]: no
    terminator before [end], blanks after it. *)
Record pa_inv (st : putatpos_t) : Prop := PaInv {
  pa_length : length (pa_buf st) = LST_LINE_WIDTH;
  pa_range : 0 ≤ pa_end st < Z.of_nat LST_LINE_WIDTH;
  pa_text : ∀ (i : nat) c, (Z.of_nat i < pa_end st) →
                           pa_buf st !! i = Some c → c ≠ NUL;
  pa_blank : ∀ i : nat, (pa_end st < Z.of_nat i < Z.of_nat LST_LINE_WIDTH) →
                        pa_buf st !! i = Some SPACE;
  pa_term : 0 < pa_end st → pa_buf st !! Z.to_nat (pa_end st) = Some NUL
}.

(** ** Conversions of [printf] *)

Definition digit_char (d : Z) : ascii :=
  ascii_of_N (Z.to_N (if d <? 10 then 48 + d else 55 + d)).

(** The digits of an [unsigned] in a base, the first one first; 32
    digits are enough in any base. *)
Fixpoint utoa_aux (fuel : nat) (base n : Z) (acc : string) : string :=
  match fuel with
  | O => acc
  | S fuel' =>
      let acc' := String (digit_char (n mod base)) acc in
      if n / base =? 0 then acc' else utoa_aux fuel' base (n / base) acc'
  end.

Definition utoa (base n : Z) : string := utoa_aux 32 base n EmptyString.

Fixpoint str_repeat (c : ascii) (n : nat) : string :=
  match n with
  | O => EmptyString
  | S n' => String c (str_repeat c n')
  end.

Definition pad_left (c : ascii) (width : nat) (s : string) : string :=
  str_repeat c (width - String.length s) +:+ s.

(** [%u], [%4u], [%02X], [%03X], [%3.02X] and [%4.03X] of an
    [unsigned]: a precision is the least number of digits, a width the
    least number of characters. *)
Definition fmt_u (n : Z) : string := utoa 10 n.
Definition fmt_4u (n : Z) : string := pad_left " " 4 (utoa 10 n).
Definition fmt_02X (n : Z) : string := pad_left "0" 2 (utoa 16 n).
Definition fmt_03X (n : Z) : string := pad_left "0" 3 (utoa 16 n).
Definition fmt_3_02X (n : Z) : string :=
  pad_left " " 3 (pad_left "0" 2 (utoa 16 n)).
Definition fmt_4_03X (n : Z) : string :=
  pad_left " " 4 (pad_left "0" 3 (utoa 16 n)).

(** ** The listing line *)

(** The calls of [putatpos] at [print_listing:], in their order: the
    position and the text of each. *)
Definition listing_fields (line_cnt : Z) (g : asm_state) (l : line_vars)
    (comment : option string) : option (list (Z * string)) :=
  let at_operand := reached_OPERAND (parser_state l) in
  word ← (if at_operand && (opcode l <? ORG)
          then w ← load (rom g) (pc g); Some [(12, fmt_03X w)]
          else Some []);
  mnemonic ← (if at_operand
              then n ← name l;
                   Some [(32, n);
                         (40, if negb (olnum l =? INVALID)
                              then String "$" (fmt_u (olnum l))
                              else if is_type REG (optype l)
                                   then String "%" (fmt_02X (operand l))
                                   else fmt_3_02X (operand l))]
              else Some []);
  Some ([(0, fmt_4u line_cnt +:+ ":   " +:+ fmt_02X (pc g))]
        ++ word
        ++ (if negb (lnum l =? INVALID)
            then [(24, String "$" (fmt_u (lnum l)))] else [])
        ++ mnemonic
        ++ match comment with
           | Some c => [(48, c)]
           | None => []
           end).

Fixpoint put_fields (st : putatpos_t) (fs : list (Z * string))
    : option putatpos_t :=
  match fs with
  | [] => Some st
  | (pos, text) :: fs' =>
      r ← putatpos st pos text; put_fields (fst r) fs'
  end.

(** The characters of an array before its first terminator, for
    [strlen] and [fputs]; without a terminator they read past the
    array. *)
Fixpoint c_chars (b : list ascii) : option (list ascii) :=
  match b with
  | [] => None
  | c :: b' => if Ascii.eqb c NUL then Some [] else (c ::.) <$> c_chars b'
  end.

Definition LFc : ascii := "010"%char.

(** The end of [print_listing:]: a line feed is put after a line that
    does not end with one. *)
Definition end_line (b : list ascii) : option (list ascii) :=
  s ← c_chars b;
  let i := Z.of_nat (length s) - 1 in
  c ← (if 0 <=? i then b !! Z.to_nat i else None);
  if Ascii.eqb c LFc then Some b
  else b1 ← store_char b (i + 1) LFc; store_char b1 (i + 2) NUL.

(** The text that [print_listing:] writes to the listing. *)
Definition listing_line (line_cnt : Z) (g : asm_state) (l : line_vars)
    (comment : option string) : option string :=
  fs ← listing_fields line_cnt g l comment;
  st ← put_fields (putatpos_set (replicate LST_LINE_WIDTH SPACE) 0) fs;
  b ← end_line (pa_buf st);
  string_of_list_ascii <$> c_chars b.

(** The offsets in a line of the tokens that [strtok] returns, from
    the offset of the first character of the line. *)
Fixpoint strtok_offsets (off : nat) (s : string) : list nat :=
  match s with
  | EmptyString => []
  | String c s' =>
      if is_delim c then strtok_offsets (S off) s'
      else if starts_token s' then
        match strtok_offsets (S off) s' with
        | _ :: ts => off :: ts
        | [] => [off]
        end
      else off :: strtok_offsets (S off) s'
  end.

(** The index of the token at which the loop over the tokens goes to
    [print_listing:], where [comment] is set. *)
Fixpoint comment_at (second_pass : bool) (g : asm_state) (l : line_vars)
    (ps : list string) (k : nat) : option nat :=
  match ps with
  | [] => None
  | p :: ps' =>
      match on_token second_pass g l p with
      | Some (Next g' l') => comment_at second_pass g' l' ps' (S k)
      | Some (PrintListing _ _) => Some k
      | _ => None
      end
  end.

(** [comment]: the line from the token on, in the buffer that [fgets]
    filled. *)
Definition comment_of (second_pass : bool) (g : asm_state)
    (line_buf src_line : string) : option string :=
  k ← comment_at second_pass g line_init (strtok src_line) 0;
  off ← strtok_offsets 0 src_line !! k;
  Some (str_drop off line_buf).

(** The listing line of a source line, when the line has one: a line
    with a syntax error has a message in its place. *)
Definition lst_line (second_pass : bool) (line_cnt : Z) (g : asm_state)
    (line_buf : string) : option (option string) :=
  src_line ← str_toupper line_buf;
  e ← token_loop second_pass g line_init (strtok src_line);
  match e with
  | Listing g' l' =>
      Some <$> listing_line line_cnt g' l'
                 (comment_of second_pass g line_buf src_line)
  | Failed _ _ _ => Some None
  end.

(** The line that calls of [putatpos] at rising positions build: blanks
    up to the position of a text, then the text. *)
Fixpoint layout (acc : list ascii) (fs : list (Z * string)) : list ascii :=
  match fs with
  | [] => acc
  | (pos, text) :: fs' =>
      layout (acc ++ replicate (Z.to_nat pos - length acc) SPACE
                  ++ list_ascii_of_string text) fs'
  end.

(** Every text holds no terminator and starts at the end of the one
    before it or later, and the last one leaves room for a line feed
    and the terminator. *)
Fixpoint fields_fit (e : Z) (fs : list (Z * string)) : bool :=
  match fs with
  | [] => e <? Z.of_nat LST_LINE_WIDTH - 1
  | (pos, text) :: fs' =>
      (e <=? pos) && no_nul text
      && fields_fit (pos + Z.of_nat (String.length text)) fs'
  end.

Definition with_line_feed (s : list ascii) : list ascii :=
  match last s with
  | Some c => if Ascii.eqb c LFc then s else s ++ [LFc]
  | None => s
  end.
(** A text without a terminator and of a bounded length. *)
Definition text_le (k : nat) (s : string) : Prop :=
  no_nul s = true ∧ (String.length s ≤ k)%nat.

(** A text of at most 255 characters without a terminator. *)
Definition short_text (s : string) : Prop :=
  no_nul s = true ∧ Z.of_nat (String.length s) ≤ 255.

(** The name of a line is one of the table. *)
Definition table_name (l : line_vars) : Prop :=
  ∀ n, name l = Some n → ∃ t, t ∈ token ∧ n = tk_name t.

(** ** The text of the hex file *)

(** A row of the hex file: every word with [%4.03X], then a line
    feed. *)
Definition hex_row (row : list Z) : string :=
  foldr (fun w s => fmt_4_03X w +:+ s) LF row.

Definition hex_text (h : list (list Z)) : string :=
  foldr (fun row s => hex_row row +:+ s) EmptyString h.

(** A word of 12 bits is written as a blank and three digits that read
    back as the word. *)
Definition hex_cell_ok (w : Z) : bool :=
  match fmt_4_03X w with
  | String c (String d2 (String d1 (String d0 EmptyString))) =>
      Ascii.eqb c " "
      && bool_decide (strtoul (fmt_4_03X w) 16 = (w, 4%nat))
      && bool_decide (parse_label
                        (String d2 (String d1 (String d0 EmptyString)))
                        16 3 0xfff = w)
  | _ => false
  end.


(** The tokens before the mnemonic of a line: none, or one label
    declaration that [parse_label] accepts. *)
Definition label_prefix (pfx : list string) : Prop :=
  pfx = []
  ∨ ∃ lab, pfx = [lab] ∧ first_is "$" lab = true ∧ token_id lab ≠ INVALID.

(** * Properties *)

(** ** Examples *)

Example parse_label_1 : parse_label "1" 10 4 9999 = 1.
Proof. reflexivity. Qed.
Example parse_label_9999 : parse_label "9999" 10 4 9999 = 9999.
Proof. reflexivity. Qed.
Example parse_label_10000 : parse_label "10000" 10 4 9999 = INVALID.
Proof. reflexivity. Qed.
Example parse_label_minus : parse_label "-1" 10 4 9999 = INVALID.
Proof. reflexivity. Qed.
Example parse_label_hex : parse_label "fF" 16 2 0xff = 255.
Proof. reflexivity. Qed.
Example parse_label_0x : parse_label "0x1" 16 2 0xff = INVALID.
Proof. reflexivity. Qed.
Example parse_label_1a : parse_label "1a" 10 4 9999 = INVALID.
Proof. reflexivity. Qed.

Example scenario_loop :
  main 4 zero_stack (file_of ["LDI 05"; "$1 ADI 01"; "BNZ $1"])
  = Some (Outcome 0 2
            (Some (([0xD05; 0x501; 0x901] ++ replicate 13 0)
                   :: replicate 15 (replicate 16 0))) 0 0).
Proof. vm_compute. reflexivity. Qed.

Example scenario_org :
  image_word (main 4 zero_stack (file_of ["ORG 10"; "LDI 0A"])) 0x10
  = Some 0xD0A.
Proof. vm_compute. reflexivity. Qed.

Example scenario_undefined_label :
  main 4 zero_stack (file_of ["JMP $5"])
  = Some (Outcome 0 2
            (Some ((0xB00 :: replicate 15 0)
                   :: replicate 15 (replicate 16 0))) 0 1).
Proof. vm_compute. reflexivity. Qed.


(** ** Arrays and tables *)

Lemma INVALID_eq : INVALID = 4294967295.
Proof. reflexivity. Qed.

Lemma store_Some (a : list Z) (i v : Z) :
  (Z.to_nat i < length a)%nat → store a i v = Some (<[Z.to_nat i := v]> a).
Proof.
  intros H. unfold store.
  destruct (Nat.ltb_spec (Z.to_nat i) (length a)); [done | lia].
Qed.

Lemma store_inv (a a' : list Z) (i v : Z) :
  store a i v = Some a' →
  (Z.to_nat i < length a)%nat ∧ a' = <[Z.to_nat i := v]> a.
Proof.
  unfold store.
  destruct (Nat.ltb_spec (Z.to_nat i) (length a)); naive_solver.
Qed.

Lemma load_inv (a : list Z) (i v : Z) :
  load a i = Some v → (Z.to_nat i < length a)%nat.
Proof. unfold load. apply lookup_lt_Some. Qed.

Lemma load_is_Some (a : list Z) (i : Z) :
  (Z.to_nat i < length a)%nat → ∃ v, load a i = Some v.
Proof. intros H. apply lookup_lt_is_Some_2 in H as [v Hv]. by exists v. Qed.

Lemma memcmp_eq_prefix (q p : string) :
  memcmp_eq (String.length q) p q = true → ∃ sfx, p = q +:+ sfx.
Proof.
  revert p. induction q as [|b q IH]; intros p; simpl.
  - intros _. by exists p.
  - destruct p as [|a p]; [done |].
    intros [Hab Hq]%andb_prop. apply Ascii.eqb_eq in Hab as ->.
    destruct (IH _ Hq) as [sfx ->]. by exists sfx.
Qed.

Lemma token_names : Forall (fun t => String.length (tk_name t) = 3%nat) token.
Proof. repeat constructor. Qed.

Lemma find_token_inv (p : string) (t : token_t) :
  find_token p = Some t → t ∈ token ∧ ∃ sfx, p = tk_name t +:+ sfx.
Proof.
  intros [Hin Hcmp]%List.find_some. apply list_elem_of_In in Hin.
  split; [done |]. apply memcmp_eq_prefix.
  pose proof token_names as Hn. rewrite Forall_forall in Hn.
  by rewrite (Hn _ Hin).
Qed.

(** The lookup compares three bytes and stops at the first entry that
    agrees: what follows the three characters is not looked at. *)
Lemma find_token_prefix (t : token_t) (sfx : string) :
  t ∈ token → find_token (tk_name t +:+ sfx) = Some t.
Proof.
  intros Hin. apply list_elem_of_In in Hin. simpl in Hin.
  repeat (destruct Hin as [<- | Hin]; [reflexivity |]). done.
Qed.

Lemma find_token_first (p : string) (t : token_t) :
  find_token p = Some t → first_is "$" p = false ∧ first_is ";" p = false.
Proof.
  intros [Hin [sfx ->]]%find_token_inv.
  apply list_elem_of_In in Hin. simpl in Hin.
  repeat (destruct Hin as [<- | Hin]; [done |]). done.
Qed.

Lemma token_LAB_not_ORG (t : token_t) :
  t ∈ token → tk_type t = LAB → tk_code t ≠ ORG.
Proof.
  intros Hin. apply list_elem_of_In in Hin. simpl in Hin. unfold ORG.
  repeat (destruct Hin as [<- | Hin];
          [simpl; unfold ORG; intros; (done || lia) |]).
  done.
Qed.

Lemma token_code_range (t : token_t) : t ∈ token → 0 ≤ tk_code t ≤ ORG.
Proof.
  intros Hin. apply list_elem_of_In in Hin. simpl in Hin. unfold ORG.
  repeat (destruct Hin as [<- | Hin]; [simpl; unfold ORG; lia |]). done.
Qed.

(** ** Well-formed states *)

Lemma wf_init (stack : Z → Z) : wf (init stack).
Proof.
  split; unfold init; cbn [label rom pc].
  - apply length_replicate.
  - by rewrite length_fmap, length_seqZ.
  - lia.
Qed.

Lemma wf_set_pc (v : Z) (g : asm_state) : wf g → wf (set_pc v g).
Proof.
  intros [? ? ?]. split; simpl; try done.
  apply Z.mod_pos_bound. lia.
Qed.

Lemma wf_set_rom (g : asm_state) (i v : Z) :
  wf g → wf (set_rom (<[Z.to_nat i := v]> (rom g)) g).
Proof. intros [? ? ?]. split; simpl; try done. by rewrite length_insert. Qed.

Lemma wf_set_label (g : asm_state) (i v : Z) :
  wf g → wf (set_label (<[Z.to_nat i := v]> (label g)) g).
Proof. intros [? ? ?]. split; simpl; try done. by rewrite length_insert. Qed.

Lemma wf_incr_warning (g : asm_state) : wf g → wf (incr_warning g).
Proof. by intros [? ? ?]. Qed.

Lemma wf_incr_other_error (g : asm_state) : wf g → wf (incr_other_error g).
Proof. by intros [? ? ?]. Qed.

Lemma wf_incr_syntax_error (g : asm_state) : wf g → wf (incr_syntax_error g).
Proof. by intros [? ? ?]. Qed.

Lemma wf_pc_index (g : asm_state) :
  wf g → (Z.to_nat (pc g) < length (rom g))%nat.
Proof. intros [? -> ?]. lia. Qed.
(** ** What one token does to the state *)

Ltac token_cases H :=
  unfold on_token, case_LABEL, case_MNEMONIC, case_OPERAND, set_operand in H;
  cbn [negb andb orb] in H;
  repeat (simplify_option_eq || case_match);
  repeat match goal with
  | H' : store _ _ _ = Some _ |- _ => apply store_inv in H' as [? ->]
  end.

Ltac wf_solve :=
  match goal with
  | Hwf : wf _ |- wf _ =>
      destruct Hwf; split; simpl; rewrite ?length_insert; try done;
      apply Z.mod_pos_bound; lia
  end.

Lemma on_token_listing sp g l p g' l' :
  on_token sp g l p = Some (PrintListing g' l') → g' = g ∧ l' = l.
Proof. intros H. token_cases H; done. Qed.

Lemma on_token_next_wf sp g l p g' l' :
  wf g → on_token sp g l p = Some (Next g' l') → wf g'.
Proof. intros Hwf H. token_cases H; wf_solve. Qed.

Lemma on_token_next_syntax_error sp g l p g' l' :
  on_token sp g l p = Some (Next g' l') → syntax_error g' = syntax_error g.
Proof. intros H. token_cases H; done. Qed.

Lemma on_token_next_state sp g l p g' l' :
  on_token sp g l p = Some (Next g' l') → parser_state l' ≠ LABEL.
Proof. intros H. token_cases H; simpl; congruence. Qed.

Lemma on_token_next_label sp g l p g' l' :
  on_token sp g l p = Some (Next g' l') →
  label g' =
    if bool_decide (parser_state l = LABEL) && first_is "$" p
    then <[Z.to_nat (token_id p) := pc g]> (label g)
    else label g.
Proof. intros H. token_cases H; done. Qed.

Lemma on_token_pass2_counters g l p g' l' :
  on_token true g l p = Some (Next g' l') →
  warning g ≤ warning g' ∧ other_error g ≤ other_error g'.
Proof. intros H. token_cases H; simpl; lia. Qed.

(** ** What one line does to the state *)

Lemma token_loop_inv sp ps : ∀ g l e,
  wf g → token_loop sp g l ps = Some e →
  match e with
  | Listing g' _ | Failed g' _ _ =>
      wf g' ∧ syntax_error g' = syntax_error g
  end.
Proof.
  induction ps as [|p ps IH]; intros g l e Hwf H; simpl in H.
  - by simplify_eq.
  - destruct (on_token sp g l p) as [[g1 l1 | g1 l1 | m q] |] eqn:Ht;
      simplify_eq.
    + apply IH in H; [| by eapply on_token_next_wf].
      apply on_token_next_syntax_error in Ht.
      destruct e; by rewrite <- Ht.
    + by apply on_token_listing in Ht as [-> ->].
    + done.
Qed.

Lemma token_loop_label_tail sp ps : ∀ g l e,
  parser_state l ≠ LABEL → token_loop sp g l ps = Some e →
  match e with
  | Listing g' _ | Failed g' _ _ => label g' = label g
  end.
Proof.
  induction ps as [|p ps IH]; intros g l e Hst H; simpl in H.
  - by simplify_eq.
  - destruct (on_token sp g l p) as [[g1 l1 | g1 l1 | m q] |] eqn:Ht;
      simplify_eq.
    + apply IH in H; [| by eapply on_token_next_state].
      apply on_token_next_label in Ht.
      rewrite bool_decide_eq_false_2 in Ht by done. simpl in Ht.
      destruct e; congruence.
    + by apply on_token_listing in Ht as [-> ->].
    + done.
Qed.

Lemma print_listing_inv g l g' :
  wf g → print_listing g l = Some g' →
  wf g' ∧ label g' = label g ∧ rom g' = rom g
  ∧ syntax_error g' = syntax_error g ∧ other_error g' = other_error g
  ∧ warning g' = warning g.
Proof.
  unfold print_listing. intros Hwf H.
  repeat case_match; simplify_eq; split_and!; try done.
  by apply wf_set_pc.
Qed.

Lemma str_toupper_id p q : str_toupper p = Some q → q = p.
Proof. destruct p; naive_solver. Qed.

Lemma strtok_nonempty p : strtok p ≠ [] → str_toupper p = Some p.
Proof. by destruct p. Qed.

Lemma asm_line_inv sp g line_buf g' :
  wf g → asm_line sp g line_buf = Some g' →
  wf g' ∧ syntax_error g ≤ syntax_error g' ≤ syntax_error g + 1.
Proof.
  unfold asm_line. intros Hwf H.
  destruct (str_toupper line_buf) as [src|]; [simpl in H | done].
  destruct (token_loop sp g line_init (strtok src)) as [e|] eqn:He;
    [simpl in H | done].
  apply token_loop_inv in He; [| done].
  destruct e as [g1 l1 | g1 m q]; destruct He as [Hwf1 Hs].
  - apply print_listing_inv in H as (? & _ & _ & -> & _); [| done].
    split; [done | lia].
  - simplify_eq. split; [by apply wf_incr_syntax_error | simpl; lia].
Qed.

Lemma token_loop_pass2_listing ps : ∀ g l e,
  token_loop true g l ps = Some e → ∃ g' l', e = Listing g' l'.
Proof.
  induction ps as [|p ps IH]; intros g l e H; simpl in H.
  - naive_solver.
  - destruct (on_token true g l p) as [[g1 l1 | g1 l1 | m q] |] eqn:Ht;
      simplify_eq; [by eapply IH | naive_solver |].
    exfalso. token_cases Ht.
Qed.

Lemma asm_line_pass2_syntax_error g line_buf g' :
  wf g → asm_line true g line_buf = Some g' →
  syntax_error g' = syntax_error g.
Proof.
  unfold asm_line. intros Hwf H.
  destruct (str_toupper line_buf) as [src|]; [simpl in H | done].
  destruct (token_loop true g line_init (strtok src)) as [e|] eqn:He;
    [simpl in H | done].
  destruct (token_loop_pass2_listing _ _ _ _ He) as (g1 & l1 & ->).
  apply token_loop_inv in He as [Hwf1 <-]; [| done].
  by apply print_listing_inv in H as (_ & _ & _ & -> & _).
Qed.

Lemma on_token_first sp g p f :
  wf g → on_token sp g line_init p = Some f →
  let declares := first_is "$" p && negb (token_id p =? INVALID) in
  match f with
  | Next g1 _ =>
      label g1 = if declares then <[Z.to_nat (token_id p) := pc g]> (label g)
                 else label g
  | _ => declares = false
  end.
Proof.
  intros Hwf H. unfold token_id. destruct f.
  all: token_cases H; simpl; try done.
  all: rewrite ?INVALID_eq in *.
  all: repeat match goal with
       | H : negb _ = false |- _ => apply negb_false_iff in H
       | H : (_ =? _) = true |- _ => apply Z.eqb_eq in H
       end.
  all: try (destruct Hwf as [Hl _ _]; lia).
Qed.

Lemma asm_line_label sp g line_buf g' :
  wf g → asm_line sp g line_buf = Some g' →
  label g' = match declared_id line_buf with
             | Some n => <[Z.to_nat n := pc g]> (label g)
             | None => label g
             end.
Proof.
  unfold asm_line, declared_id. intros Hwf H.
  destruct (str_toupper line_buf) as [src|] eqn:Hup; [simpl in H | done].
  apply str_toupper_id in Hup as ->.
  destruct (token_loop sp g line_init (strtok line_buf)) as [e|] eqn:He;
    [simpl in H | done].
  assert (label g' = match e with Listing g1 _ | Failed g1 _ _ => label g1 end)
    as ->.
  { pose proof (token_loop_inv _ _ _ _ _ Hwf He) as Hwf1.
    destruct e as [g1 l1|]; [| by simplify_eq].
    destruct Hwf1 as [Hwf1 _].
    by apply print_listing_inv in H as (_ & -> & _). }
  clear H. destruct (strtok line_buf) as [|p ps]; simpl in He.
  { by simplify_eq. }
  destruct (on_token sp g line_init p) as [f|] eqn:Ht; [| done].
  pose proof (on_token_first _ _ _ _ Hwf Ht) as Hf. simpl in Hf.
  destruct f as [g1 l1 | g1 l1 | m q]; simplify_eq.
  - apply on_token_next_state in Ht.
    apply (token_loop_label_tail _ _ _ _ _ Ht) in He.
    destruct e; rewrite He, Hf; by case_match.
  - apply on_token_listing in Ht as [-> ->]. by rewrite Hf.
  - by rewrite Hf.
Qed.

Lemma parse_label_bound p base w m :
  parse_label p base w m = INVALID ∨ 0 ≤ parse_label p base w m ≤ m.
Proof.
  unfold parse_label. destruct (strtoul p base) as [v used].
  case_match; [right | by left].
  pose proof (Z.mod_pos_bound v UINT_MOD eq_refl).
  repeat match goal with
         | H : _ && _ = true |- _ => apply andb_prop in H as [? ?]
         end.
  lia.
Qed.

Lemma declared_id_range line_buf n :
  declared_id line_buf = Some n → 0 ≤ n ≤ 9999.
Proof.
  unfold declared_id. intros H. repeat case_match; simplify_eq.
  match goal with H : _ && _ = true |- _ => apply andb_prop in H as [_ Hn] end.
  apply negb_true_iff, Z.eqb_neq in Hn.
  unfold token_id in *.
  by destruct (parse_label_bound (str_tail s) 10 4 9999).
Qed.

(** ** What a pass does to the state *)

Lemma pass_app sp l1 : ∀ l2 g,
  pass sp g (l1 ++ l2) = g' ← pass sp g l1; pass sp g' l2.
Proof.
  induction l1 as [|x l1 IH]; intros l2 g; simpl; [done |].
  destruct (asm_line sp g x); simpl; [apply IH | done].
Qed.

Lemma pass_inv sp lines : ∀ g g',
  wf g → pass sp g lines = Some g' →
  wf g' ∧ syntax_error g ≤ syntax_error g'.
Proof.
  induction lines as [|x lines IH]; intros g g' Hwf H; simpl in H.
  - simplify_eq. split; [done | lia].
  - destruct (asm_line sp g x) as [g1|] eqn:Hx; [simpl in H | done].
    apply asm_line_inv in Hx as [Hwf1 ?]; [| done].
    apply IH in H as [? ?]; [| done]. split; [done | lia].
Qed.

Lemma pass2_syntax_error lines : ∀ g g',
  wf g → pass true g lines = Some g' → syntax_error g' = syntax_error g.
Proof.
  induction lines as [|x lines IH]; intros g g' Hwf H; simpl in H.
  - by simplify_eq.
  - destruct (asm_line true g x) as [g1|] eqn:Hx; [simpl in H | done].
    pose proof (asm_line_pass2_syntax_error _ _ _ Hwf Hx) as <-.
    apply asm_line_inv in Hx as [Hwf1 _]; [| done]. by apply IH.
Qed.

(** A pass over lines that do not declare a label leaves its entry. *)
Lemma pass_label_frame sp (id : Z) lines : ∀ g g',
  0 ≤ id → wf g → pass sp g lines = Some g' →
  Forall (fun ln => declared_id ln ≠ Some id) lines →
  load (label g') id = load (label g) id.
Proof.
  induction lines as [|x lines IH]; intros g g' Hid Hwf H Hno; simpl in H.
  - by simplify_eq.
  - destruct (asm_line sp g x) as [g1|] eqn:Hx; [simpl in H | done].
    apply Forall_cons in Hno as [Hx_no Hno].
    pose proof (asm_line_label _ _ _ _ Hwf Hx) as Hl.
    apply asm_line_inv in Hx as [Hwf1 _]; [| done].
    rewrite (IH _ _ Hid Hwf1 H Hno), Hl. unfold load.
    destruct (declared_id x) as [n|] eqn:Hd; [| done].
    apply declared_id_range in Hd.
    apply list_lookup_insert_ne. intros Heq. apply Hx_no. f_equal. lia.
Qed.

(** A line that declares a label stores the address counter for it. *)
Lemma asm_line_declares sp g line_buf g' (id : Z) :
  wf g → asm_line sp g line_buf = Some g' →
  declared_id line_buf = Some id →
  load (label g') id = Some (pc g).
Proof.
  intros Hwf H Hd. rewrite (asm_line_label _ _ _ _ Hwf H), Hd.
  apply declared_id_range in Hd. unfold load.
  apply list_lookup_insert_eq. destruct Hwf as [-> _ _]. lia.
Qed.


(** ** Lines with a mnemonic *)

Lemma find_token_name (t : token_t) :
  t ∈ token → find_token (tk_name t) = Some t.
Proof.
  intros Hin. apply list_elem_of_In in Hin. simpl in Hin.
  repeat (destruct Hin as [<- | Hin]; [reflexivity |]). done.
Qed.

Lemma case_MNEMONIC_found sp g l p t :
  wf g → find_token p = Some t →
  case_MNEMONIC sp g l p =
    Some (Next (set_rom (if tk_code t <? ORG
                         then <[Z.to_nat (pc g) := Z.shiftl (tk_code t) 8]>
                                (rom g)
                         else rom g) g)
               (set_parser_state OPERAND (set_token t l))).
Proof.
  intros Hwf Hf. unfold case_MNEMONIC.
  destruct (find_token_first _ _ Hf) as [_ ->]. rewrite Hf. simpl.
  rewrite andb_false_r.
  destruct (tk_code t <? ORG); [| done].
  by rewrite store_Some by by apply wf_pc_index.
Qed.

Lemma instruction_word (c : Z) :
  0 ≤ c → Z.shiftr (Z.shiftl c 8) 8 = c ∧ Z.land (Z.shiftl c 8) 0xff = 0.
Proof.
  intros Hc. split.
  - rewrite Z.shiftr_shiftl_l by lia. apply Z.shiftl_0_r.
  - change 0xff with (Z.ones 8). rewrite Z.land_ones by lia.
    rewrite Z.shiftl_mul_pow2 by lia. apply Z.mod_mul. lia.
Qed.

(** ** The symbol table *)

Lemma load_init_label (stack : Z → Z) (id : Z) :
  0 ≤ id ≤ 9999 → load (label (init stack)) id = Some INVALID.
Proof.
  intros Hid. unfold load, init. cbn [label].
  apply lookup_replicate_2. lia.
Qed.



(** ** The second pass follows the first *)

Lemma sim_case_LABEL g1 l1 g2 l2 p g1' l1' :
  sim_state g1 g2 →
  case_LABEL false g1 l1 p = Some (Next g1' l1') →
  ∃ g2',
    case_LABEL true g2 l2 p
    = Some (Next g2' (set_parser_state MNEMONIC (set_lnum (token_id p) l2)))
    ∧ l1' = set_parser_state MNEMONIC (set_lnum (token_id p) l1)
    ∧ sim_state g1' g2'.
Proof.
  intros [Hwf1 Hwf2 Hpc Hle] H. unfold case_LABEL in *. fold (token_id p) in *.
  simpl in H. case_match; [done |].
  destruct (store (label g1) (token_id p) (pc g1)) as [lab1|] eqn:Hs1;
    simplify_eq/=.
  apply store_inv in Hs1 as [Hlt ->].
  assert (Z.to_nat (token_id p) < length (label g2))%nat as Hlt2.
  { destruct Hwf1 as [Hl1 _ _], Hwf2 as [Hl2 _ _]. by rewrite Hl2, <- Hl1. }
  destruct (load_is_Some _ _ Hlt2) as [v2 Hv2]. rewrite Hv2. simpl.
  set (g2a := if negb (v2 =? pc g2) then incr_warning g2 else g2).
  assert (wf g2a ∧ label g2a = label g2 ∧ pc g2a = pc g2)
    as (Hwfa & Hla & Hpa).
  { unfold g2a. case_match; [| done]. by split; [apply wf_incr_warning |]. }
  rewrite store_Some by by rewrite Hla.
  eexists. split_and!; [done | done |].
  split; simpl.
  - by apply wf_set_label.
  - rewrite Hla. destruct Hwfa. split; simpl; rewrite ?length_insert; try done.
    by rewrite Hla in *.
  - by rewrite Hpa.
  - intros n (v & Hv & Hne). unfold defined, load in *. simpl in *.
    rewrite Hla, Hpa, <- Hpc.
    destruct (decide (Z.to_nat (token_id p) = Z.to_nat n)) as [Heq | Hneq].
    + rewrite <- Heq in *. rewrite list_lookup_insert_eq in * by done.
      eauto.
    + rewrite list_lookup_insert_ne in * by done. apply Hle. by exists v.
Qed.

Lemma sim_case_MNEMONIC g1 l1 g2 l2 p f1 :
  sim_state g1 g2 → sim_vars l1 l2 →
  parser_state l1 ≠ OPERAND → parser_state l1 ≠ COMMENT →
  parser_state l1 = parser_state l2 →
  case_MNEMONIC false g1 l1 p = Some f1 →
  match f1 with
  | Next g1' l1' =>
      ∃ g2' l2', case_MNEMONIC true g2 l2 p = Some (Next g2' l2')
                 ∧ sim_state g1' g2' ∧ sim_vars l1' l2'
                 ∧ parser_state l1' = parser_state l2'
  | PrintListing g1' l1' =>
      case_MNEMONIC true g2 l2 p = Some (PrintListing g2 l2)
  | SyntaxError _ _ => True
  end.
Proof.
  intros [Hwf1 Hwf2 Hpc Hle] [Hoc Hty Hnm Hnamed Hlab Hst] Hs1 Hs2 Hs H.
  destruct Hst as [[_ Hop] | [? _]]; [| done].
  destruct (Hop Hs2) as [Hop1 Hop2]. clear Hop.
  unfold case_MNEMONIC in *. destruct (first_is ";" p).
  { by simplify_eq. }
  destruct (find_token p) as [t|] eqn:Hf.
  - simpl in *.
    assert (∀ g, wf g → ∃ r,
      (if tk_code t <? ORG then store (rom g) (pc g) (Z.shiftl (tk_code t) 8)
       else Some (rom g)) = Some r ∧ wf (set_rom r g)) as Hrom.
    { intros g Hwf. case_match.
      - rewrite store_Some by by apply wf_pc_index.
        eexists. split; [done |]. by apply wf_set_rom.
      - eexists. split; [done |]. by destruct Hwf. }
    destruct (Hrom _ Hwf1) as (r1 & Hr1 & Hwf1').
    destruct (Hrom _ Hwf2) as (r2 & -> & Hwf2').
    rewrite Hr1 in H. simpl in H. simplify_eq.
    eexists _, _. split_and!; [done | | | done].
    + by split.
    + apply find_token_inv in Hf as [Hin _].
      split; simpl; try done.
      * intros [= Hty']. by apply token_LAB_not_ORG.
      * left. split; [done |]. intros _. by split.
  - simpl in H. destruct (name l1) eqn:Hn1; simpl in H; [| by simplify_eq].
    rewrite <- Hoc.
    assert (∀ g, wf g → ∃ r,
      (if opcode l1 <? ORG then store (rom g) (pc g) (Z.shiftl (opcode l1) 8)
       else Some (rom g)) = Some r ∧ wf (set_rom r g)) as Hrom.
    { intros g Hwf. case_match.
      - rewrite store_Some by by apply wf_pc_index.
        eexists. split; [done |]. by apply wf_set_rom.
      - eexists. split; [done |]. by destruct Hwf. }
    destruct (Hrom _ Hwf1) as (r1 & Hr1 & Hwf1').
    destruct (Hrom _ Hwf2) as (r2 & -> & Hwf2').
    rewrite Hr1 in H. simpl in H. simplify_eq.
    eexists _, _. split_and!; [done | | | done].
    + by split.
    + split; simpl; try done; [by rewrite Hn1 |].
      left. split; [done |]. intros _. by split.
Qed.

Lemma set_operand_ok g l :
  wf g →
  ∃ r, set_operand g l
       = Some (Next (set_rom r g) (set_parser_state COMMENT l))
       ∧ wf (set_rom r g).
Proof.
  intros Hwf. unfold set_operand. case_match.
  - destruct (load_is_Some (rom g) (pc g)) as [w ->];
      [by apply wf_pc_index |].
    simpl. rewrite store_Some by by apply wf_pc_index. simpl.
    eexists. split; [done |]. by apply wf_set_rom.
  - simpl. eexists. split; [done |]. by destruct Hwf.
Qed.

Lemma sim_state_rom g1 g2 r1 r2 :
  sim_state g1 g2 → wf (set_rom r1 g1) → wf (set_rom r2 g2) →
  sim_state (set_rom r1 g1) (set_rom r2 g2).
Proof. intros [? ? ? ?] ? ?. by split. Qed.

Lemma sim_state_pc g1 g2 v :
  sim_state g1 g2 → sim_state (set_pc v g1) (set_pc v g2).
Proof. intros [? ? ? ?]. split; try done; by apply wf_set_pc. Qed.

Lemma sim_case_OPERAND g1 l1 g2 l2 p g1' l1' :
  sim_state g1 g2 → sim_vars l1 l2 →
  parser_state l1 = OPERAND → parser_state l2 = OPERAND →
  case_OPERAND false g1 l1 p = Some (Next g1' l1') →
  ∃ g2' l2', case_OPERAND true g2 l2 p = Some (Next g2' l2')
             ∧ sim_state g1' g2' ∧ sim_vars l1' l2'.
Proof.
  intros Hg [Hoc Hty Hnm Hnamed Hlab Hst] Hs1 Hs2 H.
  destruct Hst as [[_ Hop] | (_ & ? & _)]; [| congruence].
  destruct Hop as [Hop1 Hop2]; [congruence |].
  destruct l1 as [a1 b1 ty oc nm op1 st1], l2 as [a2 b2 ty2 oc2 nm2 op2 st2].
  simpl in *. subst. unfold case_OPERAND in *. simpl in *.
  destruct (first_is "$" p).
  - destruct (is_type LAB ty2) eqn:Hlabty; simpl in H; [| done].
    apply bool_decide_eq_true in Hlabty as ->.
    fold (token_id p) in *.
    destruct (token_id p =? INVALID); [done |].
    destruct (load (label g1) (token_id p)) as [v1|] eqn:Hv1; [| done].
    simpl in H.
    destruct (load_is_Some (label g2) (token_id p)) as [v2 Hv2].
    { apply load_inv in Hv1. destruct Hg as [[Hl1 _ _] [Hl2 _ _] _ _].
      by rewrite Hl2, <- Hl1. }
    rewrite Hv2. simpl.
    destruct (Z.eqb_spec v1 INVALID) as [-> | Hne1].
    + simplify_eq. destruct (v2 =? INVALID).
      * eexists _, _. split; [done |]. split.
        { destruct Hg as [? ? ? ?]. split; try done.
          by apply wf_incr_other_error. }
        split; simpl; try done. left. by split.
      * destruct (set_operand_ok g2 (set_operand_var v2
                    (set_olnum (token_id p) (Line a2 b2 (Some LAB) oc2 nm2 0
                                                  OPERAND))))
          as (r2 & -> & Hwf2); [by destruct Hg |].
        eexists _, _. split; [done |]. split.
        { destruct Hg as [? ? ? ?]. by split. }
        split; simpl; try done. by right.
    + destruct (Z.eqb_spec v2 INVALID) as [-> | Hne2].
      { destruct Hg as [_ _ _ Hle].
        destruct (Hle (token_id p)) as (v & Hv & Hne); [by exists v1 |].
        congruence. }
      destruct (set_operand_ok g1 (set_operand_var v1
                  (set_olnum (token_id p) (Line a1 b1 (Some LAB) oc2 nm2 0
                                                OPERAND))))
        as (r1 & Hr1 & Hwf1); [by destruct Hg |].
      rewrite Hr1 in H. simplify_eq.
      destruct (set_operand_ok g2 (set_operand_var v2
                  (set_olnum (token_id p) (Line a2 b2 (Some LAB) oc2 nm2 0
                                                OPERAND))))
        as (r2 & -> & Hwf2); [by destruct Hg |].
      eexists _, _. split; [done |]. split; [by apply sim_state_rom |].
      split; simpl; try done. left. by split.
  - set (opv := match find_indreg p with Some r => ir_code r | None => 0 end).
    assert (∀ a b, match find_indreg p with
                   | Some r => set_operand_var (ir_code r)
                                 (Line a b ty2 oc2 nm2 0 OPERAND)
                   | None => Line a b ty2 oc2 nm2 0 OPERAND
                   end = Line a b ty2 oc2 nm2 opv OPERAND) as Hl.
    { intros a b. unfold opv. by destruct (find_indreg p). }
    rewrite Hl in *. clearbody opv. clear Hl. simpl in *.
    destruct (negb (opv =? 0)).
    + destruct (negb (is_type REG ty2)); [done |].
      destruct (set_operand_ok g1 (Line a1 b1 ty2 oc2 nm2 opv OPERAND))
        as (r1 & Hr1 & Hwf1); [by destruct Hg |].
      rewrite Hr1 in H. simplify_eq.
      destruct (set_operand_ok g2 (Line a2 b2 ty2 oc2 nm2 opv OPERAND))
        as (r2 & -> & Hwf2); [by destruct Hg |].
      eexists _, _. split; [done |]. split; [by apply sim_state_rom |].
      split; simpl; try done. left. by split.
    + assert (∀ q, (parse_label q 16 2 255 =? INVALID) = false →
               ∃ g2' l2',
                 set_operand
                   (if oc2 =? ORG then set_pc (parse_label q 16 2 255) g2
                    else g2)
                   (set_operand_var (parse_label q 16 2 255)
                      (Line a2 b2 ty2 oc2 nm2 opv OPERAND))
                 = Some (Next g2' l2')
                 ∧ (set_operand
                      (if oc2 =? ORG then set_pc (parse_label q 16 2 255) g1
                       else g1)
                      (set_operand_var (parse_label q 16 2 255)
                         (Line a1 b1 ty2 oc2 nm2 opv OPERAND))
                    = Some (Next g1' l1') →
                    sim_state g1' g2' ∧ sim_vars l1' l2')) as Hnum.
      { intros q Hq.
        set (v := parse_label q 16 2 255) in *.
        assert (sim_state (if oc2 =? ORG then set_pc v g1 else g1)
                          (if oc2 =? ORG then set_pc v g2 else g2)) as Hg'.
        { destruct (oc2 =? ORG); [by apply sim_state_pc | done]. }
        destruct (set_operand_ok (if oc2 =? ORG then set_pc v g2 else g2)
                    (set_operand_var v (Line a2 b2 ty2 oc2 nm2 opv OPERAND)))
          as (r2 & -> & Hwf2); [by destruct Hg' |].
        destruct (set_operand_ok (if oc2 =? ORG then set_pc v g1 else g1)
                    (set_operand_var v (Line a1 b1 ty2 oc2 nm2 opv OPERAND)))
          as (r1 & -> & Hwf1); [by destruct Hg' |].
        eexists _, _. split; [done |]. intros [= <- <-].
        split; [by apply sim_state_rom |].
        split; simpl; try done. left. by split. }
      destruct (first_is "%" p).
      * destruct (negb (is_type REG ty2)); simpl in H; [done |].
        destruct (parse_label (str_tail p) 16 2 255 =? INVALID) eqn:Hq;
          [done |].
        destruct (Hnum _ Hq) as (g2' & l2' & -> & Hsim). eauto.
      * destruct (is_type REG ty2); simpl in H; [done |].
        destruct (parse_label p 16 2 255 =? INVALID) eqn:Hq; [done |].
        destruct (Hnum _ Hq) as (g2' & l2' & -> & Hsim). eauto.
Qed.

(** After an operand that the first pass could not resolve, the first
    pass reads further tokens as operands; they change neither the
    address counter nor the table. *)
Lemma pass1_operand_tail ps : ∀ g l g' l',
  wf g → reached_OPERAND (parser_state l) = true → opcode l ≠ ORG →
  token_loop false g l ps = Some (Listing g' l') →
  wf g' ∧ pc g' = pc g ∧ label g' = label g ∧ opcode l' = opcode l
  ∧ name l' = name l ∧ reached_OPERAND (parser_state l') = true.
Proof.
  induction ps as [|p ps IH]; intros g l g' l' Hwf Hst Hoc H; simpl in H.
  - by simplify_eq.
  - destruct (on_token false g l p) as [[g1 l1 | g1 l1 | m q] |] eqn:Ht;
      simplify_eq.
    + assert (wf g1 ∧ pc g1 = pc g ∧ label g1 = label g
              ∧ opcode l1 = opcode l ∧ name l1 = name l
              ∧ reached_OPERAND (parser_state l1) = true)
        as (Hwf1 & Hpc & Hlab & Hoc1 & Hnm & Hst1).
      { split; [by eapply on_token_next_wf |].
        apply Z.eqb_neq in Hoc. clear H IH.
        destruct l as [a b ty oc nm op st]. simpl in *.
        destruct st; try done; token_cases Ht; simpl in *; try done;
          congruence. }
      apply IH in H as (? & ? & ? & ? & ? & ?); [| done | done | congruence].
      split_and!; congruence.
    + by apply on_token_listing in Ht as [-> ->].
Qed.

Lemma sim_vars_end g1 l1 g2 l2 :
  sim_state g1 g2 → sim_vars l1 l2 → sim_end g1 l1 g2 l2.
Proof.
  intros Hg [Hoc Hty Hnm Hnamed Hlab Hst]. split_and!; try done.
  destruct Hst as [[-> _] | (-> & -> & _)]; done.
Qed.

Lemma sim_token_loop ps : ∀ g1 l1 g2 l2 g1' l1',
  sim_state g1 g2 → sim_vars l1 l2 →
  token_loop false g1 l1 ps = Some (Listing g1' l1') →
  ∃ g2' l2', token_loop true g2 l2 ps = Some (Listing g2' l2')
             ∧ sim_end g1' l1' g2' l2'.
Proof.
  induction ps as [|p ps IH]; intros g1 l1 g2 l2 g1' l1' Hg Hl H.
  { simpl in *. simplify_eq. eexists _, _. split; [done |].
    by apply sim_vars_end. }
  pose proof Hl as [Hoc Hty Hnm Hnamed Hlab Hst].
  destruct Hst as [[Hs Hop] | (Hs1 & Hs2 & Hlabty)].
  - simpl in *.
    destruct (on_token false g1 l1 p) as [[g1a l1a | g1a l1a | m q] |] eqn:Ht;
      simplify_eq.
    + assert (∃ g2a l2a, on_token true g2 l2 p = Some (Next g2a l2a)
                         ∧ sim_state g1a g2a ∧ sim_vars l1a l2a)
        as (g2a & l2a & -> & Hga & Hla).
      { clear IH H. unfold on_token in *.
        replace (parser_state l2) with (parser_state l1) by congruence.
        destruct (parser_state l1) eqn:Hs1.
        - destruct (first_is "$" p).
          + destruct (sim_case_LABEL _ _ _ l2 _ _ _ Hg Ht)
              as (g2a & -> & -> & Hga).
            eexists _, _. split_and!; [done | done |].
            split; simpl; try done. left. split; [done |].
            intros _. by apply Hop.
          + pose proof (sim_case_MNEMONIC _ _ _ _ p (Next g1a l1a) Hg Hl) as Hm.
            rewrite Hs1 in Hm. specialize (Hm ltac:(done) ltac:(done) Hs Ht).
            destruct Hm as (g2a & l2a & -> & ? & ? & _). eauto.
        - pose proof (sim_case_MNEMONIC _ _ _ _ p (Next g1a l1a) Hg Hl) as Hm.
          rewrite Hs1 in Hm. specialize (Hm ltac:(done) ltac:(done) Hs Ht).
          destruct Hm as (g2a & l2a & -> & ? & ? & _). eauto.
        - by eapply sim_case_OPERAND.
        - done. }
      by eapply IH.
    + apply on_token_listing in Ht as Heq. destruct Heq as [-> ->].
      assert (on_token true g2 l2 p = Some (PrintListing g2 l2)) as ->.
      { clear IH. unfold on_token in *.
        replace (parser_state l2) with (parser_state l1) by congruence.
        destruct (parser_state l1) eqn:Hs1.
        - destruct (first_is "$" p).
          + exfalso. clear -Ht. unfold case_LABEL in Ht.
            repeat (simplify_option_eq || case_match).
          + pose proof (sim_case_MNEMONIC _ _ _ _ p (PrintListing g1 l1) Hg Hl)
            as Hm.
            rewrite Hs1 in Hm. by specialize (Hm ltac:(done) ltac:(done) Hs Ht).
        - pose proof (sim_case_MNEMONIC _ _ _ _ p (PrintListing g1 l1) Hg Hl)
            as Hm.
          rewrite Hs1 in Hm. by specialize (Hm ltac:(done) ltac:(done) Hs Ht).
        - exfalso. clear -Ht. unfold case_OPERAND, set_operand in Ht.
          repeat (simplify_option_eq || case_match).
        - done. }
      eexists _, _. split; [done |]. by apply sim_vars_end.
  - assert (on_token true g2 l2 p = Some (PrintListing g2 l2)) as Hp2.
    { unfold on_token. by rewrite Hs2. }
    simpl. rewrite Hp2. eexists _, _. split; [done |].
    destruct Hg as [Hwf1 Hwf2 Hpc Hle].
    apply pass1_operand_tail in H
      as (Hwf1' & Hpc' & Hlab' & Hoc' & Hnm' & Hst');
      [| done | by rewrite Hs1 | by apply Hlab].
    split_and!.
    + split; try done; [congruence |].
      intros n. unfold defined. rewrite Hlab'. apply Hle.
    + congruence.
    + congruence.
    + by rewrite Hst', Hs2.
    + intros _. rewrite Hnm'. apply Hnamed. by rewrite Hs1.
Qed.

Lemma sim_vars_init : sim_vars line_init line_init.
Proof. split; simpl; try done. left. by split. Qed.

Lemma sim_asm_line line_buf g1 g2 g1' :
  sim_state g1 g2 → asm_line false g1 line_buf = Some g1' →
  syntax_error g1' = syntax_error g1 →
  ∃ g2', asm_line true g2 line_buf = Some g2' ∧ sim_state g1' g2'.
Proof.
  intros Hg H Hse. unfold asm_line in *.
  destruct (str_toupper line_buf) as [src|]; [simpl in * | done].
  destruct (token_loop false g1 line_init (strtok src)) as [e|] eqn:He;
    [simpl in H | done].
  pose proof (token_loop_inv _ _ _ _ _ (sim_wf1 _ _ Hg) He) as Hinv.
  destruct e as [g1a l1a | g1a m q]; destruct Hinv as [Hwf1a Hse1a].
  - destruct (sim_token_loop _ _ _ _ _ _ _ Hg sim_vars_init He)
      as (g2a & l2a & -> & Hga & Hoc & Hnm & Hst & Hnamed).
    simpl. unfold print_listing in *. rewrite <- Hst, <- Hnm, <- Hoc.
    destruct (reached_OPERAND (parser_state l1a)).
    + destruct (name l1a); [| done]. simplify_eq.
      eexists. split; [done |]. rewrite <- (sim_pc _ _ Hga).
      destruct (opcode l1a <? ORG); [by apply sim_state_pc | done].
    + simplify_eq. by eexists.
  - simplify_eq. simpl in Hse. lia.
Qed.

Lemma sim_pass lines : ∀ g1 g2 g1',
  sim_state g1 g2 → pass false g1 lines = Some g1' →
  syntax_error g1' = syntax_error g1 →
  ∃ g2', pass true g2 lines = Some g2' ∧ sim_state g1' g2'.
Proof.
  induction lines as [|x lines IH]; intros g1 g2 g1' Hg H Hse; simpl in *.
  - simplify_eq. by eexists.
  - destruct (asm_line false g1 x) as [g1a|] eqn:Hx; [simpl in H | done].
    pose proof (asm_line_inv _ _ _ _ (sim_wf1 _ _ Hg) Hx) as [Hwf1a ?].
    pose proof (pass_inv _ _ _ _ Hwf1a H) as [_ ?].
    destruct (sim_asm_line _ _ _ _ Hg Hx) as (g2a & -> & Hga); [lia |].
    simpl. apply (IH _ _ _ Hga H). lia.
Qed.

Lemma sim_state_start stack g1 :
  wf g1 → sim_state (set_pc 0 (init stack)) (set_pc 0 g1).
Proof.
  intros Hwf.
  split; try done; try by apply wf_set_pc, wf_init || apply wf_set_pc.
  intros n (v & Hv & Hne). unfold load, init, set_pc in Hv. cbn [label] in Hv.
  by apply lookup_replicate_1 in Hv as [-> _].
Qed.

(** After a first pass without syntax errors the second pass runs to its
    end, with the address counter of the first pass. *)
Lemma second_pass_total stack lines g1 :
  first_pass stack lines = Some g1 → syntax_error g1 = 0 →
  ∃ g2, second_pass g1 lines = Some g2 ∧ wf g2 ∧ syntax_error g2 = 0
        ∧ pc g2 = pc g1.
Proof.
  unfold first_pass, second_pass. intros H1 Hse.
  assert (wf (set_pc 0 (init stack))) as Hwf0 by apply wf_set_pc, wf_init.
  pose proof (pass_inv _ _ _ _ Hwf0 H1) as [Hwf1 _].
  destruct (sim_pass _ _ _ _ (sim_state_start stack g1 Hwf1) H1)
    as (g2 & H2 & Hg2); [done |].
  exists g2. split_and!; [done | by destruct Hg2 | | by destruct Hg2].
  rewrite (pass2_syntax_error _ _ _ (wf_set_pc 0 _ Hwf1) H2). done.
Qed.

(** ** The hex file *)

Lemma hexdump_total (r : list Z) :
  length r = Z.to_nat 256 → ∃ h, hexdump r = Some h.
Proof.
  intros Hlen. apply mapM_is_Some, Forall_seqZ. intros i Hi.
  unfold compose. apply mapM_is_Some, Forall_seqZ. intros j Hj.
  unfold compose.
  destruct (load_is_Some r (Z.shiftl i 4 + j)) as [v Hv]; [| by exists v].
  rewrite Z.shiftl_mul_pow2 by lia. lia.
Qed.

Lemma hexdump_word (r : list Z) (h : list (list Z)) (a : Z) :
  hexdump r = Some h → 0 ≤ a < 256 → hex_word h a = load r a.
Proof.
  intros Hh Ha. apply mapM_Some_1 in Hh. unfold hex_word.
  assert (seqZ 0 16 !! Z.to_nat (a / 16) = Some (a / 16)) as Hi.
  { assert (0 ≤ a / 16 < 16).
    { split; [apply Z.div_pos | apply Z.div_lt_upper_bound]; lia. }
    apply lookup_seqZ. split; lia. }
  destruct (Forall2_lookup_l _ _ _ _ _ Hh Hi) as (row & -> & Hrow). simpl.
  apply mapM_Some_1 in Hrow.
  assert (seqZ 0 16 !! Z.to_nat (a mod 16) = Some (a mod 16)) as Hj.
  { pose proof (Z.mod_pos_bound a 16 eq_refl).
    apply lookup_seqZ. split; lia. }
  destruct (Forall2_lookup_l _ _ _ _ _ Hrow Hj) as (w & -> & <-).
  f_equal. rewrite Z.shiftl_mul_pow2 by lia.
  pose proof (Z.div_mod a 16). lia.
Qed.

(** ** The state after the first pass *)

Lemma first_pass_inv stack lines g1 :
  first_pass stack lines = Some g1 → wf g1 ∧ 0 ≤ syntax_error g1.
Proof.
  intros H. unfold first_pass in H.
  apply pass_inv in H as [? ?]; [done | apply wf_set_pc, wf_init].
Qed.


(** ** The memory image and the stack *)

Lemma source_lines_empty : source_lines EmptyString = [].
Proof. reflexivity. Qed.

Lemma load_init_rom (stack : Z → Z) (a : Z) :
  0 ≤ a < 256 → load (rom (init stack)) a = Some (stack a mod UINT_MOD).
Proof.
  intros Ha. unfold load, init. cbn [rom].
  rewrite list_lookup_fmap.
  rewrite (lookup_seqZ_lt 0 256 (Z.to_nat a)) by lia.
  replace (0 + Z.of_nat (Z.to_nat a)) with a by lia. done.
Qed.

(** With nothing to assemble, every word of the hex file is the word
    that the stack held where [rom] is. *)
Lemma image_of_empty_source (stack : Z → Z) (a : Z) :
  0 ≤ a < 256 →
  image_word (main 4 stack EmptyString) a = Some (stack a mod UINT_MOD).
Proof.
  intros Ha. unfold main. rewrite source_lines_empty.
  destruct (hexdump_total (rom (init stack))) as [h Hh].
  { apply wf_init. }
  cbn [negb Z.eqb first_pass second_pass pass mbind option_bind
       set_pc init syntax_error rom Pos.eqb].
  change (hexdump _) with (hexdump (rom (init stack))). rewrite Hh.
  cbn [Z.ltb Z.compare mbind option_bind image_word hex_file].
  rewrite (hexdump_word _ _ _ Hh Ha). by apply load_init_rom.
Qed.

(** ** Duplicate labels *)

(** C3. In the second pass every declaration stores the address counter
    again, also after the warning. For [$1 ADI 00] / [JMP $1] /
    [$1 ADI 01] the jump gets address 0, the first declaration, and not
    address 2, the last; and the two declarations give two warnings. *)
Theorem duplicate_label_overwritten :
  let r := main 4 zero_stack (file_of ["$1 ADI 00"; "JMP $1"; "$1 ADI 01"]) in
  image_word r 1 = Some 0xB00
  ∧ warnings <$> r = Some 2
  ∧ exit_status <$> r = Some 0.
Proof. split_and!; vm_compute; reflexivity. Qed.

(** ** Letter case *)

(** C4. [str_toupper] leaves a line as it is, so lower-case source is
    not recognised: [ldi 05] is a syntax error with no image, while
    [LDI 05] assembles to 0xD05. *)
Theorem lower_case_rejected :
  str_toupper "ldi 05" = Some "ldi 05"
  ∧ main 4 zero_stack (file_of ["ldi 05"]) = Some (Outcome 1 1 None 0 0)
  ∧ exit_status <$> main 4 zero_stack (file_of ["LDI 05"]) = Some 0
  ∧ image_word (main 4 zero_stack (file_of ["LDI 05"])) 0 = Some 0xD05.
Proof. split_and!; vm_compute; reflexivity. Qed.

(** ** Mnemonic lookup *)

(** C6. The lookup compares three bytes only: [ANAX] is found as [ANA],
    and the line [ANAX %10] assembles to the word 0x010 with no syntax
    error. *)
Theorem mnemonic_prefix_accepted :
  find_token "ANAX" = Some (Token "ANA" 0x0 REG)
  ∧ exit_status <$> main 4 zero_stack (file_of ["ANAX %10"]) = Some 0
  ∧ image_word (main 4 zero_stack (file_of ["ANAX %10"])) 0 = Some 0x010.
Proof. split_and!; vm_compute; reflexivity. Qed.

(** ** Indexed addressing *)

(** C7. The table [indreg] spells the pre-decrement form on IY as
    [@-YY]: the operand [@-IY] is not found and the line [LDA @-IY] is a
    syntax error, while [LDA @-YY] assembles to 0xCFF. *)
Theorem predecrement_iy_rejected :
  find_indreg "@-IY" = None
  ∧ main 4 zero_stack (file_of ["LDA @-IY"]) = Some (Outcome 1 1 None 0 0)
  ∧ image_word (main 4 zero_stack (file_of ["LDA @-YY"])) 0 = Some 0xCFF.
Proof. split_and!; vm_compute; reflexivity. Qed.

(** ** Label tokens *)

Lemma is_dec_facts (c : ascii) :
  is_dec c = true →
  isspace c = false ∧ digit_val c = Some (char_code c - 48)
  ∧ 0 ≤ char_code c - 48 < 10
  ∧ Ascii.eqb c "+" = false ∧ Ascii.eqb c "-" = false.
Proof.
  unfold is_dec, isspace, digit_val. intros [H1 H2]%andb_prop.
  rewrite H1, H2. simpl. apply Z.leb_le in H1, H2. split_and!; try done.
  - destruct (Z.eqb_spec (char_code c) 32); [lia |]. simpl.
    destruct (Z.leb_spec (char_code c) 13); [lia |]. apply andb_false_r.
  - lia.
  - lia.
  - apply Ascii.eqb_neq. intros ->. vm_compute in H1. done.
  - apply Ascii.eqb_neq. intros ->. vm_compute in H1. done.
Qed.

Lemma scan_digits_dec (s : string) : ∀ acc,
  all_dec s = true →
  scan_digits 10 s acc = (dec_value_from acc s, String.length s).
Proof.
  induction s as [|c s IH]; intros acc H; simpl in *; [done |].
  apply andb_prop in H as [Hc Hs].
  destruct (is_dec_facts c Hc) as (_ & -> & Hd & _).
  destruct (Z.ltb_spec (char_code c - 48) 10); [| lia].
  by rewrite (IH _ Hs).
Qed.

Lemma dec_value_from_bound (s : string) : ∀ acc,
  all_dec s = true → 0 ≤ acc →
  0 ≤ dec_value_from acc s < (acc + 1) * 10 ^ Z.of_nat (String.length s).
Proof.
  induction s as [|c s IH]; intros acc H Hacc; simpl String.length;
    simpl dec_value_from.
  - simpl. lia.
  - simpl in H. apply andb_prop in H as [Hc Hs].
    destruct (is_dec_facts c Hc) as (_ & _ & Hd & _).
    specialize (IH (acc * 10 + (char_code c - 48)) Hs ltac:(lia)).
    rewrite Nat2Z.inj_succ, Z.pow_succ_r by lia.
    assert (0 < 10 ^ Z.of_nat (String.length s))
      by (apply Z.pow_pos_nonneg; lia).
    nia.
Qed.

Lemma strtoul_dec (s : string) :
  all_dec s = true → (1 ≤ String.length s)%nat →
  dec_value s ≤ ULONG_MAX →
  strtoul s 10 = (dec_value s, String.length s).
Proof.
  intros Hs Hlen Hmax. destruct s as [|c s]; [simpl in Hlen; lia |].
  pose proof Hs as Hs'. simpl in Hs'. apply andb_prop in Hs' as [Hc _].
  destruct (is_dec_facts c Hc) as (Hsp & _ & _ & Hplus & Hminus).
  unfold strtoul. cbn [span_space]. rewrite Hsp. cbn [str_drop sign_of].
  rewrite Hplus, Hminus. cbn [str_drop].
  change (hex_prefix 10 (String c s)) with 0%nat. cbn [str_drop].
  rewrite (scan_digits_dec _ 0 Hs). fold (dec_value (String c s)).
  simpl String.length.
  destruct (Z.ltb_spec ULONG_MAX (dec_value (String c s))); [lia | done].
Qed.

Lemma parse_label_plain (s : string) :
  plain_decimal s = true →
  parse_label s 10 4 9999 = dec_value s ∧ 0 ≤ dec_value s ≤ 9999.
Proof.
  unfold plain_decimal. intros [[Hs H1]%andb_prop H4]%andb_prop.
  apply Nat.leb_le in H1, H4.
  pose proof (dec_value_from_bound s 0 Hs ltac:(lia)) as Hb.
  fold (dec_value s) in Hb.
  assert (10 ^ Z.of_nat (String.length s) ≤ 10 ^ 4) as Hp
    by (apply Z.pow_le_mono_r; lia).
  assert (0 ≤ dec_value s ≤ 9999) as Hv by lia.
  split; [| done]. unfold parse_label.
  rewrite strtoul_dec by (try done; unfold ULONG_MAX; lia).
  rewrite Z.mod_small by (unfold UINT_MOD; lia).
  destruct (Z.leb_spec (dec_value s) 9999); [| lia].
  destruct (Z.leb_spec (Z.of_nat (String.length s)) 4); [| lia].
  by rewrite Nat.eqb_refl.
Qed.

Lemma parse_label_plus (s : string) :
  all_dec s = true → (1 ≤ String.length s ≤ 3)%nat →
  parse_label (String "+" s) 10 4 9999 = dec_value s.
Proof.
  intros Hs Hlen.
  pose proof (dec_value_from_bound s 0 Hs ltac:(lia)) as Hb.
  fold (dec_value s) in Hb.
  assert (10 ^ Z.of_nat (String.length s) ≤ 10 ^ 3) as Hp
    by (apply Z.pow_le_mono_r; lia).
  unfold parse_label, strtoul. cbn [span_space].
  change (isspace "+") with false. cbv iota. cbn [str_drop sign_of].
  change (Ascii.eqb "+" "+") with true. cbv iota. cbn [str_drop].
  change (hex_prefix 10 s) with 0%nat. cbn [str_drop].
  rewrite (scan_digits_dec _ 0 Hs). fold (dec_value s).
  destruct (String.length s) as [|n] eqn:Hn; [lia |].
  destruct (Z.ltb_spec ULONG_MAX (dec_value s)); [unfold ULONG_MAX in *; lia |].
  rewrite Z.mod_small by (unfold UINT_MOD; lia).
  destruct (Z.leb_spec (dec_value s) 9999); [| lia].
  simpl String.length. rewrite Hn.
  destruct (Z.leb_spec (Z.of_nat (0 + 1 + 0 + S n)) 4); [| lia].
  simpl. by rewrite Nat.eqb_refl.
Qed.

Lemma parse_label_too_long (s : string) (base max_val : Z) :
  (4 < String.length s)%nat → parse_label s base 4 max_val = INVALID.
Proof.
  intros Hlen. unfold parse_label. destruct (strtoul s base) as [v used].
  destruct (Nat.eqb_spec used (String.length s)) as [-> | _].
  - destruct (Z.leb_spec (Z.of_nat (String.length s)) 4); [lia |].
    by rewrite andb_false_r.
  - by rewrite andb_false_r.
Qed.

Lemma span_label_char_le (s : string) :
  (span_label_char s ≤ String.length s)%nat.
Proof. induction s as [|c s IH]; simpl; [| destruct (label_char c)]; lia. Qed.

Lemma span_label_char_lt (s : string) :
  all_label_char s = false → (span_label_char s < String.length s)%nat.
Proof.
  induction s as [|c s IH]; simpl; [done |].
  destruct (label_char c); simpl; [| lia]. intros H. apply IH in H. lia.
Qed.

Lemma span_space_label_char (s : string) :
  (span_space s + span_label_char (str_drop (span_space s) s)
   ≤ span_label_char s)%nat.
Proof.
  induction s as [|c s IH]; simpl; [done |].
  destruct (isspace c) eqn:Hsp; simpl; [| done].
  unfold label_char. rewrite Hsp, orb_true_r. simpl. lia.
Qed.

Lemma sign_of_label_char (s : string) :
  (fst (sign_of s) + span_label_char (str_drop (fst (sign_of s)) s)
   ≤ span_label_char s)%nat.
Proof.
  destruct s as [|c s]; simpl; [done |].
  destruct (Ascii.eqb c "+") eqn:Hp; simpl.
  { unfold label_char. rewrite Hp, orb_true_r. simpl. lia. }
  destruct (Ascii.eqb c "-") eqn:Hm; simpl; [| done].
  unfold label_char. rewrite Hm, orb_true_r. simpl. lia.
Qed.

Lemma digit_val_dec (c : ascii) (d : Z) :
  digit_val c = Some d → d < 10 → is_dec c = true.
Proof.
  unfold digit_val, is_dec. intros H Hd.
  destruct ((48 <=? char_code c) && (char_code c <=? 57)); [done |].
  repeat case_match; simplify_eq;
    repeat match goal with
           | H : _ && _ = true |- _ => apply andb_prop in H as [?%Z.leb_le _]
           end; lia.
Qed.

Lemma scan_digits_label_char (s : string) : ∀ acc,
  (snd (scan_digits 10 s acc) ≤ span_label_char s)%nat.
Proof.
  induction s as [|c s IH]; intros acc; simpl; [done |].
  destruct (digit_val c) as [d|] eqn:Hd; simpl; [| lia].
  destruct (Z.ltb_spec d 10); simpl; [| lia].
  unfold label_char. rewrite (digit_val_dec _ _ Hd) by done. simpl.
  specialize (IH (acc * 10 + d)).
  destruct (scan_digits 10 s (acc * 10 + d)). simpl in *. lia.
Qed.

(** In base 10 [strtoul] uses only white space, a sign and digits. *)
Lemma strtoul_used (s : string) :
  (snd (strtoul s 10) ≤ span_label_char s)%nat.
Proof.
  unfold strtoul.
  pose proof (span_space_label_char s) as H1.
  pose proof (sign_of_label_char (str_drop (span_space s) s)) as H2.
  destruct (sign_of (str_drop (span_space s) s)) as [sg neg]. simpl in H2.
  change (hex_prefix 10 ?x) with 0%nat. cbn [str_drop].
  pose proof (scan_digits_label_char
                (str_drop sg (str_drop (span_space s) s)) 0) as H3.
  destruct (scan_digits 10 (str_drop sg (str_drop (span_space s) s)) 0)
    as [v n].
  destruct n; simpl in *; lia.
Qed.

Lemma parse_label_other_char (s : string) (max_width max_val : Z) :
  all_label_char s = false → parse_label s 10 max_width max_val = INVALID.
Proof.
  intros H%span_label_char_lt. unfold parse_label.
  pose proof (strtoul_used s) as Hu.
  destruct (strtoul s 10) as [v used]. simpl in Hu.
  destruct (Nat.eqb_spec used (String.length s)); [lia |].
  by rewrite andb_false_r.
Qed.

Lemma scan_digits_all (s : string) : ∀ acc,
  snd (scan_digits 10 s acc) = String.length s → all_dec s = true.
Proof.
  induction s as [|c s IH]; intros acc; simpl; [done |].
  destruct (digit_val c) as [d|] eqn:Hd; simpl; [| done].
  destruct (Z.ltb_spec d 10); simpl; [| done].
  rewrite (digit_val_dec _ _ Hd) by done. simpl.
  specialize (IH (acc * 10 + d)).
  destruct (scan_digits 10 s (acc * 10 + d)). simpl in *.
  intros [= Hn]. by apply IH.
Qed.

Lemma digit_then_other_dec (s : string) :
  all_dec s = true → digit_then_other s = false.
Proof.
  induction s as [|c s IH]; simpl; [done |].
  intros [Hc Hs]%andb_prop. destruct s as [|c' s]; [done |].
  rewrite (IH Hs). simpl in Hs. apply andb_prop in Hs as [-> _].
  by rewrite andb_false_r.
Qed.

Lemma digit_then_other_skip (c : ascii) (s : string) :
  is_dec c = false → digit_then_other (String c s) = digit_then_other s.
Proof. intros Hc. simpl. rewrite Hc. by destruct s. Qed.

Lemma isspace_not_dec (c : ascii) : isspace c = true → is_dec c = false.
Proof.
  intros Hsp. destruct (is_dec c) eqn:Hc; [| done].
  destruct (is_dec_facts c Hc) as [Hsp' _]. congruence.
Qed.

Lemma span_space_drop (s : string) :
  digit_then_other (str_drop (span_space s) s) = digit_then_other s
  ∧ (String.length (str_drop (span_space s) s) + span_space s
     = String.length s)%nat.
Proof.
  induction s as [|c s [IH1 IH2]]; [done |]. cbn [span_space].
  destruct (isspace c) eqn:Hsp; [| simpl; split; [done | lia]].
  cbn [str_drop String.length].
  rewrite (digit_then_other_skip c s (isspace_not_dec _ Hsp)).
  split; [done | lia].
Qed.

Lemma sign_of_drop (s : string) :
  digit_then_other (str_drop (fst (sign_of s)) s) = digit_then_other s
  ∧ (String.length (str_drop (fst (sign_of s)) s) + fst (sign_of s)
     = String.length s)%nat.
Proof.
  destruct s as [|c s]; [done |]. unfold sign_of.
  assert (∀ x, Ascii.eqb c x = true → is_dec x = false → is_dec c = false)
    as Hx by (by intros x ->%Ascii.eqb_eq).
  destruct (Ascii.eqb c "+") eqn:Hp.
  { cbn [fst str_drop String.length].
    rewrite (digit_then_other_skip c s (Hx _ Hp eq_refl)).
    split; [done | lia]. }
  destruct (Ascii.eqb c "-") eqn:Hm.
  { cbn [fst str_drop String.length].
    rewrite (digit_then_other_skip c s (Hx _ Hm eq_refl)).
    split; [done | lia]. }
  simpl. split; [done | lia].
Qed.

Lemma parse_label_digit_then_other (s : string) (max_width max_val : Z) :
  digit_then_other s = true → parse_label s 10 max_width max_val = INVALID.
Proof.
  intros H. unfold parse_label, strtoul.
  destruct (span_space_drop s) as [Hd1 Hl1].
  destruct (sign_of_drop (str_drop (span_space s) s)) as [Hd2 Hl2].
  destruct (sign_of (str_drop (span_space s) s)) as [sg neg].
  cbn [fst] in Hd2, Hl2. change (hex_prefix 10 ?x) with 0%nat.
  cbn [str_drop].
  pose proof (scan_digits_all (str_drop sg (str_drop (span_space s) s)) 0)
    as Hall.
  destruct (scan_digits 10 (str_drop sg (str_drop (span_space s) s)) 0)
    as [v n]. cbn [snd] in Hall.
  destruct n as [|n].
  - destruct s as [|c s]; [done |]. simpl. by rewrite !andb_false_r.
  - destruct (Nat.eqb_spec (span_space s + sg + 0 + S n) (String.length s))
      as [Heq | _]; [| by rewrite andb_false_r].
    rewrite (digit_then_other_dec _ (Hall ltac:(lia))) in Hd2. congruence.
Qed.

Lemma parse_label_minus_sign (s : string) :
  all_dec s = true → dec_value s ≠ 0 →
  parse_label (String "-" s) 10 4 9999 = INVALID.
Proof.
  intros Hs Hv.
  destruct (le_gt_dec (String.length s) 3) as [Hlen | Hlen];
    [| apply parse_label_too_long; simpl; lia].
  pose proof (dec_value_from_bound s 0 Hs ltac:(lia)) as Hb.
  fold (dec_value s) in Hb.
  assert (10 ^ Z.of_nat (String.length s) ≤ 10 ^ 3) as Hp
    by (apply Z.pow_le_mono_r; lia).
  unfold parse_label, strtoul. cbn [span_space].
  change (isspace "-") with false. cbv iota. cbn [str_drop sign_of].
  change (Ascii.eqb "-" "+") with false. change (Ascii.eqb "-" "-") with true.
  cbv iota. cbn [str_drop]. change (hex_prefix 10 s) with 0%nat.
  cbn [str_drop]. rewrite (scan_digits_dec _ 0 Hs). fold (dec_value s).
  destruct (String.length s) as [|n] eqn:Hn.
  { destruct s; [done | simpl in Hn; lia]. }
  destruct (Z.ltb_spec ULONG_MAX (dec_value s)); [unfold ULONG_MAX in *; lia |].
  assert ((- dec_value s) mod (ULONG_MAX + 1) mod UINT_MOD
          = UINT_MOD - dec_value s) as ->.
  { unfold ULONG_MAX, UINT_MOD.
    change (2 ^ 64 - 1 + 1) with 18446744073709551616.
    change (2 ^ 32) with 4294967296.
    change (10 ^ 3) with 1000 in Hp. Z.div_mod_to_equations. lia. }
  destruct (Z.leb_spec (UINT_MOD - dec_value s) 9999); [| done].
  unfold UINT_MOD in *. lia.
Qed.

Lemma invalid_label_syntax_error (g : asm_state) (line_buf s : string)
    (rest : list string) :
  strtok line_buf = String "$" s :: rest →
  parse_label s 10 4 9999 = INVALID →
  asm_line false g line_buf = Some (incr_syntax_error g).
Proof.
  intros Htok Hinv. unfold asm_line.
  rewrite strtok_nonempty by by rewrite Htok.
  simpl. rewrite Htok. simpl. unfold on_token, case_LABEL. simpl.
  by rewrite Hinv.
Qed.

(** C9, as the program has it. The text after the marker is read by
    [strtoul] in base 10 within a width of 4 characters. 1 to 4 decimal
    digits are accepted with their value, which is at most 9999; digits
    after a [+] sign are accepted too when sign and digits fit the 4
    characters. The text gives [INVALID] when it has more than 4
    characters, when it has a character that is not a digit, a sign or
    white space, when a digit is followed by another character, and when
    it is a [-] sign before digits of a number that is not 0. A
    declaration that gives [INVALID] is a syntax error of the first
    pass: the line adds 1 to the count and changes nothing else. *)
Theorem label_token (s : string) :
  (plain_decimal s = true →
     parse_label s 10 4 9999 = dec_value s ∧ 0 ≤ dec_value s ≤ 9999)
  ∧ (all_dec s = true → (1 ≤ String.length s ≤ 3)%nat →
     parse_label (String "+" s) 10 4 9999 = dec_value s)
  ∧ ((4 < String.length s)%nat → parse_label s 10 4 9999 = INVALID)
  ∧ (all_label_char s = false → parse_label s 10 4 9999 = INVALID)
  ∧ (digit_then_other s = true → parse_label s 10 4 9999 = INVALID)
  ∧ (all_dec s = true → dec_value s ≠ 0 →
     parse_label (String "-" s) 10 4 9999 = INVALID)
  ∧ (parse_label s 10 4 9999 = INVALID →
     ∀ g line_buf rest,
       strtok line_buf = String "$" s :: rest →
       asm_line false g line_buf = Some (incr_syntax_error g)).
Proof.
  split_and!.
  - apply parse_label_plain.
  - apply parse_label_plus.
  - apply parse_label_too_long.
  - apply parse_label_other_char.
  - apply parse_label_digit_then_other.
  - apply parse_label_minus_sign.
  - intros Hinv g line_buf rest Htok. by eapply invalid_label_syntax_error.
Qed.

Lemma label_token_witness :
  parse_label "0042" 10 4 9999 = 42
  ∧ parse_label "+01" 10 4 9999 = 1
  ∧ parse_label "12345" 10 4 9999 = INVALID
  ∧ parse_label "1A" 10 4 9999 = INVALID
  ∧ parse_label "1+" 10 4 9999 = INVALID
  ∧ parse_label "-1" 10 4 9999 = INVALID
  ∧ asm_line false (init zero_stack) "$1A LDI 05"
    = Some (incr_syntax_error (init zero_stack)).
Proof.
  split_and!.
  - destruct (label_token "0042") as (H & _). apply H. reflexivity.
  - destruct (label_token "01") as (_ & H & _).
    apply H; [reflexivity | simpl; lia].
  - destruct (label_token "12345") as (_ & _ & H & _). apply H. simpl. lia.
  - destruct (label_token "1A") as (_ & _ & _ & H & _). apply H. reflexivity.
  - destruct (label_token "1+") as (_ & _ & _ & _ & H & _).
    apply H. reflexivity.
  - destruct (label_token "1") as (_ & _ & _ & _ & _ & H & _).
    apply H; [reflexivity | discriminate].
  - destruct (label_token "1A") as (_ & _ & _ & _ & _ & _ & H).
    apply (H eq_refl (init zero_stack) "$1A LDI 05" ["LDI"; "05"]).
    reflexivity.
Defined.

(** The claim as the specification words it, accepted exactly when the
    marker is followed by 1 to 4 decimal digits, fails on the token
    [$+01]: the text [+01] is not 1 to 4 decimal digits, and the program
    takes the token as a declaration of label 1 without a syntax error. *)
Lemma label_plus_sign_accepted :
  ¬ (parse_label "+01" 10 4 9999 ≠ INVALID ↔ plain_decimal "+01" = true)
  ∧ plain_decimal "+01" = false
  ∧ parse_label "+01" 10 4 9999 = 1
  ∧ declared_id "$+01 ADI 00" = Some 1
  ∧ syntax_error <$> first_pass zero_stack ["$+01 ADI 00"] = Some 0.
Proof.
  split_and!; try (vm_compute; reflexivity).
  intros [H _]. by specialize (H ltac:(by vm_compute)).
Qed.

(** ** References to labels *)

Lemma asm_line_unfold sp g line_buf :
  strtok line_buf ≠ [] →
  asm_line sp g line_buf
  = e ← token_loop sp g line_init (strtok line_buf); line_result e.
Proof.
  intros H. unfold asm_line. rewrite strtok_nonempty by done. simpl.
  by destruct (token_loop sp g line_init (strtok line_buf)) as [[]|].
Qed.

(** The second pass on a mnemonic and a reference to a label that has an
    address: the word at the address counter is the opcode over the
    address, and no error is counted. *)
Lemma resolve_reference g l m d rest t a :
  wf g → parser_state l = LABEL ∨ parser_state l = MNEMONIC →
  find_token m = Some t → tk_code t < ORG →
  load (label g) (parse_label d 10 4 9999) = Some a → a ≠ INVALID →
  ∃ g',
    (e ← token_loop true g l (m :: String "$" d :: rest); line_result e)
    = Some g'
    ∧ load (rom g') (pc g) = Some (Z.lor (Z.shiftl (tk_code t) 8) a)
    ∧ other_error g' = other_error g
    ∧ warning g' = warning g
    ∧ label g' = label g
    ∧ pc g' = (pc g + 1) mod 256.
Proof.
  intros Hwf Hst Hf Hcode Ha Hne.
  destruct (find_token_first _ _ Hf) as [Hd Hc].
  assert (on_token true g l m = case_MNEMONIC true g l m) as Hm.
  { unfold on_token. destruct Hst as [-> | ->]; [by rewrite Hd | done]. }
  cbn [token_loop]. rewrite Hm, (case_MNEMONIC_found _ _ _ _ _ Hwf Hf).
  apply Z.ltb_lt in Hcode as Hlt. rewrite Hlt.
  set (g1 := set_rom _ g). set (l1 := set_parser_state OPERAND _).
  assert (on_token true g1 l1 (String "$" d)
          = set_operand g1 (set_operand_var a
                              (set_olnum (parse_label d 10 4 9999) l1)))
    as ->.
  { unfold on_token, case_OPERAND. cbn [parser_state l1 set_parser_state
      first_is Ascii.eqb negb andb str_tail].
    change (Ascii.eqb "$" "$") with true. cbv iota.
    change (label g1) with (label g). rewrite Ha. simpl.
    by apply Z.eqb_neq in Hne as ->. }
  unfold set_operand. cbn [opcode set_operand_var set_olnum l1
    set_parser_state set_token]. rewrite Hlt.
  assert (load (rom g1) (pc g1) = Some (Z.shiftl (tk_code t) 8)) as ->.
  { unfold load, g1. simpl. apply list_lookup_insert_eq.
    by apply wf_pc_index. }
  cbn [mbind option_bind]. rewrite store_Some
    by (unfold g1; simpl; rewrite length_insert; by apply wf_pc_index).
  cbn [mbind option_bind].
  set (g2 := set_rom _ g1). set (l2 := set_parser_state COMMENT _).
  assert (token_loop true g2 l2 rest = Some (Listing g2 l2)) as ->.
  { destruct rest; [done |]. reflexivity. }
  cbn [mbind option_bind line_result]. unfold print_listing.
  cbn [parser_state l2 set_parser_state reached_OPERAND name opcode
       set_operand_var set_olnum l1 set_token]. rewrite Hlt.
  eexists. split; [done |]. split_and!; try done.
  unfold load, g2, g1. simpl. rewrite list_insert_insert_eq.
  apply list_lookup_insert_eq. by apply wf_pc_index.
Qed.

Lemma pass_cons_inv sp g x lines g' :
  pass sp g (x :: lines) = Some g' →
  ∃ g1, asm_line sp g x = Some g1 ∧ pass sp g1 lines = Some g'.
Proof.
  simpl. destruct (asm_line sp g x) as [g1|]; [| done]. by exists g1.
Qed.

Lemma pass_app_inv sp g l1 l2 g' :
  pass sp g (l1 ++ l2) = Some g' →
  ∃ g1, pass sp g l1 = Some g1 ∧ pass sp g1 l2 = Some g'.
Proof.
  rewrite pass_app. destruct (pass sp g l1) as [g1|]; [| done]. by exists g1.
Qed.

Lemma token_LAB_instruction (t : token_t) :
  t ∈ token → tk_type t = LAB → tk_code t < ORG.
Proof.
  intros Hin Hty. pose proof (token_code_range _ Hin).
  pose proof (token_LAB_not_ORG _ Hin Hty). lia.
Qed.

Lemma on_token_declaration_pass2 g lab :
  first_is "$" lab = true →
  on_token true g line_init lab
  = v ← load (label g) (token_id lab);
    Some (Next (set_label (<[Z.to_nat (token_id lab) := pc g]> (label g))
                  (if negb (v =? pc g) then incr_warning g else g))
               (set_parser_state MNEMONIC (set_lnum (token_id lab) line_init))).
Proof.
  intros Hlab. unfold on_token, case_LABEL. fold (token_id lab).
  cbn [parser_state line_init negb andb]. rewrite Hlab.
  destruct (load (label g) (token_id lab)) as [v|] eqn:Hv; [| done].
  apply load_inv in Hv. cbn [mbind option_bind].
  by destruct (negb (v =? pc g)); rewrite store_Some by done.
Qed.

(** The line of a reference in the second pass, with or without a
    declaration of another label in front. *)
Lemma asm_line_reference g ref pfx m d rest t a id g' :
  wf g → strtok ref = pfx ++ m :: String "$" d :: rest →
  pfx = [] ∨ (∃ lab, pfx = [lab] ∧ first_is "$" lab = true) →
  declared_id ref ≠ Some id → 0 ≤ id →
  find_token m = Some t → tk_code t < ORG →
  parse_label d 10 4 9999 = id →
  load (label g) id = Some a → a ≠ INVALID →
  asm_line true g ref = Some g' →
  load (rom g') (pc g) = Some (Z.lor (Z.shiftl (tk_code t) 8) a)
  ∧ other_error g' = other_error g.
Proof.
  intros Hwf Htok Hpfx Hno Hid Hf Hcode Hd Ha Hne H.
  rewrite asm_line_unfold in H by (rewrite Htok; by destruct pfx).
  rewrite Htok in H. subst id.
  destruct Hpfx as [-> | (lab & -> & Hlab)].
  - destruct (resolve_reference g line_init m d rest t a Hwf
                ltac:(by left) Hf Hcode Ha Hne) as (g'' & Hg'' & Hrom & Hoe & _).
    simpl app in H. rewrite Hg'' in H. by simplify_eq.
  - unfold declared_id in Hno. rewrite Htok in Hno.
    cbn [app] in Hno, H. rewrite Hlab in Hno.
    cbn [token_loop] in H.
    rewrite (on_token_declaration_pass2 _ _ Hlab) in H.
    destruct (load (label g) (token_id lab)) as [v|] eqn:Hv; [| done].
    cbn [mbind option_bind] in H.
    set (g1 := if negb (v =? pc g) then incr_warning g else g) in *.
    assert (wf g1 ∧ pc g1 = pc g ∧ rom g1 = rom g
            ∧ other_error g1 = other_error g) as (Hwf1 & Hp1 & Hr1 & Ho1).
    { unfold g1. destruct (negb (v =? pc g)); [| done].
      by split; [apply wf_incr_warning |]. }
    apply load_inv in Hv as Hlt.
    assert (token_id lab ≠ INVALID) as Hvalid.
    { destruct Hwf as [Hlen _ _]. rewrite Hlen in Hlt. rewrite INVALID_eq.
      lia. }
    apply Z.eqb_neq in Hvalid as Hvalid'. rewrite Hvalid' in Hno.
    cbn [negb andb] in Hno.
    assert (0 ≤ token_id lab) as Hk.
    { unfold token_id.
      destruct (parse_label_bound (str_tail lab) 10 4 9999); [done | lia]. }
    set (g2 := set_label _ g1) in *.
    assert (load (label g2) (parse_label d 10 4 9999) = Some a) as Ha2.
    { unfold load, g2. cbn [label set_label].
      rewrite list_lookup_insert_ne; [done |].
      intros Heq. apply Hno. f_equal. lia. }
    destruct (resolve_reference g2
                (set_parser_state MNEMONIC (set_lnum (token_id lab) line_init))
                m d rest t a) as (g'' & Hg'' & Hrom & Hoe & _); try done.
    { unfold g2. destruct Hwf1. split; simpl; rewrite ?length_insert; try done.
      by destruct Hwf. }
    { by right. }
    cbn [token_loop] in Hg''. rewrite Hg'' in H. simplify_eq.
    change (pc g2) with (pc g1) in Hrom. rewrite Hp1 in Hrom.
    split; [done |]. rewrite Hoe. done.
Qed.

(** C2. A label is referenced by a label instruction on a line that no
    declaration of the label precedes, and declared further down; the
    last of its declarations is the line [decl]. When the first pass
    ends without a syntax error, the second pass runs to its end, it
    gives the reference the value that the address counter has at
    [decl], which is also the entry of the label after both passes, and
    it counts no error on the line of the reference. *)
Theorem forward_reference (stack : Z → Z) (pre mid post : list string)
    (ref decl : string) (g1 : asm_state) (id : Z) (pfx rest : list string)
    (m d : string) (t : token_t) :
  first_pass stack (pre ++ ref :: mid ++ decl :: post) = Some g1 →
  syntax_error g1 = 0 →
  Forall (fun ln => declared_id ln ≠ Some id) pre →
  declared_id ref ≠ Some id →
  declared_id decl = Some id →
  Forall (fun ln => declared_id ln ≠ Some id) post →
  strtok ref = pfx ++ m :: String "$" d :: rest →
  pfx = [] ∨ (∃ lab, pfx = [lab] ∧ first_is "$" lab = true) →
  find_token m = Some t → tk_type t = LAB →
  parse_label d 10 4 9999 = id →
  ∃ ga ga' gd g2,
    second_pass g1 pre = Some ga
    ∧ asm_line true ga ref = Some ga'
    ∧ pass true ga' mid = Some gd
    ∧ second_pass g1 (pre ++ ref :: mid ++ decl :: post) = Some g2
    ∧ load (rom ga') (pc ga) = Some (Z.lor (Z.shiftl (tk_code t) 8) (pc gd))
    ∧ other_error ga' = other_error ga
    ∧ load (label g1) id = Some (pc gd)
    ∧ load (label g2) id = Some (pc gd).
Proof.
  intros H1 Hse Hpre Href Hdecl Hpost Htok Hpfx Hf Hty Hd.
  pose proof (declared_id_range _ _ Hdecl) as Hid.
  unfold first_pass in H1.
  assert (wf (set_pc 0 (init stack))) as Hwf0 by apply wf_set_pc, wf_init.
  (* the states of the first pass *)
  apply pass_app_inv in H1 as (p1a & Hp1a & H1).
  apply pass_cons_inv in H1 as (p1b & Hp1b & H1).
  apply pass_app_inv in H1 as (p1c & Hp1c & H1).
  apply pass_cons_inv in H1 as (p1d & Hp1d & Hp1e).
  pose proof (pass_inv _ _ _ _ Hwf0 Hp1a) as [Hwa Hsa].
  pose proof (asm_line_inv _ _ _ _ Hwa Hp1b) as [Hwb Hsb].
  pose proof (pass_inv _ _ _ _ Hwb Hp1c) as [Hwc Hsc].
  pose proof (asm_line_inv _ _ _ _ Hwc Hp1d) as [Hwd Hsd].
  pose proof (pass_inv _ _ _ _ Hwd Hp1e) as [Hw1 Hs1].
  change (syntax_error (set_pc 0 (init stack))) with 0 in Hsa.
  (* the second pass follows *)
  destruct (sim_pass _ _ _ _ (sim_state_start stack g1 Hw1) Hp1a)
    as (ga & Hp2a & Hga); [simpl; lia |].
  destruct (sim_asm_line _ _ _ _ Hga Hp1b) as (ga' & Hp2b & Hgb); [lia |].
  destruct (sim_pass _ _ _ _ Hgb Hp1c) as (gd & Hp2c & Hgc); [lia |].
  destruct (sim_asm_line _ _ _ _ Hgc Hp1d) as (gd' & Hp2d & Hgd); [lia |].
  destruct (sim_pass _ _ _ _ Hgd Hp1e) as (g2 & Hp2e & Hg2); [lia |].
  (* the entry of the label *)
  assert (load (label g1) id = Some (pc gd)) as Hl1.
  { rewrite (pass_label_frame _ id _ _ _ (proj1 Hid) Hwd Hp1e Hpost).
    rewrite (asm_line_declares _ _ _ _ _ Hwc Hp1d Hdecl).
    by rewrite (sim_pc _ _ Hgc). }
  assert (load (label g2) id = Some (pc gd)) as Hl2.
  { rewrite (pass_label_frame _ id _ _ _ (proj1 Hid) (sim_wf2 _ _ Hgd)
               Hp2e Hpost).
    by rewrite (asm_line_declares _ _ _ _ _ (sim_wf2 _ _ Hgc) Hp2d Hdecl). }
  assert (load (label ga) id = Some (pc gd)) as Hla.
  { rewrite (pass_label_frame _ id _ _ _ (proj1 Hid) (wf_set_pc 0 _ Hw1)
               Hp2a Hpre). done. }
  assert (pc gd ≠ INVALID) as Hne.
  { pose proof (wf_pc _ (sim_wf2 _ _ Hgc)). rewrite INVALID_eq. lia. }
  assert (tk_code t < ORG) as Hcode.
  { apply find_token_inv in Hf as [Hin _]. by apply token_LAB_instruction. }
  exists ga, ga', gd, g2. split_and!; try done.
  - unfold second_pass. rewrite pass_app, Hp2a. simpl. rewrite Hp2b. simpl.
    rewrite pass_app, Hp2c. simpl. by rewrite Hp2d.
  - by destruct (asm_line_reference ga ref pfx m d rest t (pc gd) id ga'
                    (sim_wf2 _ _ Hga) Htok Hpfx Href (proj1 Hid) Hf Hcode Hd
                    Hla Hne Hp2b).
  - by destruct (asm_line_reference ga ref pfx m d rest t (pc gd) id ga'
                    (sim_wf2 _ _ Hga) Htok Hpfx Href (proj1 Hid) Hf Hcode Hd
                    Hla Hne Hp2b).
Qed.

Lemma forward_reference_witness :
  let pre := ["LDI 05"] in
  let mid := ["ADI 01"] in
  let post := ["$2 LDI 00"] in
  ∃ g1,
    first_pass zero_stack (pre ++ "JMP $1" :: mid ++ "$1 ADI 00" :: post)
    = Some g1
    ∧ syntax_error g1 = 0
    ∧ ∃ ga ga' gd g2,
        second_pass g1 pre = Some ga
        ∧ asm_line true ga "JMP $1" = Some ga'
        ∧ pass true ga' mid = Some gd
        ∧ second_pass g1 (pre ++ "JMP $1" :: mid ++ "$1 ADI 00" :: post)
          = Some g2
        ∧ load (rom ga') (pc ga) = Some (Z.lor (Z.shiftl 0xB 8) (pc gd))
        ∧ other_error ga' = other_error ga
        ∧ load (label g1) 1 = Some (pc gd)
        ∧ load (label g2) 1 = Some (pc gd).
Proof.
  intros pre mid post.
  assert (syntax_error <$> first_pass zero_stack
            (pre ++ "JMP $1" :: mid ++ "$1 ADI 00" :: post) = Some 0)
    as Hs by (vm_compute; reflexivity).
  destruct (first_pass zero_stack
              (pre ++ "JMP $1" :: mid ++ "$1 ADI 00" :: post))
    as [g1|] eqn:H1; [| discriminate Hs].
  injection Hs as Hs. exists g1. split; [reflexivity |]. split; [exact Hs |].
  apply (forward_reference zero_stack pre mid post "JMP $1" "$1 ADI 00" g1 1
           [] [] "JMP" "1" (Token "JMP" 0xB LAB) H1 Hs).
  - repeat constructor. vm_compute. congruence.
  - vm_compute. congruence.
  - reflexivity.
  - repeat constructor. vm_compute. congruence.
  - reflexivity.
  - left. reflexivity.
  - reflexivity.
  - reflexivity.
  - reflexivity.
Defined.

(** ** The first pass runs to its end *)


Lemma no_nul_app (s1 s2 : string) :
  no_nul s1 = true → no_nul s2 = true → no_nul (s1 +:+ s2) = true.
Proof.
  induction s1 as [|c s1 IH]; simpl; [done |].
  intros [-> Hs]%andb_prop H2. simpl. by apply IH.
Qed.









(** ** The check between the passes and the exit status *)



(** ** Words that no line targets *)

Lemma on_token_rom_frame sp g l p g' l' (a : Z) :
  wf g → 0 ≤ a → a ≠ pc g →
  on_token sp g l p = Some (Next g' l') →
  load (rom g') a = load (rom g) a
  ∧ (pc g' = pc g ∨ parser_state l' = COMMENT).
Proof.
  intros Hwf Ha Hne H. pose proof (wf_pc _ Hwf) as Hpc. unfold load.
  token_cases H; simpl; try (split; [done | by auto]).
  all: repeat match goal with
       | H : (_ =? _) = true |- _ => apply Z.eqb_eq in H
       | H : (_ <? _) = true |- _ => apply Z.ltb_lt in H
       end; try lia.
  all: split; [| by auto].
  all: apply list_lookup_insert_ne; lia.
Qed.

Lemma token_loop_rom_frame sp (a pc0 : Z) ps : ∀ g l e,
  wf g → 0 ≤ a → a ≠ pc0 →
  pc g = pc0 ∨ parser_state l = COMMENT →
  token_loop sp g l ps = Some e →
  match e with
  | Listing g' _ | Failed g' _ _ => load (rom g') a = load (rom g) a
  end.
Proof.
  induction ps as [|p ps IH]; intros g l e Hwf Ha Hne Hst H; simpl in H.
  - by simplify_eq.
  - destruct Hst as [Hpc | Hst].
    + destruct (on_token sp g l p) as [[g1 l1 | g1 l1 | m q] |] eqn:Ht;
        simplify_eq.
      * destruct (on_token_rom_frame _ _ _ _ _ _ a Hwf Ha Hne Ht) as [Hr Hst].
        apply IH in H; try done.
        -- destruct e; congruence.
        -- by eapply on_token_next_wf.
      * by apply on_token_listing in Ht as [-> ->].
      * done.
    + unfold on_token in H. rewrite Hst in H. by simplify_eq.
Qed.

Lemma asm_line_rom_frame sp g line_buf g' (a : Z) :
  wf g → 0 ≤ a → a ≠ pc g → asm_line sp g line_buf = Some g' →
  load (rom g') a = load (rom g) a.
Proof.
  intros Hwf Ha Hne H. unfold asm_line in H.
  destruct (str_toupper line_buf) as [src|]; [simpl in H | done].
  destruct (token_loop sp g line_init (strtok src)) as [e|] eqn:He;
    [simpl in H | done].
  pose proof (token_loop_inv _ _ _ _ _ Hwf He) as Hinv.
  apply (token_loop_rom_frame _ a (pc g)) in He; try done; [| by left].
  destruct e as [g1 l1 | g1 m q].
  - destruct Hinv as [Hwf1 _].
    apply print_listing_inv in H as (_ & _ & -> & _); done.
  - by simplify_eq.
Qed.

Lemma pass_rom_frame sp (a : Z) lines : ∀ g g',
  wf g → 0 ≤ a → a ∉ line_addresses sp g lines →
  pass sp g lines = Some g' →
  load (rom g') a = load (rom g) a.
Proof.
  induction lines as [|x lines IH]; intros g g' Hwf Ha Hnot H; simpl in *.
  - by simplify_eq.
  - destruct (asm_line sp g x) as [g1|] eqn:Hx; [simpl in H | done].
    apply not_elem_of_cons in Hnot as [Hne Hnot].
    rewrite (IH _ _ (proj1 (asm_line_inv _ _ _ _ Hwf Hx)) Ha Hnot H).
    by eapply asm_line_rom_frame.
Qed.

(** An address that is not the address counter at the start of any line,
    in either pass, holds in the hex file the word that the stack held. *)
Lemma untargeted_word (stack : Z → Z) (file : string) (g1 : asm_state)
    (a : Z) :
  0 ≤ a < 256 →
  first_pass stack (source_lines file) = Some g1 →
  syntax_error g1 = 0 →
  a ∉ line_addresses false (set_pc 0 (init stack)) (source_lines file) →
  a ∉ line_addresses true (set_pc 0 g1) (source_lines file) →
  image_word (main 4 stack file) a = Some (stack a mod UINT_MOD).
Proof.
  intros Ha H1 Hse Hn1 Hn2.
  destruct (second_pass_total _ _ _ H1 Hse) as (g2 & H2 & Hwf2 & Hse2 & _).
  destruct (hexdump_total (rom g2)) as [h Hh]; [by destruct Hwf2 |].
  unfold main. cbn [negb Z.eqb Pos.eqb]. cbv zeta. rewrite H1.
  cbn [mbind option_bind]. rewrite Hse. cbn [Z.eqb]. rewrite H2.
  cbn [mbind option_bind]. rewrite Hse2, Hh. cbn [Z.ltb Z.compare].
  cbn [mbind option_bind image_word hex_file].
  rewrite (hexdump_word _ _ _ Hh Ha).
  pose proof (first_pass_inv _ _ _ H1) as [Hwf1 _].
  unfold first_pass, second_pass in *.
  rewrite (pass_rom_frame _ a _ _ _ (wf_set_pc 0 _ Hwf1) (proj1 Ha) Hn2 H2).
  change (rom (set_pc 0 g1)) with (rom g1).
  rewrite (pass_rom_frame _ a _ _ _ (wf_set_pc 0 _ (wf_init stack))
             (proj1 Ha) Hn1 H1).
  by apply load_init_rom.
Qed.

(** C1. [rom] is never initialised: an address that no instruction
    targets keeps the word that the stack held. With the stack holding
    0xABC, the source [ORG 10] / [LDI 0A] gives an image with 0xABC at
    address 0, and the empty source gives 0xABC at the last address. *)
Theorem rom_not_initialised :
  image_word (main 4 (stack_of 0xABC) (file_of ["ORG 10"; "LDI 0A"])) 0
  = Some 0xABC
  ∧ image_word (main 4 (stack_of 0xABC) (file_of ["ORG 10"; "LDI 0A"])) 0x10
    = Some 0xD0A
  ∧ image_word (main 4 (stack_of 0xABC) EmptyString) 0xff = Some 0xABC.
Proof. split_and!; vm_compute; reflexivity. Qed.

(** ** The tokens of a line *)

Lemma strtok_starts (s : string) : starts_token s = true → strtok s ≠ [].
Proof.
  destruct s as [|c s]; simpl; [done |].
  intros Hc%negb_true_iff. rewrite Hc.
  destruct (starts_token s); [by destruct (strtok s) | done].
Qed.

Lemma strtok_split (s1 s2 : string) (c : ascii) :
  is_delim c = true →
  strtok (s1 +:+ String c s2) = strtok s1 ++ strtok s2.
Proof.
  intros Hc. induction s1 as [|a s1 IH]; simpl.
  - by rewrite Hc.
  - destruct (is_delim a); [done |].
    destruct s1 as [|b s1].
    + simpl. by rewrite Hc.
    + assert (starts_token (String b s1 +:+ String c s2)
              = starts_token (String b s1)) as -> by done.
      destruct (starts_token (String b s1)) eqn:Hb.
      * rewrite IH. pose proof (strtok_starts _ Hb).
        by destruct (strtok (String b s1)).
      * by rewrite IH.
Qed.

Lemma strtok_word (w : string) : is_word w → strtok w = [w].
Proof.
  intros [Hne Hw]. induction w as [|c w IH]; [done |]. simpl in *.
  apply andb_prop in Hw as [Hc Hw]. apply negb_true_iff in Hc. rewrite Hc.
  destruct w as [|b w]; [done |].
  assert (starts_token (String b w) = true) as Hb.
  { pose proof Hw as Hw'. simpl in Hw'. simpl.
    by apply andb_prop in Hw' as [-> _]. }
  rewrite Hb, IH; done.
Qed.

Lemma strtok_words_wf (s : string) : Forall is_word (strtok s).
Proof.
  induction s as [|c s IH]; simpl; [constructor |].
  destruct (is_delim c) eqn:Hc; [done |].
  destruct (starts_token s).
  - destruct (strtok s) as [|t ts]; inversion IH as [|? ? [Ht1 Ht2] Hts]; subst.
    + repeat constructor; simpl; [done | by rewrite Hc].
    + constructor; [| done]. split; [done |]. simpl. by rewrite Hc.
  - constructor; [| done]. split; [done |]. simpl. by rewrite Hc.
Qed.

(** X1. Tokens and words. Every token of a line has at least one
    character and no delimiter; and words written one after the other,
    each followed by one delimiter (space, tab or line feed), are the
    tokens of the line they make. *)
Theorem strtok_round_trip (s : string) (sep : ascii) (ws : list string) :
  Forall is_word (strtok s)
  ∧ (is_delim sep = true → Forall is_word ws →
     strtok (join_words sep ws) = ws).
Proof.
  split; [apply strtok_words_wf |].
  intros Hsep Hws. induction Hws as [|w ws Hw Hws IH]; simpl; [done |].
  by rewrite strtok_split, strtok_word, IH.
Qed.

Lemma strtok_round_trip_witness :
  strtok (join_words " " ["$1"; "ADI"; "01"]) = ["$1"; "ADI"; "01"].
Proof.
  apply (strtok_round_trip EmptyString " " ["$1"; "ADI"; "01"]).
  - reflexivity.
  - repeat constructor; done.
Defined.

(** ** The buffers of the source file *)

Lemma str_app_cons (x : ascii) (a b : string) :
  String x a +:+ b = String x (a +:+ b).
Proof. reflexivity. Qed.


Lemma str_app_length (a b : string) :
  String.length (a +:+ b) = (String.length a + String.length b)%nat.
Proof.
  induction a as [|x a IH]; [done |]. rewrite str_app_cons. simpl.
  by f_equal.
Qed.

Lemma str_app_nil_r (a : string) : a +:+ EmptyString = a.
Proof.
  induction a as [|x a IH]; [done |]. rewrite str_app_cons. by f_equal.
Qed.








(** ** Numbers *)

Lemma hex_digit_facts (c : ascii) (v : Z) :
  digit_val c = Some v →
  0 ≤ v ∧ isspace c = false
  ∧ Ascii.eqb c "+" = false ∧ Ascii.eqb c "-" = false.
Proof.
  unfold digit_val, isspace. intros H.
  assert (48 ≤ char_code c) as Hc.
  { repeat case_match; simplify_eq;
      repeat match goal with
             | H : _ && _ = true |- _ => apply andb_prop in H as [?%Z.leb_le _]
             end; lia. }
  split_and!.
  - repeat case_match; simplify_eq;
      repeat match goal with
             | H : _ && _ = true |- _ => apply andb_prop in H as [?%Z.leb_le _]
             end; lia.
  - destruct (Z.eqb_spec (char_code c) 32); [lia |]. simpl.
    destruct (Z.leb_spec (char_code c) 13); [lia |]. apply andb_false_r.
  - apply Ascii.eqb_neq. intros ->. vm_compute in Hc. done.
  - apply Ascii.eqb_neq. intros ->. vm_compute in Hc. done.
Qed.

(** X3. Two hexadecimal digits, in either letter case, are an operand
    value: [parse_label] gives 16 times the first digit plus the second,
    a number from 0 to 0xff and never [INVALID]. *)
Theorem parse_label_hex_pair (c1 c2 : ascii) (v1 v2 : Z) :
  digit_val c1 = Some v1 → v1 < 16 → digit_val c2 = Some v2 → v2 < 16 →
  parse_label (String c1 (String c2 EmptyString)) 16 2 0xff = 16 * v1 + v2
  ∧ 0 ≤ 16 * v1 + v2 ≤ 0xff.
Proof.
  intros H1 Hv1 H2 Hv2.
  destruct (hex_digit_facts _ _ H1) as (Hp1 & Hsp & Hplus & Hminus).
  destruct (hex_digit_facts _ _ H2) as (Hp2 & _).
  split; [| lia].
  unfold parse_label, strtoul. cbn [span_space]. rewrite Hsp.
  cbn [str_drop sign_of]. rewrite Hplus, Hminus. cbn [str_drop].
  change (hex_prefix 16 (String c1 (String c2 EmptyString))) with 0%nat.
  cbn [str_drop scan_digits]. rewrite H1, H2.
  destruct (Z.ltb_spec v1 16); [| lia].
  destruct (Z.ltb_spec v2 16); [| lia].
  destruct (Z.ltb_spec ULONG_MAX ((0 * 16 + v1) * 16 + v2));
    [unfold ULONG_MAX in *; lia |].
  rewrite Z.mod_small by (unfold UINT_MOD; lia).
  destruct (Z.leb_spec ((0 * 16 + v1) * 16 + v2) 255); [| lia].
  simpl. lia.
Qed.

Lemma parse_label_hex_pair_witness :
  parse_label "fA" 16 2 0xff = 16 * 15 + 10 ∧ 0 ≤ 16 * 15 + 10 ≤ 0xff.
Proof.
  apply (parse_label_hex_pair "f" "A" 15 10); (reflexivity || lia).
Defined.

(** X4. Whatever the text, the base, the width and the bound,
    [parse_label] gives [INVALID] or a number from 0 to the bound, and
    in the second case the text is no longer than the width. *)
Theorem parse_label_contract (p : string) (base max_width max_val : Z) :
  parse_label p base max_width max_val = INVALID
  ∨ (0 ≤ parse_label p base max_width max_val ≤ max_val
     ∧ Z.of_nat (String.length p) ≤ max_width).
Proof.
  unfold parse_label. destruct (strtoul p base) as [v used].
  destruct ((v mod UINT_MOD <=? max_val) && (Z.of_nat used <=? max_width)
            && (used =? String.length p)%nat) eqn:H; [right | by left].
  apply andb_prop in H as [[H1 H2]%andb_prop H3].
  apply Z.leb_le in H1, H2. apply Nat.eqb_eq in H3. subst used.
  pose proof (Z.mod_pos_bound v UINT_MOD eq_refl). lia.
Qed.

(** ** The tables *)

(** X5. The mnemonic lookup finds an entry exactly when the token starts
    with the three letters of its name, and then it is the only entry
    that the token starts with; the entries have the opcodes 0 to 15 and
    the code 16 of the directive. *)
Theorem find_token_spec (p : string) (t : token_t) :
  (find_token p = Some t ↔ t ∈ token ∧ ∃ sfx, p = tk_name t +:+ sfx)
  ∧ (find_token p = Some t → ∀ t' sfx, t' ∈ token → p = tk_name t' +:+ sfx →
     t' = t)
  ∧ (t ∈ token → 0 ≤ tk_code t ≤ ORG
               ∧ (tk_code t = ORG ↔ tk_name t = "ORG")).
Proof.
  split_and!.
  - split; [apply find_token_inv |].
    intros [Hin [sfx ->]]. by apply find_token_prefix.
  - intros Hf t' sfx Hin ->. rewrite find_token_prefix in Hf by done.
    congruence.
  - intros Hin. split; [by apply token_code_range |].
    apply list_elem_of_In in Hin. simpl in Hin. unfold ORG.
    repeat (destruct Hin as [<- | Hin]; [by split |]). done.
Qed.

Lemma find_token_spec_witness :
  find_token "JMPS" = Some (Token "JMP" 0xB LAB).
Proof.
  apply (find_token_spec "JMPS" (Token "JMP" 0xB LAB)). split.
  - apply list_elem_of_In. simpl. tauto.
  - by exists "S".
Defined.

(** X6. The lookup of an indexed addressing operand finds an entry
    exactly when the token is the spelling of the entry, character for
    character, and the byte of every entry is between 0xf8 and 0xff. *)
Theorem find_indreg_spec (p : string) (r : indreg_t) :
  (find_indreg p = Some r ↔ r ∈ indreg ∧ p = ir_name r)
  ∧ (r ∈ indreg → 0xf8 ≤ ir_code r ≤ 0xff).
Proof.
  split.
  - split.
    + intros [Hin Heq]%List.find_some. apply list_elem_of_In in Hin.
      by apply String.eqb_eq in Heq.
    + intros [Hin ->]. apply list_elem_of_In in Hin. simpl in Hin.
      repeat (destruct Hin as [<- | Hin]; [reflexivity |]). done.
  - intros Hin. apply list_elem_of_In in Hin. simpl in Hin.
    repeat (destruct Hin as [<- | Hin]; [simpl; lia |]). done.
Qed.

Lemma find_indreg_spec_witness :
  find_indreg "@IX+" = Some (Indreg "@IX+" 0xfc).
Proof.
  apply (find_indreg_spec "@IX+" (Indreg "@IX+" 0xfc)). split.
  - apply list_elem_of_In. simpl. tauto.
  - reflexivity.
Defined.

(** ** Lines with an operand *)

Lemma line_after_mnemonic sp g line_buf m ps t :
  wf g → strtok line_buf = m :: ps → find_token m = Some t →
  asm_line sp g line_buf
  = e ← token_loop sp (after_mnemonic_state t g) (after_mnemonic_vars t) ps;
    line_result e.
Proof.
  intros Hwf Htok Hf. rewrite asm_line_unfold by by rewrite Htok.
  rewrite Htok. cbn [token_loop]. unfold on_token.
  cbn [parser_state line_init].
  destruct (find_token_first _ _ Hf) as [-> _].
  by rewrite (case_MNEMONIC_found _ _ _ _ _ Hwf Hf).
Qed.

Lemma wf_after_mnemonic t g : wf g → wf (after_mnemonic_state t g).
Proof.
  intros Hwf. unfold after_mnemonic_state.
  destruct (tk_code t <? ORG); [by apply wf_set_rom | by destruct Hwf].
Qed.

Lemma token_loop_comment sp g l ps :
  parser_state l = COMMENT → token_loop sp g l ps = Some (Listing g l).
Proof.
  intros Hst. destruct ps as [|p ps]; [done |]. cbn [token_loop].
  unfold on_token. by rewrite Hst.
Qed.

Lemma is_type_false (ty ty' : operand_t) :
  ty ≠ ty' → is_type ty' (Some ty) = false.
Proof. intros H. apply bool_decide_eq_false. congruence. Qed.

Lemma is_type_true (ty : operand_t) : is_type ty (Some ty) = true.
Proof. by apply bool_decide_eq_true. Qed.

(** The token loop on a numeric operand that fits the instruction. *)
Lemma numeric_operand_step sp g t op h v rest :
  first_is "$" op = false → find_indreg op = None →
  numeric_text (tk_type t) op = Some h →
  parse_label h 16 2 0xff = v → v ≠ INVALID →
  token_loop sp g (after_mnemonic_vars t) (op :: rest)
  = f ← set_operand (if tk_code t =? ORG then set_pc v g else g)
                    (set_operand_var v (after_mnemonic_vars t));
    match f with
    | Next g' l' => token_loop sp g' l' rest
    | PrintListing g' l' => Some (Listing g' l')
    | SyntaxError msg p' => Some (Failed g msg p')
    end.
Proof.
  intros Hd Hi Hnum Hv Hne. cbn [token_loop]. unfold on_token.
  cbn [parser_state after_mnemonic_vars set_parser_state].
  unfold case_OPERAND. rewrite Hd, Hi.
  cbn [operand after_mnemonic_vars set_parser_state set_token line_init
       optype opcode Z.eqb negb].
  unfold numeric_text in Hnum.
  assert ((parse_label h 16 2 255 =? INVALID) = false) as Hne'
    by (rewrite Hv; by apply Z.eqb_neq).
  destruct (first_is "%" op); destruct (decide (tk_type t = REG)) as [Hty | Hty].
  - rewrite bool_decide_eq_true_2 in Hnum by done. simplify_eq.
    rewrite Hty, is_type_true. cbn [negb]. rewrite andb_false_r.
    rewrite Hne', andb_false_r.
    by destruct (set_operand _ _) as [[]|].
  - by rewrite bool_decide_eq_false_2 in Hnum.
  - by rewrite bool_decide_eq_true_2 in Hnum.
  - rewrite bool_decide_eq_false_2 in Hnum by done. simplify_eq.
    rewrite is_type_false by done. rewrite andb_false_r.
    rewrite Hne', andb_false_r.
    by destruct (set_operand _ _) as [[]|].
Qed.

Lemma lor_shiftl_byte (c v : Z) :
  0 ≤ c → 0 ≤ v < 256 → Z.lor (Z.shiftl c 8) v = c * 256 + v.
Proof.
  intros Hc Hv.
  assert (Z.land (Z.shiftl c 8) v = 0) as Hland.
  { apply Z.bits_inj'. intros n Hn. rewrite Z.land_spec, Z.bits_0.
    destruct (Z.lt_ge_cases n 8).
    - by rewrite Z.shiftl_spec_low.
    - destruct (Z.eq_dec v 0) as [-> | ?].
      + by rewrite Z.bits_0, andb_false_r.
      + rewrite (Z.bits_above_log2 v n), andb_false_r; [done | lia |].
        apply Z.log2_lt_pow2; [lia |].
        assert (2 ^ 8 ≤ 2 ^ n) by (apply Z.pow_le_mono_r; lia).
        change (2 ^ 8) with 256 in *. lia. }
  rewrite <- Z.lxor_lor, <- Z.add_nocarry_lxor by done.
  rewrite Z.shiftl_mul_pow2 by lia. done.
Qed.

(** X7. An instruction with a numeric operand. The line holds the
    mnemonic of an instruction and a two-digit hexadecimal operand,
    with the register marker exactly when the instruction takes a
    register; whatever follows the operand is not looked at. In either
    pass the word at the address counter becomes the opcode in the
    bits above the operand byte, the address counter steps by 1 modulo
    256, and the table and the three counters stay as they are. *)
Theorem instruction_with_number (second_pass : bool) (g : asm_state)
    (line_buf : string) (m op h : string) (rest : list string) (t : token_t)
    (v : Z) :
  wf g → strtok line_buf = m :: op :: rest →
  find_token m = Some t → tk_code t < ORG →
  first_is "$" op = false → find_indreg op = None →
  numeric_text (tk_type t) op = Some h →
  parse_label h 16 2 0xff = v → v ≠ INVALID →
  ∃ g',
    asm_line second_pass g line_buf = Some g'
    ∧ load (rom g') (pc g) = Some (Z.lor (Z.shiftl (tk_code t) 8) v)
    ∧ Z.lor (Z.shiftl (tk_code t) 8) v = tk_code t * 256 + v
    ∧ 0 ≤ v ≤ 0xff
    ∧ pc g' = (pc g + 1) mod 256
    ∧ label g' = label g
    ∧ syntax_error g' = syntax_error g
    ∧ other_error g' = other_error g
    ∧ warning g' = warning g
    ∧ ∀ a, 0 ≤ a → a ≠ pc g → load (rom g') a = load (rom g) a.
Proof.
  intros Hwf Htok Hf Hcode Hd Hi Hnum Hv Hne.
  rewrite (line_after_mnemonic _ _ _ _ _ _ Hwf Htok Hf).
  rewrite (numeric_operand_step _ _ _ _ _ _ _ Hd Hi Hnum Hv Hne).
  assert ((tk_code t =? ORG) = false) as -> by (apply Z.eqb_neq; lia).
  apply Z.ltb_lt in Hcode as Hlt.
  unfold set_operand, after_mnemonic_state.
  cbn [opcode set_operand_var after_mnemonic_vars set_parser_state set_token].
  rewrite Hlt. cbn [rom pc set_rom].
  assert (load (<[Z.to_nat (pc g) := Z.shiftl (tk_code t) 8]> (rom g)) (pc g)
          = Some (Z.shiftl (tk_code t) 8)) as ->.
  { unfold load. apply list_lookup_insert_eq. by apply wf_pc_index. }
  cbn [mbind option_bind operand].
  rewrite store_Some by (rewrite length_insert; by apply wf_pc_index).
  cbn [mbind option_bind]. rewrite token_loop_comment by done.
  cbn [mbind option_bind line_result]. unfold print_listing.
  cbn [parser_state set_parser_state reached_OPERAND name opcode
       set_operand_var set_token].
  unfold after_mnemonic_vars. simpl. rewrite Hlt.
  rewrite list_insert_insert_eq.
  assert (0 ≤ v ≤ 255) as Hrange.
  { destruct (parse_label_bound h 16 2 255) as [? | ?]; [congruence | lia]. }
  pose proof (find_token_inv _ _ Hf) as [Hin _].
  pose proof (token_code_range _ Hin) as Hc.
  eexists. split; [done |]. split_and!; try done; try lia.
  - unfold load. cbn [rom set_pc set_rom].
    apply list_lookup_insert_eq. by apply wf_pc_index.
  - apply lor_shiftl_byte; lia.
  - intros a Ha Hne'. unfold load. cbn [rom set_pc set_rom].
    apply list_lookup_insert_ne. pose proof (wf_pc _ Hwf). lia.
Qed.

Lemma instruction_with_number_witness :
  ∃ g',
    asm_line true (set_pc 7 (init zero_stack)) "LDA %1f ; load" = Some g'
    ∧ load (rom g') 7 = Some (0xC * 256 + 0x1f) ∧ pc g' = 8.
Proof.
  destruct (instruction_with_number true (set_pc 7 (init zero_stack))
              "LDA %1f ; load" "LDA" "%1f" "1f" [";"; "load"]
              (Token "LDA" 0xC REG) 0x1f (wf_set_pc 7 _ (wf_init _)))
    as (g' & H & Hrom & Hval & _ & Hpc & _);
    try reflexivity; try done.
  exists g'. split; [exact H |].
  split; [exact (eq_trans Hrom (f_equal Some Hval)) | exact Hpc].
Defined.

(** X8. The origin directive. A line [ORG] with a two-digit hexadecimal
    operand, without marker, sets the address counter to the operand in
    either pass and changes nothing else: no word of [rom], no table
    entry, no counter. *)
Theorem org_directive (second_pass : bool) (g : asm_state)
    (line_buf : string) (m op : string) (rest : list string) (t : token_t)
    (v : Z) :
  wf g → strtok line_buf = m :: op :: rest →
  find_token m = Some t → tk_code t = ORG →
  first_is "$" op = false → first_is "%" op = false →
  find_indreg op = None →
  parse_label op 16 2 0xff = v → v ≠ INVALID →
  asm_line second_pass g line_buf = Some (set_pc v g)
  ∧ pc (set_pc v g) = v.
Proof.
  intros Hwf Htok Hf Hcode Hd Hm Hi Hv Hne.
  pose proof (find_token_inv _ _ Hf) as [Hin _].
  assert (tk_type t = IMM) as Hty.
  { apply list_elem_of_In in Hin. simpl in Hin. unfold ORG in *.
    repeat (destruct Hin as [<- | Hin]; [done |]). done. }
  assert (numeric_text (tk_type t) op = Some op) as Hnum.
  { unfold numeric_text. by rewrite Hm, Hty. }
  rewrite (line_after_mnemonic _ _ _ _ _ _ Hwf Htok Hf).
  rewrite (numeric_operand_step _ _ _ _ _ _ _ Hd Hi Hnum Hv Hne).
  rewrite Hcode. unfold set_operand, after_mnemonic_state, after_mnemonic_vars.
  simpl. rewrite Hcode. simpl. rewrite token_loop_comment by done.
  simpl. unfold print_listing. simpl. rewrite Hcode. simpl.
  assert (0 ≤ v ≤ 255) as Hrange.
  { destruct (parse_label_bound op 16 2 255) as [? | ?]; [congruence | lia]. }
  split; [| simpl; apply Z.mod_small; lia].
  by destruct g.
Qed.

Lemma org_directive_witness :
  asm_line false (init zero_stack) "ORG 10"
  = Some (set_pc 0x10 (init zero_stack)).
Proof.
  apply (org_directive false (init zero_stack) "ORG 10" "ORG" "10" []
           (Token "ORG" ORG IMM) 0x10 (wf_init _)); try reflexivity; done.
Defined.


Lemma indreg_first (p : string) (r : indreg_t) :
  find_indreg p = Some r →
  first_is "$" p = false ∧ (ir_code r =? 0) = false.
Proof.
  intros [Hin Heq]%List.find_some. apply String.eqb_eq in Heq as ->.
  simpl in Hin. repeat (destruct Hin as [<- | Hin]; [done |]). done.
Qed.

(** X9. An instruction with an indexed addressing operand. When the
    instruction takes a register and the operand is one of the
    spellings of the table, the word at the address counter becomes the
    opcode in the bits above the byte of the spelling, in either pass;
    the address counter steps by 1 modulo 256 and no counter changes. *)
Theorem instruction_with_indexed (second_pass : bool) (g : asm_state)
    (line_buf : string) (m op : string) (rest : list string) (t : token_t)
    (r : indreg_t) :
  wf g → strtok line_buf = m :: op :: rest →
  find_token m = Some t → tk_type t = REG →
  find_indreg op = Some r →
  ∃ g',
    asm_line second_pass g line_buf = Some g'
    ∧ load (rom g') (pc g) = Some (tk_code t * 256 + ir_code r)
    ∧ pc g' = (pc g + 1) mod 256
    ∧ label g' = label g
    ∧ syntax_error g' = syntax_error g
    ∧ other_error g' = other_error g
    ∧ warning g' = warning g.
Proof.
  intros Hwf Htok Hf Hty Hi.
  destruct (indreg_first _ _ Hi) as [Hd Hz].
  pose proof (find_token_inv _ _ Hf) as [Hin _].
  assert (tk_code t < ORG) as Hcode.
  { apply list_elem_of_In in Hin. simpl in Hin. unfold ORG.
    repeat (destruct Hin as [<- | Hin]; [simpl in *; (done || lia) |]). done. }
  pose proof (token_code_range _ Hin) as Hc.
  assert (0xf8 ≤ ir_code r ≤ 0xff) as Hr.
  { apply List.find_some in Hi as [Hr _]. simpl in Hr.
    repeat (destruct Hr as [<- | Hr]; [simpl; lia |]). done. }
  apply Z.ltb_lt in Hcode as Hlt.
  rewrite (line_after_mnemonic _ _ _ _ _ _ Hwf Htok Hf).
  cbn [token_loop]. unfold on_token, after_mnemonic_vars.
  cbn [parser_state set_parser_state]. unfold case_OPERAND.
  rewrite Hd, Hi. simpl. rewrite Hz, Hty, is_type_true. simpl.
  rewrite andb_false_r. unfold set_operand, after_mnemonic_state. simpl.
  rewrite Hlt.
  assert (load (<[Z.to_nat (pc g) := Z.shiftl (tk_code t) 8]> (rom g)) (pc g)
          = Some (Z.shiftl (tk_code t) 8)) as ->.
  { unfold load. apply list_lookup_insert_eq. by apply wf_pc_index. }
  simpl. rewrite store_Some by (rewrite length_insert; by apply wf_pc_index).
  simpl. rewrite token_loop_comment by done.
  simpl. unfold print_listing. simpl. rewrite Hlt.
  eexists. split; [done |]. split_and!; try done.
  unfold load. simpl. rewrite list_insert_insert_eq.
  rewrite list_lookup_insert_eq by by apply wf_pc_index.
  f_equal. apply lor_shiftl_byte; lia.
Qed.

Lemma instruction_with_indexed_witness :
  ∃ g',
    asm_line false (init zero_stack) "STA @IX+" = Some g'
    ∧ load (rom g') 0 = Some (0xE * 256 + 0xfc) ∧ pc g' = 1.
Proof.
  destruct (instruction_with_indexed false (init zero_stack) "STA @IX+"
              "STA" "@IX+" [] (Token "STA" 0xE REG) (Indreg "@IX+" 0xfc)
              (wf_init _))
    as (g' & H & Hrom & Hpc & _); try reflexivity.
  exists g'. split; [exact H |]. split; [exact Hrom | exact Hpc].
Defined.






(** X12. Lines without an instruction. In either pass a line of
    delimiters only, and a line whose first token starts with the
    comment marker, leave the whole state as it is. *)
Theorem blank_and_comment_lines (second_pass : bool) (g : asm_state)
    (line_buf : string) :
  line_buf ≠ EmptyString →
  strtok line_buf = []
  ∨ (∃ c rest, strtok line_buf = c :: rest ∧ first_is ";" c = true) →
  asm_line second_pass g line_buf = Some g.
Proof.
  intros Hne H. unfold asm_line.
  destruct line_buf as [|x s]; [done |]. cbn [str_toupper mbind option_bind].
  destruct H as [-> | (c & rest & -> & Hc)]; [done |].
  cbn [token_loop]. unfold on_token. cbn [parser_state line_init].
  assert (first_is "$" c = false) as ->.
  { destruct c as [|y c]; [done |]. simpl in *.
    apply Ascii.eqb_eq in Hc as ->. done. }
  unfold case_MNEMONIC. rewrite Hc. done.
Qed.

Lemma blank_and_comment_lines_witness :
  asm_line true (init zero_stack) "   ; LDI 05" = Some (init zero_stack).
Proof.
  apply (blank_and_comment_lines true (init zero_stack) "   ; LDI 05").
  - discriminate.
  - right. exists ";", ["LDI"; "05"]. split; reflexivity.
Defined.

Lemma token_loop_app_comment sp ps extra : ∀ g l g' l',
  token_loop sp g l ps = Some (Listing g' l') →
  parser_state l' = COMMENT →
  token_loop sp g l (ps ++ extra) = Some (Listing g' l').
Proof.
  induction ps as [|p ps IH]; intros g l g' l' H Hst.
  - simpl in H. simplify_eq. by apply token_loop_comment.
  - cbn [token_loop app] in *.
    destruct (on_token sp g l p) as [[g1 l1 | g1 l1 | msg q] |]; try done.
    by apply IH.
Qed.

(** X13. Text after the operand. Once the tokens of a line have taken
    the parser to the comment state, any further tokens are not looked
    at, with or without a comment marker: the line with them has the
    same outcome as the line without them. *)
Theorem trailing_tokens_ignored (second_pass : bool) (g g' : asm_state)
    (l' : line_vars) (line1 line2 : string) (extra : list string) :
  line1 ≠ EmptyString →
  strtok line2 = strtok line1 ++ extra →
  token_loop second_pass g line_init (strtok line1) = Some (Listing g' l') →
  parser_state l' = COMMENT →
  asm_line second_pass g line2 = asm_line second_pass g line1.
Proof.
  intros Hne Htok Hloop Hst.
  assert (line2 ≠ EmptyString) as Hne2.
  { intros ->. simpl in Htok. destruct (strtok line1) eqn:H1; [| done].
    simpl in Hloop. by simplify_eq. }
  unfold asm_line. destruct line1 as [|x1 s1]; [done |].
  destruct line2 as [|x2 s2]; [done |]. cbn [str_toupper mbind option_bind].
  by rewrite Htok, (token_loop_app_comment _ _ _ _ _ _ _ Hloop Hst), Hloop.
Qed.

Lemma trailing_tokens_ignored_witness :
  asm_line false (init zero_stack) "LDI 05 and more"
  = asm_line false (init zero_stack) "LDI 05".
Proof.
  assert (∃ g' l', token_loop false (init zero_stack) line_init
                     (strtok "LDI 05") = Some (Listing g' l')
                   ∧ parser_state l' = COMMENT) as (g' & l' & H & Hst).
  { destruct (token_loop false (init zero_stack) line_init (strtok "LDI 05"))
      as [[g' l' | ? ? ?] |] eqn:H.
    - exists g', l'. split; [reflexivity |].
      assert (match token_loop false (init zero_stack) line_init
                      (strtok "LDI 05") with
              | Some (Listing _ l) => parser_state l
              | _ => LABEL
              end = COMMENT) as Hs by (vm_compute; reflexivity).
      rewrite H in Hs. exact Hs.
    - exfalso.
      assert (match token_loop false (init zero_stack) line_init
                      (strtok "LDI 05") with
              | Some (Listing _ _) => true
              | _ => false
              end = true) as Hs by (vm_compute; reflexivity).
      rewrite H in Hs. discriminate.
    - exfalso.
      assert (match token_loop false (init zero_stack) line_init
                      (strtok "LDI 05") with
              | Some (Listing _ _) => true
              | _ => false
              end = true) as Hs by (vm_compute; reflexivity).
      rewrite H in Hs. discriminate. }
  apply (trailing_tokens_ignored false (init zero_stack) g' l' "LDI 05"
           "LDI 05 and more" ["and"; "more"]); [discriminate | reflexivity
           | exact H | exact Hst].
Defined.

(** ** The counters *)

Lemma on_token_pass1_counters g l p g' l' :
  on_token false g l p = Some (Next g' l') →
  warning g' = warning g ∧ other_error g' = other_error g.
Proof. intros H. token_cases H; done. Qed.

Lemma token_loop_pass1_counters ps : ∀ g l e,
  token_loop false g l ps = Some e →
  match e with
  | Listing g' _ | Failed g' _ _ =>
      warning g' = warning g ∧ other_error g' = other_error g
  end.
Proof.
  induction ps as [|p ps IH]; intros g l e H; simpl in H.
  - by simplify_eq.
  - destruct (on_token false g l p) as [[g1 l1 | g1 l1 | m q] |] eqn:Ht;
      simplify_eq.
    + apply on_token_pass1_counters in Ht as [Hw Ho]. apply IH in H.
      destruct e; rewrite <- Hw, <- Ho; done.
    + by apply on_token_listing in Ht as [-> ->].
    + done.
Qed.

Lemma asm_line_pass1_counters g line_buf g' :
  wf g → asm_line false g line_buf = Some g' →
  warning g' = warning g ∧ other_error g' = other_error g.
Proof.
  unfold asm_line. intros Hwf H.
  destruct (str_toupper line_buf) as [src|]; [simpl in H | done].
  destruct (token_loop false g line_init (strtok src)) as [e|] eqn:He;
    [simpl in H | done].
  pose proof (token_loop_inv _ _ _ _ _ Hwf He) as Hinv.
  apply token_loop_pass1_counters in He.
  destruct e as [g1 l1 | g1 m q].
  - destruct Hinv as [Hwf1 _], He as [<- <-].
    by apply print_listing_inv in H as (_ & _ & _ & _ & -> & ->).
  - by simplify_eq.
Qed.

Lemma on_token_pass2_warning g l p g' l' :
  on_token true g l p = Some (Next g' l') →
  warning g ≤ warning g' ≤ warning g + 1
  ∧ (parser_state l ≠ LABEL → warning g' = warning g)
  ∧ other_error g ≤ other_error g'.
Proof.
  intros H. destruct l as [a b ty oc nm op st].
  token_cases H; simpl in *; split_and!; try done; lia.
Qed.

Lemma token_loop_pass2_counters ps : ∀ g l g' l',
  token_loop true g l ps = Some (Listing g' l') →
  (parser_state l ≠ LABEL → warning g' = warning g)
  ∧ warning g ≤ warning g' ≤ warning g + 1
  ∧ other_error g ≤ other_error g'.
Proof.
  induction ps as [|p ps IH]; intros g l g' l' H; simpl in H.
  - simplify_eq. split_and!; (done || lia).
  - destruct (on_token true g l p) as [[g1 l1 | g1 l1 | m q] |] eqn:Ht;
      simplify_eq.
    + pose proof (on_token_next_state _ _ _ _ _ _ Ht) as Hst.
      apply on_token_pass2_warning in Ht as (Hw1 & Hw2 & Ho).
      apply IH in H as (Hw3 & _ & Ho').
      specialize (Hw3 Hst). split_and!.
      * intros Hl. rewrite Hw3. by apply Hw2.
      * lia.
      * lia.
      * lia.
    + apply on_token_listing in Ht as [-> ->]. split_and!; (done || lia).
Qed.

Lemma asm_line_pass2_counters g line_buf g' :
  wf g → asm_line true g line_buf = Some g' →
  warning g ≤ warning g' ≤ warning g + 1 ∧ other_error g ≤ other_error g'.
Proof.
  unfold asm_line. intros Hwf H.
  destruct (str_toupper line_buf) as [src|]; [simpl in H | done].
  destruct (token_loop true g line_init (strtok src)) as [e|] eqn:He;
    [simpl in H | done].
  destruct (token_loop_pass2_listing _ _ _ _ He) as (g1 & l1 & ->).
  pose proof (token_loop_inv _ _ _ _ _ Hwf He) as [Hwf1 _].
  apply token_loop_pass2_counters in He as (_ & Hw & Ho).
  apply print_listing_inv in H as (_ & _ & _ & _ & -> & ->); [| done].
  lia.
Qed.

Lemma pass_counters (g g' : asm_state) (lines : list string) :
  wf g →
  (pass false g lines = Some g' →
     warning g' = warning g ∧ other_error g' = other_error g
     ∧ syntax_error g ≤ syntax_error g'
       ≤ syntax_error g + Z.of_nat (length lines))
  ∧ (pass true g lines = Some g' →
     syntax_error g' = syntax_error g
     ∧ warning g ≤ warning g' ≤ warning g + Z.of_nat (length lines)
     ∧ other_error g ≤ other_error g').
Proof.
  intros Hwf. split.
  - revert g Hwf. induction lines as [|x lines IH]; intros g Hwf H.
    + simpl in *. simplify_eq. split_and!; (done || lia).
    + apply pass_cons_inv in H as (g1 & Hx & H).
      pose proof (asm_line_inv _ _ _ _ Hwf Hx) as [Hwf1 Hs].
      apply asm_line_pass1_counters in Hx as [Hw Ho]; [| done].
      apply (IH _ Hwf1) in H as (-> & -> & Hs').
      split_and!; try done; simpl length; lia.
  - revert g Hwf. induction lines as [|x lines IH]; intros g Hwf H.
    + simpl in *. simplify_eq. split_and!; (done || lia).
    + apply pass_cons_inv in H as (g1 & Hx & H).
      pose proof (asm_line_inv _ _ _ _ Hwf Hx) as [Hwf1 _].
      pose proof (asm_line_pass2_syntax_error _ _ _ Hwf Hx) as Hs.
      apply asm_line_pass2_counters in Hx as [Hw Ho]; [| done].
      apply (IH _ Hwf1) in H as (-> & Hw' & Ho').
      split_and!; try done; simpl length; lia.
Qed.

(** X14. The three counters. The first pass changes neither the count
    of warnings nor the count of other errors, and counts at most one
    syntax error for a line. The second pass leaves the count of syntax
    errors, counts at most one warning for a line and never lowers the
    count of other errors. *)
Theorem counters_of_a_pass (g g' : asm_state) (lines : list string) :
  wf g →
  (pass false g lines = Some g' →
     warning g' = warning g ∧ other_error g' = other_error g
     ∧ syntax_error g ≤ syntax_error g'
       ≤ syntax_error g + Z.of_nat (length lines))
  ∧ (pass true g lines = Some g' →
     syntax_error g' = syntax_error g
     ∧ warning g ≤ warning g' ≤ warning g + Z.of_nat (length lines)
     ∧ other_error g ≤ other_error g').
Proof. exact (pass_counters g g' lines). Qed.

Lemma counters_of_a_pass_witness :
  ∃ g', pass true (init zero_stack) ["JMP $5"; "$1 ADI 00"] = Some g'
        ∧ syntax_error g' = 0
        ∧ 0 ≤ warning g' ≤ 2 ∧ 0 ≤ other_error g'.
Proof.
  assert (syntax_error <$> pass true (init zero_stack)
            ["JMP $5"; "$1 ADI 00"] = Some 0) as Hs
    by (vm_compute; reflexivity).
  destruct (pass true (init zero_stack) ["JMP $5"; "$1 ADI 00"])
    as [g'|] eqn:H; [| discriminate Hs].
  exists g'. split; [reflexivity |].
  destruct (counters_of_a_pass (init zero_stack) g' ["JMP $5"; "$1 ADI 00"]
              (wf_init _)) as [_ H2].
  exact (H2 H).
Defined.

(** ** A rejected line *)

Lemma token_loop_failed_pc sp ps : ∀ g l g' m q (pc0 : Z),
  wf g → token_loop sp g l ps = Some (Failed g' m q) →
  pc g = pc0 ∨ parser_state l = COMMENT → pc g' = pc0.
Proof.
  induction ps as [|p ps IH]; intros g l g' m q pc0 Hwf H Hpc; simpl in H.
  - done.
  - destruct (on_token sp g l p) as [[g1 l1 | g1 l1 | m1 q1] |] eqn:Ht;
      simplify_eq.
    + destruct Hpc as [<- | Hc];
        [| unfold on_token in Ht; rewrite Hc in Ht; done].
      pose proof (wf_pc _ Hwf) as Hr.
      destruct (on_token_rom_frame _ _ _ _ _ _ (pc g + 1) Hwf
                  ltac:(lia) ltac:(lia) Ht) as [_ Hpc'].
      apply (IH _ _ _ _ _ _ (on_token_next_wf _ _ _ _ _ _ Hwf Ht) H).
      destruct Hpc' as [-> | ->]; auto.
    + destruct Hpc as [<- | Hc]; [done |].
      unfold on_token in Ht. rewrite Hc in Ht. done.
Qed.

(** X15. A rejected line. A line of the first pass that counts a syntax
    error counts exactly one and leaves the address counter where it
    was; a label at its start that [parse_label] accepts is recorded in
    the table all the same, and of [rom] only the word at the address
    counter may have changed. *)
Theorem rejected_line (g g' : asm_state) (line_buf : string) :
  wf g → asm_line false g line_buf = Some g' →
  syntax_error g' ≠ syntax_error g →
  syntax_error g' = syntax_error g + 1
  ∧ pc g' = pc g
  ∧ label g' = match declared_id line_buf with
               | Some n => <[Z.to_nat n := pc g]> (label g)
               | None => label g
               end
  ∧ ∀ a, 0 ≤ a → a ≠ pc g → load (rom g') a = load (rom g) a.
Proof.
  intros Hwf H Hne.
  pose proof (asm_line_inv _ _ _ _ Hwf H) as [_ Hs].
  split; [lia |]. split; [| split].
  - unfold asm_line in H.
    destruct (str_toupper line_buf) as [src|]; [simpl in H | done].
    destruct (token_loop false g line_init (strtok src)) as [e|] eqn:He;
      [simpl in H | done].
    destruct e as [g1 l1 | g1 m q].
    + pose proof (token_loop_inv _ _ _ _ _ Hwf He) as [Hwf1 Hs1].
      apply print_listing_inv in H as (_ & _ & _ & Hs2 & _); [| done].
      congruence.
    + simplify_eq.
      by apply (token_loop_failed_pc _ _ _ _ _ _ _ _ Hwf He); left.
  - by apply (asm_line_label false).
  - intros a Ha Hap. by apply (asm_line_rom_frame false g line_buf).
Qed.

Lemma rejected_line_witness :
  ∃ g', asm_line false (init zero_stack) "$7 FOO" = Some g'
        ∧ syntax_error g' = 1 ∧ pc g' = 0
        ∧ load (label g') 7 = Some 0.
Proof.
  assert (syntax_error <$> asm_line false (init zero_stack) "$7 FOO"
          = Some 1) as Hs by (vm_compute; reflexivity).
  destruct (asm_line false (init zero_stack) "$7 FOO") as [g'|] eqn:H;
    [| discriminate Hs].
  injection Hs as Hs. exists g'. split; [reflexivity |].
  assert (syntax_error g' ≠ syntax_error (init zero_stack)) as Hne
    by (rewrite Hs; discriminate).
  destruct (rejected_line (init zero_stack) g' "$7 FOO" (wf_init _) H Hne)
    as (_ & Hpc & Hlab & _).
  split; [exact Hs |]. split; [exact Hpc |].
  rewrite Hlab. reflexivity.
Defined.

(** ** The two passes side by side *)

Lemma line_addresses_length sp lines : ∀ g g',
  pass sp g lines = Some g' →
  length (line_addresses sp g lines) = length lines.
Proof.
  induction lines as [|x lines IH]; intros g g' H; [done |].
  apply pass_cons_inv in H as (g1 & Hx & H). simpl. rewrite Hx.
  f_equal. by eapply IH.
Qed.

Lemma sim_line_addresses lines : ∀ g1 g2 g1',
  sim_state g1 g2 → pass false g1 lines = Some g1' →
  syntax_error g1' = syntax_error g1 →
  line_addresses true g2 lines = line_addresses false g1 lines.
Proof.
  induction lines as [|x lines IH]; intros g1 g2 g1' Hsim H Hse; [done |].
  apply pass_cons_inv in H as (ga & Hx & H).
  pose proof (asm_line_inv _ _ _ _ (sim_wf1 _ _ Hsim) Hx) as [Hwa Hsa].
  pose proof (pass_inv _ _ _ _ Hwa H) as [_ Hsb].
  destruct (sim_asm_line _ _ _ _ Hsim Hx) as (gb & Hx2 & Hsim'); [lia |].
  simpl. rewrite Hx, Hx2, (sim_pc _ _ Hsim). f_equal.
  apply (IH _ _ _ Hsim' H). lia.
Qed.

(** X16. The addresses of the lines. After a first pass without a
    syntax error the second pass meets every line at the address at
    which the first pass met it, and both passes meet every line of the
    source. *)
Theorem same_addresses_in_both_passes (stack : Z → Z) (lines : list string)
    (g1 : asm_state) :
  first_pass stack lines = Some g1 → syntax_error g1 = 0 →
  line_addresses true (set_pc 0 g1) lines
  = line_addresses false (set_pc 0 (init stack)) lines
  ∧ length (line_addresses false (set_pc 0 (init stack)) lines)
    = length lines.
Proof.
  intros H1 Hse. pose proof (first_pass_inv _ _ _ H1) as [Hwf1 _].
  split.
  - by apply (sim_line_addresses lines _ _ g1 (sim_state_start stack g1 Hwf1)).
  - by apply (line_addresses_length false lines _ g1).
Qed.

Lemma same_addresses_in_both_passes_witness :
  ∃ g1, first_pass zero_stack ["LDI 05"; "ORG 10"; "$1 JMP $1"] = Some g1
        ∧ line_addresses true (set_pc 0 g1) ["LDI 05"; "ORG 10"; "$1 JMP $1"]
          = [0; 1; 16].
Proof.
  assert (syntax_error <$> first_pass zero_stack
            ["LDI 05"; "ORG 10"; "$1 JMP $1"] = Some 0) as Hs
    by (vm_compute; reflexivity).
  destruct (first_pass zero_stack ["LDI 05"; "ORG 10"; "$1 JMP $1"])
    as [g1|] eqn:H1; [| discriminate Hs].
  injection Hs as Hs. exists g1. split; [reflexivity |].
  destruct (same_addresses_in_both_passes zero_stack
              ["LDI 05"; "ORG 10"; "$1 JMP $1"] g1 H1 Hs) as [-> _].
  vm_compute. reflexivity.
Defined.

(** The last line that declares an id, when there is one. *)
Lemma last_declaration (id : Z) (lines : list string) :
  Forall (fun ln => declared_id ln ≠ Some id) lines
  ∨ ∃ l1 d l2, lines = l1 ++ d :: l2 ∧ declared_id d = Some id
               ∧ Forall (fun ln => declared_id ln ≠ Some id) l2.
Proof.
  induction lines as [|x lines IH]; [by left |].
  destruct IH as [Hno | (l1 & d & l2 & -> & Hd & Hl2)].
  - destruct (decide (declared_id x = Some id)) as [Hx | Hx].
    + right. by exists [], x, lines.
    + left. by constructor.
  - right. by exists (x :: l1), d, l2.
Qed.

(** X17. The table after the second pass. After a first pass without a
    syntax error the second pass ends with the table that the first
    pass left: at the end of the second pass every entry holds what it
    held at the end of the first. *)
Theorem second_pass_keeps_table (stack : Z → Z) (lines : list string)
    (g1 g2 : asm_state) :
  first_pass stack lines = Some g1 → syntax_error g1 = 0 →
  second_pass g1 lines = Some g2 →
  label g2 = label g1.
Proof.
  intros H1 Hse H2. pose proof (first_pass_inv _ _ _ H1) as [Hwf1 _].
  unfold first_pass, second_pass in *.
  assert (wf (set_pc 0 (init stack))) as Hwf0 by apply wf_set_pc, wf_init.
  pose proof (pass_inv _ _ _ _ (wf_set_pc 0 _ Hwf1) H2) as [Hwf2 _].
  apply list_eq. intros i.
  destruct (decide (i < Z.to_nat 10000)%nat) as [Hi | Hi].
  2: { rewrite !(proj2 (lookup_ge_None _ _)); [done | |].
       - destruct Hwf1 as [-> _ _]. lia.
       - destruct Hwf2 as [-> _ _]. lia. }
  pose (id := Z.of_nat i).
  assert (0 ≤ id) as Hid by lia.
  change (label g2 !! i = label g1 !! i).
  rewrite <- (Nat2Z.id i). change (load (label g2) id = load (label g1) id).
  destruct (last_declaration id lines) as [Hno | (l1 & d & l2 & -> & Hd & Hl2)].
  - by rewrite (pass_label_frame _ id _ _ _ Hid (wf_set_pc 0 _ Hwf1) H2 Hno).
  - apply pass_app_inv in H1 as (p1a & Hp1a & H1).
    apply pass_cons_inv in H1 as (p1b & Hp1b & Hp1c).
    pose proof (pass_inv _ _ _ _ Hwf0 Hp1a) as [Hwa Hsa].
    pose proof (asm_line_inv _ _ _ _ Hwa Hp1b) as [Hwb Hsb].
    pose proof (pass_inv _ _ _ _ Hwb Hp1c) as [_ Hsc].
    change (syntax_error (set_pc 0 (init stack))) with 0 in Hsa.
    destruct (sim_pass _ _ _ _ (sim_state_start stack g1 Hwf1) Hp1a)
      as (ga & Hp2a & Hga); [simpl; lia |].
    rewrite pass_app, Hp2a in H2. simpl in H2.
    destruct (asm_line true ga d) as [gb|] eqn:Hp2b; [simpl in H2 | done].
    pose proof (asm_line_inv _ _ _ _ (sim_wf2 _ _ Hga) Hp2b) as [Hwb2 _].
    rewrite (pass_label_frame _ id _ _ _ Hid Hwb2 H2 Hl2).
    rewrite (asm_line_declares _ _ _ _ _ (sim_wf2 _ _ Hga) Hp2b Hd).
    rewrite (pass_label_frame _ id _ _ _ Hid Hwb Hp1c Hl2).
    rewrite (asm_line_declares _ _ _ _ _ Hwa Hp1b Hd).
    by rewrite (sim_pc _ _ Hga).
Qed.

Lemma second_pass_keeps_table_witness :
  ∃ g1 g2,
    first_pass zero_stack ["$1 LDI 05"; "$1 JMP $1"] = Some g1
    ∧ second_pass g1 ["$1 LDI 05"; "$1 JMP $1"] = Some g2
    ∧ label g2 = label g1.
Proof.
  assert (syntax_error <$> first_pass zero_stack ["$1 LDI 05"; "$1 JMP $1"]
          = Some 0) as Hs by (vm_compute; reflexivity).
  destruct (first_pass zero_stack ["$1 LDI 05"; "$1 JMP $1"])
    as [g1|] eqn:H1; [| discriminate Hs].
  injection Hs as Hs.
  destruct (second_pass_total _ _ _ H1 Hs) as (g2 & H2 & _).
  exists g1, g2. split; [reflexivity |]. split; [exact H2 |].
  exact (second_pass_keeps_table zero_stack _ g1 g2 H1 Hs H2).
Defined.

(** ** Warnings *)

Lemma on_token_first_no_warning g p g1 l1 :
  wf g → on_token true g line_init p = Some (Next g1 l1) →
  (first_is "$" p = true → token_id p ≠ INVALID →
   load (label g) (token_id p) = Some (pc g)) →
  warning g1 = warning g.
Proof.
  intros Hwf H Hdecl. unfold token_id in Hdecl.
  unfold on_token in H. cbn [parser_state line_init] in H.
  destruct (first_is "$" p) eqn:Hp.
  - unfold case_LABEL in H. cbn [negb andb] in H.
    destruct (load (label g) (parse_label (str_tail p) 10 4 9999))
      as [v|] eqn:Hv; [| done].
    cbn [mbind option_bind] in H.
    assert (parse_label (str_tail p) 10 4 9999 ≠ INVALID) as Hne.
    { intros Heq. rewrite Heq in Hv. apply load_inv in Hv.
      destruct Hwf as [Hl _ _]. rewrite Hl, INVALID_eq in Hv. lia. }
    specialize (Hdecl eq_refl Hne). simplify_eq.
    rewrite Z.eqb_refl in H. cbn [negb] in H.
    destruct (store (label g) _ _) as [lab|]; simpl in H; [| done].
    by simplify_eq.
  - token_cases H; done.
Qed.

Lemma asm_line_pass2_no_warning g line_buf g' :
  wf g → asm_line true g line_buf = Some g' →
  (∀ id, declared_id line_buf = Some id →
         load (label g) id = Some (pc g)) →
  warning g' = warning g.
Proof.
  unfold asm_line, declared_id. intros Hwf H Hdecl.
  destruct (str_toupper line_buf) as [src|] eqn:Hup; [simpl in H | done].
  apply str_toupper_id in Hup as ->.
  destruct (token_loop true g line_init (strtok line_buf)) as [e|] eqn:He;
    [simpl in H | done].
  destruct (token_loop_pass2_listing _ _ _ _ He) as (ga & la & ->).
  pose proof (token_loop_inv _ _ _ _ _ Hwf He) as [Hwa _].
  apply print_listing_inv in H as (_ & _ & _ & _ & _ & ->); [| done].
  destruct (strtok line_buf) as [|p ps]; simpl in He; [by simplify_eq |].
  destruct (on_token true g line_init p) as [[gb lb | gb lb | m q] |] eqn:Ht;
    simplify_eq.
  - apply token_loop_pass2_counters in He as [Hw _].
    rewrite (Hw (on_token_next_state _ _ _ _ _ _ Ht)).
    apply (on_token_first_no_warning _ _ _ _ Hwf Ht).
    intros Hp Hne. apply Hdecl. rewrite Hp.
    by destruct (Z.eqb_spec (token_id p) INVALID).
  - by apply on_token_listing in Ht as [-> ->].
Qed.

Lemma declared_ids_app l1 l2 :
  declared_ids (l1 ++ l2) = declared_ids l1 ++ declared_ids l2.
Proof. apply omap_app. Qed.

Lemma not_declared (id : Z) (lines : list string) :
  id ∉ declared_ids lines →
  Forall (fun ln => declared_id ln ≠ Some id) lines.
Proof.
  intros Hn. apply Forall_forall. intros ln Hin Hd. apply Hn.
  apply list_elem_of_omap. by exists ln.
Qed.

Lemma single_declaration (id : Z) (l1 l2 : list string) (d : string) :
  NoDup (declared_ids (l1 ++ d :: l2)) → declared_id d = Some id →
  Forall (fun ln => declared_id ln ≠ Some id) l1
  ∧ Forall (fun ln => declared_id ln ≠ Some id) l2.
Proof.
  intros Hnd Hd. rewrite declared_ids_app in Hnd.
  change (d :: l2) with ([d] ++ l2) in Hnd.
  rewrite declared_ids_app in Hnd. unfold declared_ids at 2 in Hnd.
  simpl in Hnd. rewrite Hd in Hnd. simpl in Hnd.
  apply NoDup_app in Hnd as (_ & Hx & Hnd).
  apply NoDup_cons in Hnd as [Hn2 _].
  split; apply not_declared; [| done].
  intros Hin. apply (Hx _ Hin). by left.
Qed.

Lemma second_pass_prefix_no_warning stack lines g1 :
  first_pass stack lines = Some g1 → syntax_error g1 = 0 →
  NoDup (declared_ids lines) →
  ∀ l1 l2 gb, lines = l1 ++ l2 → pass true (set_pc 0 g1) l1 = Some gb →
              warning gb = 0.
Proof.
  intros H1 Hse Hnd. pose proof (first_pass_inv _ _ _ H1) as [Hwf1 _].
  assert (wf (set_pc 0 (init stack))) as Hwf0 by apply wf_set_pc, wf_init.
  assert (warning g1 = 0) as Hw1.
  { by destruct (proj1 (pass_counters _ g1 lines Hwf0) H1) as [-> _]. }
  induction l1 as [|d l1 IH] using rev_ind; intros l2 gb Hl Hp.
  - simpl in Hp. by simplify_eq.
  - rewrite <- app_assoc in Hl. simpl in Hl. subst lines.
    apply pass_app_inv in Hp as (ga & Hpa & Hpb).
    apply pass_cons_inv in Hpb as (gb' & Hd2 & Hnil). simpl in Hnil.
    simplify_eq.
    rewrite <- (IH (d :: l2) ga eq_refl Hpa).
    unfold first_pass in H1.
    apply pass_app_inv in H1 as (p1a & Hp1a & H1).
    apply pass_cons_inv in H1 as (p1b & Hp1b & Hp1c).
    pose proof (pass_inv _ _ _ _ Hwf0 Hp1a) as [Hwa Hsa].
    pose proof (asm_line_inv _ _ _ _ Hwa Hp1b) as [Hwb Hsb].
    pose proof (pass_inv _ _ _ _ Hwb Hp1c) as [_ Hsc].
    change (syntax_error (set_pc 0 (init stack))) with 0 in Hsa.
    destruct (sim_pass _ _ _ _ (sim_state_start stack g1 Hwf1) Hp1a)
      as (ga' & Hp2a & Hga); [simpl; lia |].
    rewrite Hpa in Hp2a. simplify_eq.
    apply (asm_line_pass2_no_warning _ _ _ (sim_wf2 _ _ Hga) Hd2).
    intros id Hd.
    destruct (single_declaration id _ _ _ Hnd Hd) as [Hl1 Hl2].
    pose proof (declared_id_range _ _ Hd) as [Hid _].
    rewrite (pass_label_frame _ id _ _ _ Hid (wf_set_pc 0 _ Hwf1) Hpa Hl1).
    change (label (set_pc 0 g1)) with (label g1).
    rewrite (pass_label_frame _ id _ _ _ Hid Hwb Hp1c Hl2).
    rewrite (asm_line_declares _ _ _ _ _ Hwa Hp1b Hd).
    by rewrite (sim_pc _ _ Hga).
Qed.

(** X18. No warning without a second declaration. When the first pass
    ends without a syntax error and no id is declared by two lines of
    the source, the second pass runs to its end without a warning. *)
Theorem no_duplicate_no_warning (stack : Z → Z) (lines : list string)
    (g1 : asm_state) :
  first_pass stack lines = Some g1 → syntax_error g1 = 0 →
  NoDup (declared_ids lines) →
  ∃ g2, second_pass g1 lines = Some g2 ∧ warning g2 = 0.
Proof.
  intros H1 Hse Hnd.
  destruct (second_pass_total _ _ _ H1 Hse) as (g2 & H2 & _).
  exists g2. split; [done |].
  apply (second_pass_prefix_no_warning stack lines g1 H1 Hse Hnd lines [] g2).
  - by rewrite app_nil_r.
  - done.
Qed.

Lemma no_duplicate_no_warning_witness :
  ∃ g1 g2,
    first_pass zero_stack ["JMP $2"; "$1 LDI 05"; "$2 JMP $1"] = Some g1
    ∧ second_pass g1 ["JMP $2"; "$1 LDI 05"; "$2 JMP $1"] = Some g2
    ∧ warning g2 = 0.
Proof.
  assert (syntax_error <$> first_pass zero_stack
            ["JMP $2"; "$1 LDI 05"; "$2 JMP $1"] = Some 0) as Hs
    by (vm_compute; reflexivity).
  destruct (first_pass zero_stack ["JMP $2"; "$1 LDI 05"; "$2 JMP $1"])
    as [g1|] eqn:H1; [| discriminate Hs].
  injection Hs as Hs. exists g1.
  assert (NoDup (declared_ids ["JMP $2"; "$1 LDI 05"; "$2 JMP $1"])) as Hnd.
  { assert (declared_ids ["JMP $2"; "$1 LDI 05"; "$2 JMP $1"] = [1; 2])
      as -> by (vm_compute; reflexivity).
    apply NoDup_cons. split; [| apply NoDup_singleton].
    intros Hin. apply list_elem_of_singleton in Hin. discriminate Hin. }
  destruct (no_duplicate_no_warning zero_stack _ g1 H1 Hs Hnd)
    as (g2 & H2 & Hw).
  exists g2. split; [reflexivity |]. split; [exact H2 | exact Hw].
Defined.

(** ** References to labels *)

(** The operand of a line whose label has no address yet, at the end
    of the line. *)
Lemma unresolved_operand_step g t d :
  wf g → tk_code t < ORG →
  load (label g) (parse_label d 10 4 9999) = Some INVALID →
  ∃ g',
    (e ← token_loop true (after_mnemonic_state t g) (after_mnemonic_vars t)
           [String "$" d];
     line_result e) = Some g'
    ∧ other_error g' = other_error g + 1
    ∧ load (rom g') (pc g) = Some (Z.shiftl (tk_code t) 8)
    ∧ pc g' = (pc g + 1) mod 256
    ∧ label g' = label g
    ∧ warning g' = warning g.
Proof.
  intros Hwf Hcode Hl. apply Z.ltb_lt in Hcode as Hlt.
  cbn [token_loop]. unfold on_token, after_mnemonic_vars.
  cbn [parser_state set_parser_state]. unfold case_OPERAND.
  cbn [first_is Ascii.eqb Bool.eqb negb andb str_tail].
  change (label (after_mnemonic_state t g)) with (label g). rewrite Hl.
  cbn [mbind option_bind]. rewrite Z.eqb_refl.
  cbn [mbind option_bind line_result]. unfold print_listing.
  cbn [parser_state set_parser_state set_olnum reached_OPERAND name opcode
       set_token].
  rewrite Hlt. eexists. split; [reflexivity |].
  unfold after_mnemonic_state. rewrite Hlt. simpl. split_and!; try done.
  unfold load. apply list_lookup_insert_eq. by apply wf_pc_index.
Qed.

(** X19. A label that no line declares. After a first pass without a
    syntax error, a line of the second pass that is the mnemonic of an
    instruction with a label operand and a label that no line of the
    source declares counts one other error and leaves the operand byte
    of its word 0; the address counter steps as for any instruction,
    and the second pass ends with at least one other error. *)
Theorem undeclared_label_reference (stack : Z → Z) (pre post : list string)
    (ref : string) (g1 : asm_state) (m d : string) (t : token_t) (id : Z) :
  first_pass stack (pre ++ ref :: post) = Some g1 →
  syntax_error g1 = 0 →
  Forall (fun ln => declared_id ln ≠ Some id) (pre ++ ref :: post) →
  strtok ref = [m; String "$" d] →
  find_token m = Some t → tk_type t = LAB →
  parse_label d 10 4 9999 = id → id ≠ INVALID →
  ∃ ga ga' g2,
    second_pass g1 pre = Some ga
    ∧ asm_line true ga ref = Some ga'
    ∧ second_pass g1 (pre ++ ref :: post) = Some g2
    ∧ other_error ga' = other_error ga + 1
    ∧ load (rom ga') (pc ga) = Some (Z.shiftl (tk_code t) 8)
    ∧ pc ga' = (pc ga + 1) mod 256
    ∧ 1 ≤ other_error g2.
Proof.
  intros H1 Hse Hno Htok Hf Hty Hd Hne.
  assert (0 ≤ id ≤ 9999) as Hid.
  { destruct (parse_label_bound d 10 4 9999) as [? | ?]; [congruence | lia]. }
  pose proof (first_pass_inv _ _ _ H1) as [Hwf1 _].
  assert (wf (set_pc 0 (init stack))) as Hwf0 by apply wf_set_pc, wf_init.
  assert (load (label g1) id = Some INVALID) as Hl1.
  { unfold first_pass in H1.
    rewrite (pass_label_frame _ id _ _ _ (proj1 Hid) Hwf0 H1 Hno).
    by apply load_init_label. }
  assert (other_error g1 = 0) as Ho1.
  { by destruct (proj1 (pass_counters _ g1 _ Hwf0) H1) as (_ & -> & _). }
  destruct (second_pass_total _ _ _ H1 Hse) as (g2 & H2 & _).
  unfold first_pass in H1. unfold second_pass in *.
  apply pass_app_inv in H2 as H2'. destruct H2' as (ga & Hpa & H2').
  apply pass_cons_inv in H2' as (ga' & Hpb & Hpc).
  pose proof (pass_inv _ _ _ _ (wf_set_pc 0 _ Hwf1) Hpa) as [Hwa _].
  pose proof (asm_line_inv _ _ _ _ Hwa Hpb) as [Hwb _].
  apply Forall_app in Hno as [Hpre _].
  assert (load (label ga) (parse_label d 10 4 9999) = Some INVALID) as Hla.
  { rewrite Hd.
    by rewrite (pass_label_frame _ id _ _ _ (proj1 Hid) (wf_set_pc 0 _ Hwf1)
                  Hpa Hpre). }
  assert (tk_code t < ORG) as Hcode.
  { apply find_token_inv in Hf as [Hin _]. by apply token_LAB_instruction. }
  destruct (unresolved_operand_step ga t d Hwa Hcode Hla)
    as (gx & Hx & Hox & Hrx & Hpx & _).
  rewrite <- (line_after_mnemonic true ga ref m _ t Hwa Htok Hf) in Hx.
  rewrite Hpb in Hx. simplify_eq.
  exists ga, gx, g2. split_and!; try done.
  destruct (proj2 (pass_counters _ ga pre (wf_set_pc 0 _ Hwf1)) Hpa)
    as (_ & _ & Hoa).
  destruct (proj2 (pass_counters _ g2 post Hwb) Hpc) as (_ & _ & Hob).
  change (other_error (set_pc 0 g1)) with (other_error g1) in Hoa. lia.
Qed.

Lemma undeclared_label_reference_witness :
  ∃ g1 ga ga' g2,
    first_pass zero_stack (["LDI 05"] ++ "JMP $7" :: ["$1 ADI 00"]) = Some g1
    ∧ second_pass g1 ["LDI 05"] = Some ga
    ∧ asm_line true ga "JMP $7" = Some ga'
    ∧ second_pass g1 (["LDI 05"] ++ "JMP $7" :: ["$1 ADI 00"]) = Some g2
    ∧ other_error ga' = other_error ga + 1
    ∧ load (rom ga') (pc ga) = Some 0xB00
    ∧ pc ga' = (pc ga + 1) mod 256
    ∧ 1 ≤ other_error g2.
Proof.
  assert (syntax_error <$> first_pass zero_stack
            (["LDI 05"] ++ "JMP $7" :: ["$1 ADI 00"]) = Some 0) as Hs
    by (vm_compute; reflexivity).
  destruct (first_pass zero_stack (["LDI 05"] ++ "JMP $7" :: ["$1 ADI 00"]))
    as [g1|] eqn:H1; [| discriminate Hs].
  injection Hs as Hs. exists g1.
  assert (Forall (fun ln => declared_id ln ≠ Some 7)
            (["LDI 05"] ++ "JMP $7" :: ["$1 ADI 00"])) as Hno.
  { repeat constructor; vm_compute; congruence. }
  assert (7 ≠ INVALID) as Hne by (vm_compute; congruence).
  destruct (undeclared_label_reference zero_stack ["LDI 05"] ["$1 ADI 00"]
              "JMP $7" g1 "JMP" "7" (Token "JMP" 0xB LAB) 7 H1 Hs Hno
              eq_refl eq_refl eq_refl eq_refl Hne)
    as (ga & ga' & g2 & Ha & Hb & Hc & Hd & He & Hf & Hg).
  exists ga, ga', g2. split; [reflexivity |].
  split_and!; [exact Ha | exact Hb | exact Hc | exact Hd | exact He
               | exact Hf | exact Hg].
Defined.

(** X20. A token after a forward reference. In the first pass the
    [break] that follows a label without an address leaves the parser
    in the operand state, so the next token of the line is read as an
    operand: after the mnemonic of an instruction with a label operand
    and a label that has no address yet, a further token that does not
    start with the label marker and that [parse_label] does not accept
    as a two-digit hexadecimal number (a comment that starts with a
    semicolon, for one) is a syntax error, and the address counter
    stays. *)
Theorem token_after_forward_reference (g : asm_state) (line_buf : string)
    (m d q : string) (rest : list string) (t : token_t) :
  wf g → strtok line_buf = m :: String "$" d :: q :: rest →
  find_token m = Some t → tk_type t = LAB →
  parse_label d 10 4 9999 ≠ INVALID →
  load (label g) (parse_label d 10 4 9999) = Some INVALID →
  first_is "$" q = false → parse_label q 16 2 0xff = INVALID →
  ∃ g', asm_line false g line_buf = Some g'
        ∧ syntax_error g' = syntax_error g + 1
        ∧ pc g' = pc g.
Proof.
  intros Hwf Htok Hf Hty Hne Hl Hq Hv.
  rewrite (line_after_mnemonic _ _ _ _ _ _ Hwf Htok Hf).
  assert (∃ msg p',
            token_loop false (after_mnemonic_state t g)
              (after_mnemonic_vars t) (String "$" d :: q :: rest)
            = Some (Failed (after_mnemonic_state t g) msg p'))
    as (msg & p' & ->).
  { cbn [token_loop]. unfold on_token at 1, after_mnemonic_vars.
    cbn [parser_state set_parser_state]. unfold case_OPERAND at 1.
    cbn [first_is Ascii.eqb Bool.eqb negb andb str_tail optype
         set_parser_state set_token].
    rewrite Hty, is_type_true. cbn [negb andb].
    destruct (Z.eqb_spec (parse_label d 10 4 9999) INVALID) as [|_];
      [done |].
    change (label (after_mnemonic_state t g)) with (label g). rewrite Hl.
    cbn [mbind option_bind]. rewrite Z.eqb_refl.
    unfold on_token. cbn [parser_state set_parser_state set_olnum].
    unfold case_OPERAND. rewrite Hq.
    destruct (find_indreg q) as [r|] eqn:Hr.
    - destruct (indreg_first _ _ Hr) as [_ Hc].
      cbn [operand set_operand_var optype set_parser_state set_token
           set_olnum negb andb]. rewrite Hc, Hty, is_type_false by done.
      cbn [negb andb]. by eexists _, _.
    - cbn [operand set_parser_state set_token set_olnum line_init optype
           negb andb].
      rewrite Hty, is_type_false by done. cbn [negb andb Z.eqb].
      destruct (first_is "%" q); [by eexists _, _ |].
      rewrite Hv, Z.eqb_refl. by eexists _, _. }
  cbn [mbind option_bind line_result]. eexists. split; [reflexivity |].
  unfold after_mnemonic_state. by destruct (tk_code t <? ORG).
Qed.

Lemma token_after_forward_reference_witness :
  ∃ g', asm_line false (init zero_stack) "JMP $5 ; later" = Some g'
        ∧ syntax_error g' = syntax_error (init zero_stack) + 1
        ∧ pc g' = pc (init zero_stack).
Proof.
  assert (parse_label "5" 10 4 9999 ≠ INVALID) as Hne
    by (vm_compute; congruence).
  exact (token_after_forward_reference (init zero_stack) "JMP $5 ; later"
           "JMP" "5" ";" ["later"] (Token "JMP" 0xB LAB) (wf_init _)
           eq_refl eq_refl eq_refl Hne eq_refl eq_refl eq_refl).
Defined.

(** X21. A reference to a label declared above. After a first pass
    without a syntax error, an instruction with a label operand below a
    declaration of that label, with no other declaration of it between
    the two lines, gets in the second pass the address of that
    declaration as its operand byte, whatever the lines before the
    declaration and after the reference declare, and no other error is
    counted for it. *)
Theorem backward_reference (stack : Z → Z) (pre mid post : list string)
    (decl ref : string) (g1 : asm_state) (id : Z) (pfx rest : list string)
    (m d : string) (t : token_t) :
  first_pass stack (pre ++ decl :: mid ++ ref :: post) = Some g1 →
  syntax_error g1 = 0 →
  declared_id decl = Some id →
  Forall (fun ln => declared_id ln ≠ Some id) mid →
  declared_id ref ≠ Some id →
  strtok ref = pfx ++ m :: String "$" d :: rest →
  pfx = [] ∨ (∃ lab, pfx = [lab] ∧ first_is "$" lab = true) →
  find_token m = Some t → tk_type t = LAB →
  parse_label d 10 4 9999 = id →
  ∃ gd gd' gr gr',
    second_pass g1 pre = Some gd
    ∧ asm_line true gd decl = Some gd'
    ∧ pass true gd' mid = Some gr
    ∧ asm_line true gr ref = Some gr'
    ∧ load (rom gr') (pc gr) = Some (Z.lor (Z.shiftl (tk_code t) 8) (pc gd))
    ∧ other_error gr' = other_error gr.
Proof.
  intros H1 Hse Hdecl Hmid Href Htok Hpfx Hf Hty Hd.
  pose proof (declared_id_range _ _ Hdecl) as Hid.
  pose proof (first_pass_inv _ _ _ H1) as [Hwf1 _].
  destruct (second_pass_total _ _ _ H1 Hse) as (g2 & H2 & _).
  unfold second_pass in *.
  apply pass_app_inv in H2 as (gd & Hpa & H2).
  apply pass_cons_inv in H2 as (gd' & Hpb & H2).
  apply pass_app_inv in H2 as (gr & Hpc & H2).
  apply pass_cons_inv in H2 as (gr' & Hpd & _).
  pose proof (pass_inv _ _ _ _ (wf_set_pc 0 _ Hwf1) Hpa) as [Hwa _].
  pose proof (asm_line_inv _ _ _ _ Hwa Hpb) as [Hwb _].
  pose proof (pass_inv _ _ _ _ Hwb Hpc) as [Hwc _].
  assert (load (label gr) id = Some (pc gd)) as Hl.
  { rewrite (pass_label_frame _ id _ _ _ (proj1 Hid) Hwb Hpc Hmid).
    by apply (asm_line_declares true gd decl). }
  assert (pc gd ≠ INVALID) as Hne.
  { pose proof (wf_pc _ Hwa). rewrite INVALID_eq. lia. }
  assert (tk_code t < ORG) as Hcode.
  { apply find_token_inv in Hf as [Hin _]. by apply token_LAB_instruction. }
  exists gd, gd', gr, gr'. split_and!; try done.
  - by destruct (asm_line_reference gr ref pfx m d rest t (pc gd) id gr'
                    Hwc Htok Hpfx Href (proj1 Hid) Hf Hcode Hd Hl Hne Hpd).
  - by destruct (asm_line_reference gr ref pfx m d rest t (pc gd) id gr'
                    Hwc Htok Hpfx Href (proj1 Hid) Hf Hcode Hd Hl Hne Hpd).
Qed.

Lemma backward_reference_witness :
  ∃ g1 gd gd' gr gr',
    first_pass zero_stack (["LDI 05"] ++ "$1 ADI 01" :: ["ADI 02"]
                           ++ "JMP $1" :: ["$1 LDI 00"]) = Some g1
    ∧ second_pass g1 ["LDI 05"] = Some gd
    ∧ asm_line true gd "$1 ADI 01" = Some gd'
    ∧ pass true gd' ["ADI 02"] = Some gr
    ∧ asm_line true gr "JMP $1" = Some gr'
    ∧ load (rom gr') (pc gr) = Some (Z.lor (Z.shiftl 0xB 8) (pc gd))
    ∧ other_error gr' = other_error gr.
Proof.
  assert (syntax_error <$> first_pass zero_stack
            (["LDI 05"] ++ "$1 ADI 01" :: ["ADI 02"]
             ++ "JMP $1" :: ["$1 LDI 00"]) = Some 0) as Hs
    by (vm_compute; reflexivity).
  destruct (first_pass zero_stack
              (["LDI 05"] ++ "$1 ADI 01" :: ["ADI 02"]
               ++ "JMP $1" :: ["$1 LDI 00"]))
    as [g1|] eqn:H1; [| discriminate Hs].
  injection Hs as Hs. exists g1.
  assert (Forall (fun ln => declared_id ln ≠ Some 1) ["ADI 02"]) as Hmid.
  { repeat constructor; vm_compute; congruence. }
  assert (declared_id "JMP $1" ≠ Some 1) as Href
    by (vm_compute; congruence).
  destruct (backward_reference zero_stack ["LDI 05"] ["ADI 02"]
              ["$1 LDI 00"] "$1 ADI 01" "JMP $1" g1 1 [] [] "JMP" "1"
              (Token "JMP" 0xB LAB) H1 Hs eq_refl Hmid Href eq_refl
              (or_introl eq_refl) eq_refl eq_refl eq_refl)
    as (gd & gd' & gr & gr' & Ha & Hb & Hc & Hd & He & Hf).
  exists gd, gd', gr, gr'. split; [reflexivity |].
  split_and!; [exact Ha | exact Hb | exact Hc | exact Hd | exact He
               | exact Hf].
Defined.

(** ** The layout of the hex file *)

(** X22. The hex file. From a [rom] of 256 words the two loops write 16
    rows of 16 words, and the word in column [j] of row [i] is the word
    of [rom] at address [16 i + j]. *)
Theorem hexdump_layout (r : list Z) :
  length r = Z.to_nat 256 →
  ∃ h, hexdump r = Some h
       ∧ length h = 16%nat
       ∧ (∀ row, row ∈ h → length row = 16%nat)
       ∧ ∀ i j : nat, (i < 16)%nat → (j < 16)%nat →
           (row ← h !! i; row !! j) = r !! (16 * i + j)%nat.
Proof.
  intros Hlen. destruct (hexdump_total r Hlen) as [h Hh].
  exists h. split; [done |]. split; [| split].
  - apply length_mapM in Hh. by rewrite <- Hh.
  - intros row Hin. apply mapM_Some_1 in Hh.
    apply list_elem_of_lookup in Hin as [i Hi].
    destruct (Forall2_lookup_r _ _ _ _ _ Hh Hi) as (x & _ & Hrow).
    apply length_mapM in Hrow. by rewrite <- Hrow.
  - intros i j Hi Hj.
    pose proof (hexdump_word r h (Z.of_nat (16 * i + j)) Hh ltac:(lia)) as Hw.
    unfold hex_word, load in Hw.
    replace (Z.of_nat (16 * i + j) / 16) with (Z.of_nat i) in Hw
      by (apply (Z.div_unique _ _ _ (Z.of_nat j)); lia).
    replace (Z.of_nat (16 * i + j) mod 16) with (Z.of_nat j) in Hw
      by (apply (Z.mod_unique _ _ (Z.of_nat i)); lia).
    by rewrite !Nat2Z.id in Hw.
Qed.

Lemma hexdump_layout_witness :
  ∃ h, hexdump (rom (init zero_stack)) = Some h ∧ length h = 16%nat.
Proof.
  destruct (hexdump_layout (rom (init zero_stack)) eq_refl)
    as (h & Hh & Hl & _).
  exists h. split; [exact Hh | exact Hl].
Defined.

(** ** The listing buffer *)

Lemma store_char_Some b i c :
  0 ≤ i < Z.of_nat (length b) →
  store_char b i c = Some (<[Z.to_nat i := c]> b).
Proof.
  intros Hi. unfold store_char.
  destruct (Z.leb_spec 0 i); [| lia].
  destruct (Nat.ltb_spec (Z.to_nat i) (length b)); [done | lia].
Qed.

Lemma store_char_None b i c :
  0 ≤ i → Z.of_nat (length b) ≤ i → store_char b i c = None.
Proof.
  intros Hi Hlen. unfold store_char.
  destruct (Z.leb_spec 0 i); [| lia].
  destruct (Nat.ltb_spec (Z.to_nat i) (length b)); [lia | done].
Qed.

Lemma vsprintf_Some text : ∀ b pos,
  0 ≤ pos → pos + Z.of_nat (String.length text) < Z.of_nat (length b) →
  ∃ b', vsprintf b pos text = Some b'
        ∧ length b' = length b
        ∧ (∀ (k : nat) c, String.get k text = Some c →
                          b' !! (Z.to_nat pos + k)%nat = Some c)
        ∧ b' !! (Z.to_nat pos + String.length text)%nat = Some NUL
        ∧ (∀ i : nat, (Z.of_nat i < pos
                       ∨ pos + Z.of_nat (String.length text) < Z.of_nat i) →
                      b' !! i = b !! i).
Proof.
  induction text as [|c text IH]; intros b pos Hpos Hfit; simpl in *.
  - rewrite store_char_Some by lia. eexists. split; [done |].
    split; [by rewrite length_insert |]. split; [done |]. split.
    + rewrite Nat.add_0_r. apply list_lookup_insert_eq. lia.
    + intros i Hi. apply list_lookup_insert_ne. lia.
  - rewrite store_char_Some by lia. simpl.
    destruct (IH (<[Z.to_nat pos := c]> b) (pos + 1))
      as (b' & -> & Hlen & Htext & Hnul & Hframe);
      [lia | rewrite length_insert; lia |].
    rewrite length_insert in Hlen.
    exists b'. split; [done |]. split; [done |]. split; [| split].
    + intros [|k] c' Hk; simpl in Hk.
      * simplify_eq. rewrite Nat.add_0_r, Hframe by lia.
        apply list_lookup_insert_eq. lia.
      * replace (Z.to_nat pos + S k)%nat with (Z.to_nat (pos + 1) + k)%nat
          by lia. by apply Htext.
    + replace (Z.to_nat pos + S (String.length text))%nat
        with (Z.to_nat (pos + 1) + String.length text)%nat by lia. done.
    + intros i Hi. rewrite Hframe by lia. apply list_lookup_insert_ne. lia.
Qed.

Lemma vsprintf_None text : ∀ b pos,
  0 ≤ pos → Z.of_nat (length b) ≤ pos + Z.of_nat (String.length text) →
  vsprintf b pos text = None.
Proof.
  induction text as [|c text IH]; intros b pos Hpos Hfit; simpl in *.
  - apply store_char_None; lia.
  - unfold store_char. destruct (_ && _); [simpl | done].
    apply IH; [lia | rewrite length_insert; lia].
Qed.

Lemma get_no_nul text : ∀ (k : nat) c,
  no_nul text = true → String.get k text = Some c → c ≠ NUL.
Proof.
  induction text as [|c' text IH]; intros k c Hn Hk; simpl in *; [done |].
  apply andb_prop in Hn as [Hc Hn]. destruct k as [|k].
  - simplify_eq. intros ->. done.
  - by apply (IH k).
Qed.

Lemma get_in_range text : ∀ k : nat,
  (k < String.length text)%nat → ∃ c, String.get k text = Some c.
Proof.
  induction text as [|c' text IH]; intros k Hk; simpl in *; [lia |].
  destruct k as [|k]; [by eexists |]. apply IH. lia.
Qed.

Lemma get_Some_lt text : ∀ (k : nat) c,
  String.get k text = Some c → (k < String.length text)%nat.
Proof.
  induction text as [|c' text IH]; intros k c Hk; simpl in *; [done |].
  destruct k as [|k]; [lia |]. apply IH in Hk. lia.
Qed.

Lemma pa_inv_start :
  pa_inv (putatpos_set (replicate LST_LINE_WIDTH SPACE) 0).
Proof.
  split; cbn [pa_buf pa_end putatpos_set].
  - apply length_replicate.
  - unfold LST_LINE_WIDTH, LINE_WIDTH. lia.
  - intros i c Hi. lia.
  - intros i Hi. apply lookup_replicate_2. lia.
  - lia.
Qed.

Lemma putatpos_spec (st : putatpos_t) (pos : Z) (text : string) :
  pa_inv st → no_nul text = true → 0 ≤ pos →
  let pos' := pos + Z.of_nat (String.length text) in
  (pos' < Z.of_nat LST_LINE_WIDTH →
   ∃ st',
     putatpos st pos text = Some (st', pos')
     ∧ pa_inv st'
     ∧ pa_end st' = Z.max (pa_end st) pos'
     ∧ pa_buf st' !! Z.to_nat (pa_end st') = Some NUL
     ∧ (∀ (k : nat) c, String.get k text = Some c →
                       pa_buf st' !! (Z.to_nat pos + k)%nat = Some c)
     ∧ (∀ i : nat, Z.of_nat i < pos →
                   pa_buf st' !! i = if decide (Z.of_nat i < pa_end st)
                                     then pa_buf st !! i else Some SPACE)
     ∧ (pos' < pa_end st → pa_buf st' !! Z.to_nat pos' = Some SPACE)
     ∧ (∀ i : nat, pos' < Z.of_nat i < pa_end st →
                   pa_buf st' !! i = pa_buf st !! i))
  ∧ (Z.of_nat LST_LINE_WIDTH ≤ pos' → putatpos st pos text = None).
Proof.
  intros [Hlen Hend Htext Hblank Hterm] Hnn Hpos pos'. split.
  - intros Hfit. unfold putatpos. fold pos'.
    set (b1 := if pa_end st <? pos
               then <[Z.to_nat (pa_end st) := SPACE]> (pa_buf st)
               else pa_buf st).
    assert ((if pa_end st <? pos
             then store_char (pa_buf st) (pa_end st) SPACE
             else Some (pa_buf st)) = Some b1) as ->.
    { unfold b1. destruct (pa_end st <? pos); [| done].
      apply store_char_Some. lia. }
    assert (length b1 = LST_LINE_WIDTH) as Hlen1.
    { unfold b1. destruct (pa_end st <? pos);
        by rewrite ?length_insert. }
    assert (∀ i : nat, Z.of_nat i < pos →
              b1 !! i = if decide (Z.of_nat i < pa_end st)
                        then pa_buf st !! i else Some SPACE) as Hb1lo.
    { intros i Hi. unfold b1. destruct (Z.ltb_spec (pa_end st) pos).
      - destruct (decide (Z.of_nat i < pa_end st)).
        + apply list_lookup_insert_ne. lia.
        + destruct (decide (Z.of_nat i = pa_end st)) as [Heq | Hne].
          * rewrite <- Heq, Nat2Z.id. apply list_lookup_insert_eq. lia.
          * rewrite list_lookup_insert_ne by lia. apply Hblank. lia.
      - destruct (decide (Z.of_nat i < pa_end st)); [done | lia]. }
    assert (∀ i : nat, pos ≤ Z.of_nat i → Z.of_nat i ≠ pa_end st →
              b1 !! i = pa_buf st !! i) as Hb1hi.
    { intros i Hi Hne. unfold b1. destruct (pa_end st <? pos); [| done].
      apply list_lookup_insert_ne. lia. }
    assert (pos ≤ pa_end st → b1 = pa_buf st) as Hb1eq.
    { intros Hle. unfold b1.
      by destruct (Z.ltb_spec (pa_end st) pos); [lia |]. }
    cbn [mbind option_bind].
    destruct (vsprintf_Some text b1 pos Hpos)
      as (b2 & -> & Hlen2 & Hw & Hnul & Hframe); [fold pos'; lia |].
    fold pos' in Hframe. cbn [mbind option_bind].
    replace (Z.to_nat pos + String.length text)%nat with (Z.to_nat pos')
      in Hnul by (unfold pos'; lia).
    assert (∀ (i : nat) c, pos ≤ Z.of_nat i < pos' →
              b2 !! i = Some c → c ≠ NUL) as Hmid.
    { intros i c Hi Hc.
      destruct (get_in_range text (i - Z.to_nat pos))
        as [c' Hc']; [unfold pos' in Hi; lia |].
      pose proof (Hw _ _ Hc') as Hw'.
      replace (Z.to_nat pos + (i - Z.to_nat pos))%nat with i in Hw' by lia.
      rewrite Hw' in Hc. simplify_eq.
      by apply (get_no_nul text _ _ Hnn Hc'). }
    assert (∀ (i : nat) c, Z.of_nat i < pos →
              b2 !! i = Some c → c ≠ NUL) as Hlow.
    { intros i c Hi Hc. rewrite Hframe, Hb1lo in Hc by lia.
      destruct (decide (Z.of_nat i < pa_end st)); [by apply (Htext i) |].
      by simplify_eq. }
    destruct (Z.ltb_spec pos' (pa_end st)) as [Hlt | Hge].
    + rewrite store_char_Some by lia. cbn [mbind option_bind].
      eexists. split; [done |]. cbn [pa_buf pa_end].
      split; [| split; [lia |]; split; [| split; [| split; [| split]]]].
      * split; cbn [pa_buf pa_end].
        -- rewrite length_insert. congruence.
        -- done.
        -- intros i c Hi Hc.
           destruct (decide (i = Z.to_nat pos')) as [-> | Hne].
           { rewrite list_lookup_insert_eq in Hc by lia. by simplify_eq. }
           rewrite list_lookup_insert_ne in Hc by done.
           destruct (decide (Z.of_nat i < pos)) as [Hlo | Hhi];
             [by apply (Hlow i) |].
           destruct (decide (Z.of_nat i < pos')) as [Hin | Hout];
             [apply (Hmid i); [lia | done] |].
           rewrite Hframe, Hb1hi in Hc by lia. by apply (Htext i).
        -- intros i Hi. rewrite list_lookup_insert_ne by lia.
           rewrite Hframe, Hb1hi by lia. apply Hblank. lia.
        -- intros _. rewrite list_lookup_insert_ne by lia.
           rewrite Hframe by lia. rewrite Hb1eq by lia. apply Hterm. lia.
      * rewrite list_lookup_insert_ne by lia.
        rewrite Hframe by lia. rewrite Hb1eq by lia. apply Hterm. lia.
      * intros k c Hk. rewrite list_lookup_insert_ne.
        -- by apply Hw.
        -- pose proof (get_Some_lt _ _ _ Hk). unfold pos'. lia.
      * intros i Hi. rewrite list_lookup_insert_ne by lia.
        rewrite Hframe by lia. by apply Hb1lo.
      * intros _. apply list_lookup_insert_eq. lia.
      * intros i Hi. rewrite list_lookup_insert_ne by lia.
        rewrite Hframe, Hb1hi by lia. done.
    + eexists. split; [done |]. cbn [pa_buf pa_end].
      split; [| split; [lia |]; split; [| split; [| split; [| split]]]].
      * split; cbn [pa_buf pa_end].
        -- congruence.
        -- unfold pos'. lia.
        -- intros i c Hi Hc.
           destruct (decide (Z.of_nat i < pos)) as [Hlo | Hhi];
             [by apply (Hlow i) |].
           apply (Hmid i); [lia | done].
        -- intros i Hi. rewrite Hframe, Hb1hi by lia. apply Hblank. lia.
        -- done.
      * done.
      * done.
      * intros i Hi. rewrite Hframe by lia. by apply Hb1lo.
      * lia.
      * intros i Hi. lia.
  - intros Hover. unfold putatpos. fold pos'.
    destruct (pa_end st <? pos).
    + rewrite store_char_Some by lia. cbn [mbind option_bind].
      rewrite vsprintf_None; [done | lia |].
      rewrite length_insert. fold pos'. lia.
    + cbn [mbind option_bind].
      rewrite vsprintf_None; [done | lia |]. fold pos'. lia.
Qed.

(** X23. [putatpos]. On the buffer of a listing line, blank at first,
    a call at a position with a text that holds no terminator and ends
    before the last character of the buffer returns the position after
    the text; [end] becomes the larger of the old [end] and that
    position, the terminator of the line is at [end] and nowhere before
    it, the text is at its position, the characters before the position
    are those of the line so far and blanks after them, and of the
    characters behind the text the first is replaced by a blank and the
    others up to [end] stay. For a text that would reach the last
    character of the buffer or pass it, the terminator is written
    outside the buffer. *)
Theorem putatpos_writes (st : putatpos_t) (pos : Z) (text : string) :
  pa_inv st → no_nul text = true → 0 ≤ pos →
  let pos' := pos + Z.of_nat (String.length text) in
  (pos' < Z.of_nat LST_LINE_WIDTH →
   ∃ st',
     putatpos st pos text = Some (st', pos')
     ∧ pa_inv st'
     ∧ pa_end st' = Z.max (pa_end st) pos'
     ∧ pa_buf st' !! Z.to_nat (pa_end st') = Some NUL
     ∧ (∀ (k : nat) c, String.get k text = Some c →
                       pa_buf st' !! (Z.to_nat pos + k)%nat = Some c)
     ∧ (∀ i : nat, Z.of_nat i < pos →
                   pa_buf st' !! i = if decide (Z.of_nat i < pa_end st)
                                     then pa_buf st !! i else Some SPACE)
     ∧ (pos' < pa_end st → pa_buf st' !! Z.to_nat pos' = Some SPACE)
     ∧ (∀ i : nat, pos' < Z.of_nat i < pa_end st →
                   pa_buf st' !! i = pa_buf st !! i))
  ∧ (Z.of_nat LST_LINE_WIDTH ≤ pos' → putatpos st pos text = None).
Proof. exact (putatpos_spec st pos text). Qed.

Lemma putatpos_writes_witness :
  ∃ st',
    putatpos (putatpos_set (replicate LST_LINE_WIDTH SPACE) 0) 12 "D0A"
    = Some (st', 15)
    ∧ pa_end st' = 15
    ∧ pa_buf st' !! 15%nat = Some NUL
    ∧ pa_buf st' !! 12%nat = Some "D"%char
    ∧ pa_buf st' !! 0%nat = Some SPACE.
Proof.
  destruct (putatpos_writes (putatpos_set (replicate LST_LINE_WIDTH SPACE) 0)
              12 "D0A" pa_inv_start eq_refl ltac:(lia)) as [H _].
  destruct (H ltac:(vm_compute; reflexivity))
    as (st' & Hput & _ & Hend & Hnul & Htext & Hlow & _).
  exists st'. split; [exact Hput |]. split; [exact Hend |].
  split; [rewrite Hend in Hnul; exact Hnul |].
  split; [exact (Htext 0%nat "D"%char eq_refl) |].
  exact (Hlow 0%nat ltac:(lia)).
Defined.

(** ** The listing line *)

Lemma c_chars_take (b : list ascii) : ∀ n : nat,
  (∀ (i : nat) c, (i < n)%nat → b !! i = Some c → c ≠ NUL) →
  b !! n = Some NUL →
  c_chars b = Some (take n b).
Proof.
  induction b as [|x b IH]; intros n Htext Hnul; [done |].
  destruct n as [|n]; simpl in *.
  - by simplify_eq.
  - destruct (Ascii.eqb_spec x NUL) as [-> | _].
    + by destruct (Htext 0%nat NUL ltac:(lia) eq_refl).
    + rewrite (IH n); [done | | done].
      intros i c Hi Hc. apply (Htext (S i)); [lia | done].
Qed.

Lemma get_list_ascii (s : string) : ∀ k : nat,
  String.get k s = list_ascii_of_string s !! k.
Proof.
  induction s as [|c s IH]; intros k; simpl; [done |].
  destruct k as [|k]; [done |]. apply IH.
Qed.

Lemma length_list_ascii (s : string) :
  length (list_ascii_of_string s) = String.length s.
Proof. induction s as [|c s IH]; simpl; [done | by rewrite IH]. Qed.

(** A text put at the end of the line so far or behind it. *)
Lemma putatpos_append (st : putatpos_t) (pos : Z) (text : string) :
  pa_inv st → no_nul text = true → pa_end st ≤ pos →
  pos + Z.of_nat (String.length text) < Z.of_nat LST_LINE_WIDTH →
  ∃ st',
    putatpos st pos text
    = Some (st', pos + Z.of_nat (String.length text))
    ∧ pa_inv st'
    ∧ pa_end st' = pos + Z.of_nat (String.length text)
    ∧ pa_buf st' !! Z.to_nat (pa_end st') = Some NUL
    ∧ take (Z.to_nat (pa_end st')) (pa_buf st')
      = take (Z.to_nat (pa_end st)) (pa_buf st)
        ++ replicate (Z.to_nat pos - Z.to_nat (pa_end st)) SPACE
        ++ list_ascii_of_string text.
Proof.
  intros Hinv Hnn Hle Hfit.
  pose proof (pa_range _ Hinv) as Hend.
  pose proof (pa_length _ Hinv) as Hlen.
  destruct (putatpos_spec st pos text Hinv Hnn ltac:(lia)) as [H _].
  destruct (H Hfit) as (st' & Hput & Hinv' & Hend' & Hnul & Htext & Hlow & _).
  exists st'. split; [done |]. split; [done |].
  assert (pa_end st' = pos + Z.of_nat (String.length text)) as He by lia.
  split; [done |]. split; [done |].
  pose proof (pa_length _ Hinv') as Hlen'.
  apply list_eq. intros i. rewrite He.
  destruct (decide (Z.of_nat i < pos + Z.of_nat (String.length text)))
    as [Hi | Hi].
  2: { rewrite !(proj2 (lookup_ge_None _ _)); [done | |].
       - rewrite !length_app, length_take, length_replicate,
           length_list_ascii. lia.
       - rewrite length_take. lia. }
  rewrite lookup_take_lt by lia.
  destruct (decide (Z.of_nat i < pa_end st)) as [Hlo | Hhi].
  { rewrite lookup_app_l by (rewrite length_take; lia).
    rewrite lookup_take_lt by lia. rewrite Hlow by lia.
    by destruct (decide (Z.of_nat i < pa_end st)). }
  rewrite lookup_app_r by (rewrite length_take; lia).
  rewrite length_take, Hlen.
  replace (Z.to_nat (pa_end st) `min` LST_LINE_WIDTH)%nat
    with (Z.to_nat (pa_end st)) by lia.
  destruct (decide (Z.of_nat i < pos)) as [Hmid | Hin].
  { rewrite lookup_app_l by (rewrite length_replicate; lia).
    rewrite lookup_replicate_2 by lia. rewrite Hlow by lia.
    by destruct (decide (Z.of_nat i < pa_end st)). }
  rewrite lookup_app_r by (rewrite length_replicate; lia).
  rewrite length_replicate.
  destruct (get_in_range text (i - Z.to_nat pos)) as [c Hc]; [lia |].
  pose proof (Htext _ _ Hc) as Hw.
  replace (Z.to_nat pos + (i - Z.to_nat pos))%nat with i in Hw by lia.
  rewrite Hw, <- get_list_ascii, <- Hc. f_equal. lia.
Qed.

Lemma fields_fit_bound fs : ∀ e,
  fields_fit e fs = true → e < Z.of_nat LST_LINE_WIDTH - 1.
Proof.
  induction fs as [|[pos text] fs IH]; intros e H; simpl in H.
  - by apply Z.ltb_lt.
  - apply andb_prop in H as [H Hfs]. apply andb_prop in H as [Hle _].
    apply IH in Hfs. apply Z.leb_le in Hle. lia.
Qed.

Lemma put_fields_layout fs : ∀ st,
  pa_inv st → fields_fit (pa_end st) fs = true →
  ∃ st',
    put_fields st fs = Some st'
    ∧ pa_inv st'
    ∧ pa_end st' < Z.of_nat LST_LINE_WIDTH - 1
    ∧ (fs ≠ [] → pa_buf st' !! Z.to_nat (pa_end st') = Some NUL)
    ∧ take (Z.to_nat (pa_end st')) (pa_buf st')
      = layout (take (Z.to_nat (pa_end st)) (pa_buf st)) fs.
Proof.
  induction fs as [|[pos text] fs IH]; intros st Hinv Hfit.
  - exists st. split; [done |]. split; [done |].
    split; [by apply (fields_fit_bound [])|]. done.
  - simpl in Hfit. apply andb_prop in Hfit as [Hfit Hfs].
    apply andb_prop in Hfit as [Hle Hnn]. apply Z.leb_le in Hle.
    pose proof (fields_fit_bound _ _ Hfs) as Hb.
    destruct (putatpos_append st pos text Hinv Hnn Hle ltac:(lia))
      as (st1 & Hput & Hinv1 & Hend1 & Hnul1 & Htake).
    rewrite <- Hend1 in Hfs.
    destruct (IH st1 Hinv1 Hfs) as (st' & Hfs' & Hinv' & Hend' & Hnul' & Hl).
    exists st'. cbn [put_fields]. rewrite Hput. cbn [mbind option_bind fst].
    split; [done |]. split; [done |]. split; [done |]. split.
    + intros _. destruct fs as [|f fs]; [| by apply Hnul'].
      simpl in Hfs'. by simplify_eq.
    + rewrite Hl, Htake. cbn [layout]. do 2 f_equal.
      pose proof (pa_range _ Hinv). pose proof (pa_length _ Hinv).
      rewrite length_take. do 2 f_equal. lia.
Qed.

Lemma layout_length fs : ∀ acc, (length acc ≤ length (layout acc fs))%nat.
Proof.
  induction fs as [|[pos text] fs IH]; intros acc; simpl; [done |].
  etrans; [| apply IH]. rewrite length_app. lia.
Qed.

Lemma c_chars_no_nul (b s : list ascii) :
  c_chars b = Some s → Forall (fun c => c ≠ NUL) s.
Proof.
  revert s. induction b as [|x b IH]; intros s H; simpl in H; [done |].
  destruct (Ascii.eqb_spec x NUL) as [-> | Hx]; [by simplify_eq |].
  destruct (c_chars b) as [s'|]; simpl in H; [| done]. simplify_eq.
  constructor; [done | by apply IH].
Qed.

(** The end of the line on a buffer that holds a text of at least one
    character. *)
Lemma end_line_text (st : putatpos_t) :
  pa_inv st → 0 < pa_end st < Z.of_nat LST_LINE_WIDTH - 1 →
  ∃ b, end_line (pa_buf st) = Some b
       ∧ c_chars b
         = Some (with_line_feed (take (Z.to_nat (pa_end st)) (pa_buf st))).
Proof.
  intros Hinv Hend.
  pose proof (pa_length _ Hinv) as Hlen.
  pose proof (pa_term _ Hinv ltac:(lia)) as Hnul.
  assert (∀ (i : nat) c, (i < Z.to_nat (pa_end st))%nat →
            pa_buf st !! i = Some c → c ≠ NUL) as Htext.
  { intros i c Hi. apply (pa_text _ Hinv). lia. }
  pose proof (c_chars_take _ _ Htext Hnul) as Hc.
  unfold end_line. rewrite Hc. cbn [mbind option_bind].
  rewrite length_take, Hlen.
  replace (Z.to_nat (pa_end st) `min` LST_LINE_WIDTH)%nat
    with (Z.to_nat (pa_end st)) by lia.
  rewrite Z2Nat.id by lia.
  replace (pa_end st - 1 + 1) with (pa_end st) by lia.
  replace (pa_end st - 1 + 2) with (pa_end st + 1) by lia.
  destruct (Z.leb_spec 0 (pa_end st - 1)); [| lia].
  destruct (lookup_lt_is_Some_2 (pa_buf st) (Z.to_nat (pa_end st - 1)))
    as [c Hlast]; [lia |].
  rewrite Hlast. cbn [mbind option_bind].
  assert (last (take (Z.to_nat (pa_end st)) (pa_buf st)) = Some c) as Hl.
  { rewrite last_lookup, length_take, Hlen.
    replace (Z.to_nat (pa_end st) `min` LST_LINE_WIDTH)%nat
      with (Z.to_nat (pa_end st)) by lia.
    rewrite lookup_take_lt by lia. rewrite <- Hlast. f_equal. lia. }
  unfold with_line_feed. rewrite Hl.
  destruct (Ascii.eqb c LFc); [by eexists |].
  rewrite store_char_Some by lia. cbn [mbind option_bind].
  rewrite store_char_Some by (rewrite length_insert; lia).
  eexists. split; [done |].
  replace (Z.to_nat (pa_end st + 1)) with (S (Z.to_nat (pa_end st))) by lia.
  rewrite (c_chars_take _ (S (Z.to_nat (pa_end st)))).
  - f_equal. rewrite (take_S_r _ _ LFc).
    + f_equal. rewrite take_insert_ge by lia. rewrite take_insert_ge by lia.
      done.
    + rewrite list_lookup_insert_ne by lia.
      apply list_lookup_insert_eq. lia.
  - intros i c' Hi Hc'. rewrite list_lookup_insert_ne in Hc' by lia.
    destruct (decide (i = Z.to_nat (pa_end st))) as [-> | Hne].
    + rewrite list_lookup_insert_eq in Hc' by lia. by simplify_eq.
    + rewrite list_lookup_insert_ne in Hc' by lia.
      apply (Htext i); [lia | done].
  - apply list_lookup_insert_eq. rewrite length_insert. lia.
Qed.

(** X24. The layout of a listing line. When every text of a listing
    line starts at the end of the text before it or later, the line
    written to the listing is the texts in their order, each at its
    column with blanks before it, and a line feed after the last one
    unless the line ends with a line feed already. *)
Theorem listing_line_layout (line_cnt : Z) (g : asm_state) (l : line_vars)
    (comment : option string) (fs : list (Z * string)) :
  listing_fields line_cnt g l comment = Some fs →
  fields_fit 0 fs = true →
  listing_line line_cnt g l comment
  = Some (string_of_list_ascii (with_line_feed (layout [] fs))).
Proof.
  intros Hfs Hfit. unfold listing_line. rewrite Hfs.
  cbn [mbind option_bind].
  destruct (put_fields_layout fs _ pa_inv_start Hfit)
    as (st & -> & Hinv & Hend & _ & Hl).
  cbn [mbind option_bind]. cbn [pa_end putatpos_set] in Hl.
  change (Z.to_nat 0) with 0%nat in Hl. rewrite take_0 in Hl.
  assert (0 < pa_end st) as Hpos.
  { assert (0 < length (layout [] fs))%nat as Hlen.
    { unfold listing_fields in Hfs.
      destruct (if reached_OPERAND (parser_state l) && (opcode l <? ORG)
                then _ else _) as [word|]; [| done].
      cbn [mbind option_bind] in Hfs.
      destruct (if reached_OPERAND (parser_state l) then _ else _)
        as [mnemonic|]; [| done].
      cbn [mbind option_bind] in Hfs. simplify_eq. cbn [app layout].
      eapply Nat.lt_le_trans; [| apply layout_length].
      rewrite !length_app, length_list_ascii, !str_app_length. simpl. lia. }
    rewrite <- Hl, length_take in Hlen. lia. }
  destruct (end_line_text st Hinv ltac:(lia)) as (b & -> & Hb).
  cbn [mbind option_bind]. rewrite Hb, Hl. done.
Qed.

Lemma listing_line_layout_witness :
  listing_line 3 (set_pc 7 (init zero_stack))
    (Line 1 INVALID (Some IMM) 0xD (Some "LDI") 5 COMMENT) (Some "; five")
  = Some "   3:   07  000         $1      LDI      05     ; five
".
Proof.
  eapply eq_trans.
  - eapply listing_line_layout; [reflexivity | vm_compute; reflexivity].
  - vm_compute. reflexivity.
Defined.

(** ** The listing line never leaves its buffer *)

Lemma digit_char_code (d : Z) :
  0 ≤ d < 16 →
  char_code (digit_char d) = if d <? 10 then 48 + d else 55 + d.
Proof.
  intros Hd. unfold char_code, digit_char.
  rewrite N_ascii_embedding; destruct (d <? 10); lia.
Qed.

Lemma utoa_aux_length (fuel : nat) : ∀ base n acc,
  (String.length (utoa_aux fuel base n acc) ≤ fuel + String.length acc)%nat.
Proof.
  induction fuel as [|fuel IH]; intros base n acc; simpl; [done |].
  destruct (n / base =? 0); simpl; [lia |].
  etrans; [apply IH |]. simpl. lia.
Qed.

Lemma utoa_aux_nonempty (fuel : nat) : ∀ base n acc,
  (String.length acc ≤ String.length (utoa_aux fuel base n acc))%nat.
Proof.
  induction fuel as [|fuel IH]; intros base n acc; simpl; [done |].
  destruct (n / base =? 0); simpl; [lia |].
  etrans; [| apply IH]. simpl. lia.
Qed.

Lemma utoa_aux_no_nul (fuel : nat) : ∀ base n acc,
  0 < base ≤ 16 → no_nul acc = true →
  no_nul (utoa_aux fuel base n acc) = true.
Proof.
  induction fuel as [|fuel IH]; intros base n acc Hb Hacc; simpl; [done |].
  assert (no_nul (String (digit_char (n mod base)) acc) = true) as Hc.
  { simpl. rewrite Hacc, andb_true_r. apply negb_true_iff, Z.eqb_neq.
    pose proof (Z.mod_pos_bound n base ltac:(lia)).
    rewrite digit_char_code by lia. destruct (_ <? 10); lia. }
  destruct (n / base =? 0); [done |]. by apply IH.
Qed.

Lemma utoa_facts (base n : Z) :
  0 < base ≤ 16 →
  no_nul (utoa base n) = true ∧ (String.length (utoa base n) ≤ 32)%nat.
Proof.
  intros Hb. split.
  - by apply utoa_aux_no_nul.
  - etrans; [apply utoa_aux_length |]. simpl. lia.
Qed.

Lemma str_repeat_facts (c : ascii) (n : nat) :
  c ≠ NUL →
  no_nul (str_repeat c n) = true ∧ String.length (str_repeat c n) = n.
Proof.
  intros Hc. induction n as [|n [IH1 IH2]]; [done |]. simpl.
  rewrite IH1, IH2, andb_true_r. split; [| done].
  apply negb_true_iff, Z.eqb_neq. intros Hz. apply Hc.
  unfold char_code in Hz. rewrite <- (ascii_N_embedding c).
  replace (N_of_ascii c) with 0%N by lia. done.
Qed.

Lemma pad_left_facts (c : ascii) (width : nat) (s : string) (k : nat) :
  c ≠ NUL → no_nul s = true → (String.length s ≤ k)%nat →
  no_nul (pad_left c width s) = true
  ∧ (String.length (pad_left c width s) ≤ width + k)%nat.
Proof.
  intros Hc Hs Hk. unfold pad_left.
  destruct (str_repeat_facts c (width - String.length s) Hc) as [Hn Hl].
  split; [by apply no_nul_app |]. rewrite str_app_length, Hl. lia.
Qed.

Lemma text_le_short (k : nat) (s : string) :
  text_le k s → Z.of_nat k ≤ 255 → short_text s.
Proof. intros [H1 H2] H3. split; [exact H1 | lia]. Qed.

Lemma text_le_app (k1 k2 : nat) (a b : string) :
  text_le k1 a → text_le k2 b → text_le (k1 + k2) (a +:+ b).
Proof.
  intros [Ha1 Ha2] [Hb1 Hb2]. split.
  - by apply no_nul_app.
  - rewrite str_app_length. lia.
Qed.

Lemma text_le_pad (c : ascii) (width k : nat) (s : string) :
  c ≠ NUL → text_le k s → text_le (width + k) (pad_left c width s).
Proof. intros Hc [H1 H2]. exact (pad_left_facts c width s k Hc H1 H2). Qed.

Lemma fmt_le (n : Z) :
  text_le 32 (fmt_u n) ∧ text_le (4 + 32) (fmt_4u n)
  ∧ text_le (2 + 32) (fmt_02X n) ∧ text_le (3 + 32) (fmt_03X n)
  ∧ text_le (3 + (2 + 32)) (fmt_3_02X n)
  ∧ text_le (4 + (3 + 32)) (fmt_4_03X n).
Proof.
  pose proof (utoa_facts 10 n ltac:(lia)) as Hd.
  pose proof (utoa_facts 16 n ltac:(lia)) as Hx.
  assert (" "%char ≠ NUL) as Hs by discriminate.
  assert ("0"%char ≠ NUL) as Hz by discriminate.
  unfold fmt_u, fmt_4u, fmt_02X, fmt_03X, fmt_3_02X, fmt_4_03X.
  split; [exact Hd |].
  split; [exact (text_le_pad _ 4 _ _ Hs Hd) |].
  split; [exact (text_le_pad _ 2 _ _ Hz Hx) |].
  split; [exact (text_le_pad _ 3 _ _ Hz Hx) |].
  split.
  - exact (text_le_pad _ 3 _ _ Hs (text_le_pad _ 2 _ _ Hz Hx)).
  - exact (text_le_pad _ 4 _ _ Hs (text_le_pad _ 3 _ _ Hz Hx)).
Qed.

Lemma text_le_marker (c : ascii) (k : nat) (s : string) :
  c ≠ NUL → text_le k s → text_le (S k) (String c s).
Proof.
  intros Hc [H1 H2]. split; [| simpl; lia]. simpl. rewrite H1, andb_true_r.
  apply negb_true_iff, Z.eqb_neq. intros Hz0. apply Hc.
  unfold char_code in Hz0. rewrite <- (ascii_N_embedding c).
  replace (N_of_ascii c) with 0%N by lia. done.
Qed.

(** The calls of [putatpos] in any order of the positions. *)
Lemma put_fields_safe fs : ∀ st,
  pa_inv st → pa_end st < 400 →
  Forall (fun f => 0 ≤ f.1 ≤ 48 ∧ short_text f.2) fs →
  ∃ st', put_fields st fs = Some st' ∧ pa_inv st'
         ∧ pa_end st ≤ pa_end st' < 400
         ∧ Forall (fun f => f.1 + Z.of_nat (String.length f.2) ≤ pa_end st')
                  fs.
Proof.
  induction fs as [|[pos text] fs IH]; intros st Hinv Hend Hfs.
  - exists st. split_and!; try done; lia.
  - apply Forall_cons in Hfs as [[Hpos [Hnn Hlen]] Hfs]. simpl in Hpos.
    destruct (putatpos_spec st pos text Hinv Hnn ltac:(lia)) as [H _].
    destruct H as (st1 & Hput & Hinv1 & Hend1 & _).
    { unfold LST_LINE_WIDTH, LINE_WIDTH. simpl in Hlen. lia. }
    simpl in Hlen.
    destruct (IH st1 Hinv1 ltac:(lia) Hfs)
      as (st' & Hfs' & Hinv' & Hend' & Hall).
    exists st'. cbn [put_fields]. rewrite Hput. cbn [mbind option_bind fst].
    split; [exact Hfs' |]. split; [exact Hinv' |]. split; [lia |].
    constructor; [simpl; lia | exact Hall].
Qed.

Lemma token_name_short (t : token_t) : t ∈ token → short_text (tk_name t).
Proof.
  intros Hin. apply (text_le_short 3); [| lia].
  apply list_elem_of_In in Hin. simpl in Hin.
  repeat (destruct Hin as [<- | Hin]; [split; [reflexivity | simpl; lia] |]).
  destruct Hin.
Qed.

Lemma table_name_init : table_name line_init.
Proof. intros n Hn. discriminate Hn. Qed.

Lemma on_token_table_name sp g l p g' l' :
  table_name l → on_token sp g l p = Some (Next g' l') → table_name l'.
Proof.
  intros Hl H n. destruct l as [a b ty oc nm op st].
  unfold table_name in Hl. simpl in Hl.
  token_cases H; simpl; intros Hn; simplify_eq; try (by apply Hl).
  all: match goal with
       | Hf : find_token _ = Some ?t |- _ =>
           exists t; split; [by apply find_token_inv in Hf as [? _] | done]
       end.
Qed.

Lemma token_loop_table_name sp ps : ∀ g l g' l',
  table_name l → token_loop sp g l ps = Some (Listing g' l') →
  table_name l'.
Proof.
  induction ps as [|p ps IH]; intros g l g' l' Hl H; simpl in H.
  - by simplify_eq.
  - destruct (on_token sp g l p) as [[g1 l1 | g1 l1 | m q] |] eqn:Ht;
      simplify_eq.
    + eapply IH; [| done]. by eapply on_token_table_name.
    + by apply on_token_listing in Ht as [-> ->].
Qed.

Lemma str_drop_short (s : string) : ∀ n : nat,
  short_text s → short_text (str_drop n s).
Proof.
  induction s as [|c s IH]; intros n Hs; [by destruct n |].
  destruct n as [|n]; [exact Hs |]. simpl. apply IH.
  destruct Hs as [Hn Hl]. simpl in Hn, Hl. apply andb_prop in Hn as [_ Hn].
  split; [exact Hn | lia].
Qed.

Lemma listing_fields_short line_cnt g l comment fs :
  table_name l → (∀ c, comment = Some c → short_text c) →
  listing_fields line_cnt g l comment = Some fs →
  Forall (fun f => 0 ≤ f.1 ≤ 48 ∧ short_text f.2) fs
  ∧ ∃ text fs', fs = (0, text) :: fs' ∧ (0 < String.length text)%nat.
Proof.
  intros Hname Hcomment Hfs. unfold listing_fields in Hfs.
  assert ("$"%char ≠ NUL) as Hd by discriminate.
  assert ("%"%char ≠ NUL) as Hp by discriminate.
  destruct (if reached_OPERAND (parser_state l) && (opcode l <? ORG)
            then _ else _) as [word|] eqn:Hword; [| discriminate Hfs].
  cbn [mbind option_bind] in Hfs.
  destruct (if reached_OPERAND (parser_state l) then _ else _)
    as [mnemonic|] eqn:Hmn; [| discriminate Hfs].
  cbn [mbind option_bind] in Hfs. injection Hfs as <-. split.
  - cbn [app]. constructor;
      [| apply Forall_app; split;
           [| apply Forall_app; split; [| apply Forall_app; split]]].
    + cbn [fst snd]. split; [lia |].
      destruct (fmt_le line_cnt) as (_ & H1 & _).
      destruct (fmt_le (pc g)) as (_ & _ & H2 & _).
      assert (text_le 4 ":   ") as H3 by (split; [reflexivity | simpl; lia]).
      apply (text_le_short _ _ (text_le_app _ _ _ _ H1
                                  (text_le_app _ _ _ _ H3 H2))). lia.
    + destruct (reached_OPERAND (parser_state l) && (opcode l <? ORG));
        [| injection Hword as <-; constructor].
      destruct (load (rom g) (pc g)) as [w|]; [| discriminate Hword].
      cbn [mbind option_bind] in Hword. injection Hword as <-.
      constructor; [| constructor]. cbn [fst snd]. split; [lia |].
      destruct (fmt_le w) as (_ & _ & _ & H & _).
      apply (text_le_short _ _ H). lia.
    + destruct (negb (lnum l =? INVALID)); [| constructor].
      constructor; [| constructor]. cbn [fst snd]. split; [lia |].
      destruct (fmt_le (lnum l)) as (H & _).
      apply (text_le_short _ _ (text_le_marker _ _ _ Hd H)). lia.
    + destruct (reached_OPERAND (parser_state l));
        [| injection Hmn as <-; constructor].
      destruct (name l) as [n|] eqn:Hn; [| discriminate Hmn].
      cbn [mbind option_bind] in Hmn. injection Hmn as <-.
      constructor; [| constructor; [| constructor]]; cbn [fst snd].
      * split; [lia |].
        destruct (Hname n Hn) as (t & Hin & ->).
        exact (token_name_short t Hin).
      * split; [lia |].
        destruct (fmt_le (olnum l)) as (H1 & _).
        destruct (fmt_le (operand l)) as (_ & _ & H2 & _ & H3 & _).
        destruct (negb (olnum l =? INVALID)).
        { apply (text_le_short _ _ (text_le_marker _ _ _ Hd H1)). lia. }
        destruct (is_type REG (optype l)).
        { apply (text_le_short _ _ (text_le_marker _ _ _ Hp H2)). lia. }
        apply (text_le_short _ _ H3). lia.
    + destruct comment as [c|]; [| constructor].
      constructor; [| constructor]. cbn [fst snd]. split; [lia |].
      by apply Hcomment.
  - eexists _, _. split; [reflexivity |]. rewrite !str_app_length.
    simpl. lia.
Qed.

(** X25. The listing line stays in its buffer. For a buffer of at most
    255 characters without a terminator, as [fgets] fills it, a line
    that either pass reads without counting a syntax error has a
    listing line: every call of [putatpos] and the line feed after them
    stay inside [lst_line], and the line written holds no terminator
    and ends with a line feed. *)
Theorem lst_line_written (second_pass : bool) (line_cnt : Z) (g g' : asm_state)
    (line_buf : string) :
  wf g → no_nul line_buf = true → (String.length line_buf ≤ 255)%nat →
  asm_line second_pass g line_buf = Some g' →
  syntax_error g' = syntax_error g →
  ∃ text,
    lst_line second_pass line_cnt g line_buf = Some (Some text)
    ∧ no_nul text = true
    ∧ last (list_ascii_of_string text) = Some LFc.
Proof.
  intros Hwf Hnn Hlen H Hse.
  assert (short_text line_buf) as Hline.
  { split; [exact Hnn |]. unfold LINE_WIDTH in Hlen. lia. }
  clear Hlen. unfold asm_line in H. unfold lst_line.
  destruct (str_toupper line_buf) as [src|] eqn:Hup; [| done].
  cbn [mbind option_bind] in *.
  destruct (token_loop second_pass g line_init (strtok src))
    as [[g1 l1 | g1 m q] |] eqn:He; [| | done]; cbn [mbind option_bind] in *.
  2: { pose proof (token_loop_inv _ _ _ _ _ Hwf He) as [_ Hs].
       simplify_eq. simpl in Hse. lia. }
  pose proof (token_loop_inv _ _ _ _ _ Hwf He) as [Hwf1 _].
  assert (table_name l1) as Hname.
  { apply (token_loop_table_name _ _ _ _ _ _ table_name_init He). }
  set (comment := comment_of second_pass g line_buf src).
  assert (∀ c, comment = Some c → short_text c) as Hcomment.
  { intros c Hc. unfold comment, comment_of in Hc.
    destruct (comment_at _ _ _ _ _) as [k|]; [| done].
    cbn [mbind option_bind] in Hc.
    destruct (strtok_offsets 0 src !! k) as [off|]; [| done].
    cbn [mbind option_bind] in Hc. simplify_eq.
    by apply str_drop_short. }
  assert (∃ fs, listing_fields line_cnt g1 l1 comment = Some fs)
    as [fs Hfs].
  { unfold listing_fields. unfold print_listing in H.
    destruct (load_is_Some (rom g1) (pc g1) (wf_pc_index _ Hwf1))
      as [w ->].
    destruct (reached_OPERAND (parser_state l1)).
    - destruct (name l1) as [n|]; [| done].
      destruct (opcode l1 <? ORG); by eexists.
    - by eexists. }
  destruct (listing_fields_short _ _ _ _ _ Hname Hcomment Hfs)
    as (Hshort & text0 & fs' & -> & Htext0).
  unfold listing_line. rewrite Hfs. cbn [mbind option_bind].
  destruct (put_fields_safe _ _ pa_inv_start ltac:(simpl; lia) Hshort)
    as (st & -> & Hinv & Hend & Hall).
  cbn [mbind option_bind].
  apply Forall_cons in Hall as [Hfirst _]. simpl in Hfirst.
  destruct (end_line_text st Hinv) as (b & -> & Hb).
  { unfold LST_LINE_WIDTH, LINE_WIDTH. lia. }
  cbn [mbind option_bind]. rewrite Hb. cbn [fmap option_fmap option_map].
  eexists. split; [done |].
  pose proof (pa_length _ Hinv) as Hlenb.
  assert (length (take (Z.to_nat (pa_end st)) (pa_buf st))
          = Z.to_nat (pa_end st)) as Hlt.
  { rewrite length_take, Hlenb. unfold LST_LINE_WIDTH, LINE_WIDTH. lia. }
  assert (Forall (fun c => c ≠ NUL)
            (with_line_feed (take (Z.to_nat (pa_end st)) (pa_buf st))))
    as Hnonul by (by apply (c_chars_no_nul b)).
  split.
  - clear -Hnonul. induction Hnonul as [|c s Hc _ IH]; [done |]. simpl.
    rewrite IH, andb_true_r. apply negb_true_iff, Z.eqb_neq.
    intros Hz. apply Hc. unfold char_code in Hz.
    rewrite <- (ascii_N_embedding c).
    replace (N_of_ascii c) with 0%N by lia. done.
  - rewrite list_ascii_of_string_of_list_ascii. unfold with_line_feed.
    destruct (last (take _ _)) as [c|] eqn:Hl.
    + destruct (Ascii.eqb_spec c LFc) as [-> | _]; [done |].
      by rewrite last_snoc.
    + apply last_None in Hl. rewrite Hl in Hlt. simpl in Hlt. lia.
Qed.

Lemma lst_line_written_witness :
  ∃ text,
    lst_line true 3 (set_pc 7 (init zero_stack)) "LDA %05 ; five"
    = Some (Some text)
    ∧ no_nul text = true
    ∧ last (list_ascii_of_string text) = Some LFc.
Proof.
  assert (syntax_error <$> asm_line true (set_pc 7 (init zero_stack))
                             "LDA %05 ; five" = Some 0) as Hs
    by (vm_compute; reflexivity).
  destruct (asm_line true (set_pc 7 (init zero_stack)) "LDA %05 ; five")
    as [g'|] eqn:H; [| discriminate Hs].
  injection Hs as Hs.
  apply (lst_line_written true 3 (set_pc 7 (init zero_stack)) g'
           "LDA %05 ; five" (wf_set_pc 7 _ (wf_init _)) eq_refl).
  - vm_compute. lia.
  - exact H.
  - exact Hs.
Defined.

(** ** The text of the hex file *)

Lemma hex_cells_ok : forallb hex_cell_ok (seqZ 0 0x1000) = true.
Proof. vm_compute. reflexivity. Qed.

Lemma utoa_aux_first (fuel : nat) : ∀ base n acc,
  0 < base ≤ 16 →
  ∃ d rest, 0 ≤ d < 16
            ∧ utoa_aux (S fuel) base n acc = String (digit_char d) rest.
Proof.
  induction fuel as [|fuel IH]; intros base n acc Hb.
  - simpl. pose proof (Z.mod_pos_bound n base ltac:(lia)).
    exists (n mod base), acc. split; [lia |]. by destruct (n / base =? 0).
  - cbn [utoa_aux]. destruct (n / base =? 0).
    + pose proof (Z.mod_pos_bound n base ltac:(lia)).
      exists (n mod base), acc. split; [lia | done].
    + apply (IH base (n / base)). done.
Qed.

Lemma utoa_aux_step (fuel : nat) (base n : Z) (acc : string) :
  n / base ≠ 0 →
  utoa_aux (S fuel) base n acc
  = utoa_aux fuel base (n / base) (String (digit_char (n mod base)) acc).
Proof.
  intros Hn. cbn [utoa_aux]. by destruct (Z.eqb_spec (n / base) 0).
Qed.

Lemma utoa_aux_longer (fuel : nat) (base n : Z) (acc : string) :
  (S (String.length acc)
   ≤ String.length (utoa_aux (S fuel) base n acc))%nat.
Proof.
  cbn [utoa_aux]. destruct (n / base =? 0); [simpl; lia |].
  etrans; [| apply utoa_aux_nonempty]. simpl. lia.
Qed.

Lemma utoa_wide (w : Z) :
  0x1000 ≤ w → (4 ≤ String.length (utoa 16 w))%nat.
Proof.
  intros Hw. unfold utoa.
  change 0x1000 with 4096 in Hw.
  assert (256 ≤ w / 16) as H1 by (apply Z.div_le_lower_bound; lia).
  assert (16 ≤ w / 16 / 16) as H2 by (apply Z.div_le_lower_bound; lia).
  assert (1 ≤ w / 16 / 16 / 16) as H3 by (apply Z.div_le_lower_bound; lia).
  change 32%nat with (S (S (S (S 28)))).
  rewrite !utoa_aux_step by lia.
  etrans; [| apply utoa_aux_longer]. simpl. lia.
Qed.

(** X26. A word of the hex file. A word below 0x1000 is written as a
    blank and three hexadecimal digits, and both [strtoul] on the four
    characters and [parse_label] on the three digits read the word
    back. A word from 0x1000 on is written with all its digits, at
    least four, and with no blank before them. *)
Theorem hex_file_word (w : Z) :
  (0 ≤ w < 0x1000 →
   ∃ d2 d1 d0,
     fmt_4_03X w = String " " (String d2 (String d1 (String d0 EmptyString)))
     ∧ strtoul (fmt_4_03X w) 16 = (w, 4%nat)
     ∧ parse_label (String d2 (String d1 (String d0 EmptyString)))
         16 3 0xfff = w)
  ∧ (0x1000 ≤ w →
     fmt_4_03X w = utoa 16 w
     ∧ (4 ≤ String.length (fmt_4_03X w))%nat
     ∧ first_is " " (fmt_4_03X w) = false).
Proof.
  split.
  - intros Hw. pose proof hex_cells_ok as Hall.
    rewrite forallb_forall in Hall.
    assert (hex_cell_ok w = true) as Hok.
    { apply Hall, list_elem_of_In, elem_of_seqZ. lia. }
    unfold hex_cell_ok in Hok.
    destruct (fmt_4_03X w) as [|c [|d2 [|d1 [|d0 [|? ?]]]]]; try done.
    apply andb_prop in Hok as [Hok H3]. apply andb_prop in Hok as [H1 H2].
    apply Ascii.eqb_eq in H1 as ->.
    apply bool_decide_eq_true in H2. apply bool_decide_eq_true in H3.
    by exists d2, d1, d0.
  - intros Hw. pose proof (utoa_wide w Hw) as Hlen.
    assert (fmt_4_03X w = utoa 16 w) as Heq.
    { unfold fmt_4_03X, pad_left.
      replace (3 - String.length (utoa 16 w))%nat with 0%nat by lia.
      cbn [str_repeat]. change (EmptyString +:+ utoa 16 w) with (utoa 16 w).
      replace (4 - String.length (utoa 16 w))%nat with 0%nat by lia.
      done. }
    rewrite Heq. split; [done |]. split; [done |].
    destruct (utoa_aux_first 31 16 w EmptyString ltac:(lia))
      as (d & rest & Hd & Hu).
    unfold utoa. rewrite Hu. cbn [first_is].
    apply Ascii.eqb_neq. intros Hc.
    assert (char_code (digit_char d) = 32) as Hcode by (by rewrite Hc).
    rewrite digit_char_code in Hcode by done. destruct (d <? 10); lia.
Qed.

Lemma hex_file_word_witness :
  strtoul (fmt_4_03X 0xD0A) 16 = (0xD0A, 4%nat)
  ∧ fmt_4_03X 0xFFFFFFFF = utoa 16 0xFFFFFFFF.
Proof.
  destruct (hex_file_word 0xD0A) as [H _].
  destruct (H ltac:(lia)) as (d2 & d1 & d0 & _ & Hs & _).
  destruct (hex_file_word 0xFFFFFFFF) as [_ H'].
  destruct (H' ltac:(lia)) as (Hw & _).
  split; [exact Hs | exact Hw].
Defined.

Lemma substring_app_l (a b : string) : ∀ n m : nat,
  (n + m ≤ String.length a)%nat →
  substring n m (a +:+ b) = substring n m a.
Proof.
  induction a as [|c a IH]; intros n m Hnm; simpl in Hnm.
  - assert (n = 0%nat) as -> by lia. assert (m = 0%nat) as -> by lia.
    by destruct b.
  - rewrite str_app_cons. destruct n as [|n].
    + destruct m as [|m]; [done |]. simpl. f_equal. apply IH. lia.
    + simpl. apply IH. lia.
Qed.

Lemma substring_app_r (a b : string) : ∀ n m : nat,
  substring (String.length a + n) m (a +:+ b) = substring n m b.
Proof.
  induction a as [|c a IH]; intros n m; [done |].
  rewrite str_app_cons. simpl. apply IH.
Qed.

Lemma substring_whole (a : string) : substring 0 (String.length a) a = a.
Proof. induction a as [|c a IH]; [done |]. simpl. by f_equal. Qed.

Lemma hex_cell_length (w : Z) :
  0 ≤ w < 0x1000 → String.length (fmt_4_03X w) = 4%nat.
Proof.
  intros Hw. pose proof hex_cells_ok as Hall.
  rewrite forallb_forall in Hall.
  assert (hex_cell_ok w = true) as Hok.
  { apply Hall, list_elem_of_In, elem_of_seqZ. lia. }
  unfold hex_cell_ok in Hok.
  by destruct (fmt_4_03X w) as [|c [|d2 [|d1 [|d0 [|? ?]]]]].
Qed.

Lemma hex_row_cells (row : list Z) :
  Forall (fun w => 0 ≤ w < 0x1000) row →
  String.length (hex_row row) = (4 * length row + 1)%nat
  ∧ substring (4 * length row) 1 (hex_row row) = LF
  ∧ ∀ (j : nat) w, row !! j = Some w →
                   substring (4 * j) 4 (hex_row row) = fmt_4_03X w.
Proof.
  induction 1 as [|w row Hw _ (IH1 & IH2 & IH3)]; [done |].
  pose proof (hex_cell_length w Hw) as Hc.
  cbn [hex_row foldr length]. fold (hex_row row). split_and!.
  - rewrite str_app_length, Hc, IH1. lia.
  - replace (4 * S (length row))%nat
      with (String.length (fmt_4_03X w) + 4 * length row)%nat by lia.
    by rewrite substring_app_r.
  - intros [|j] w' Hj; simpl in Hj.
    + simplify_eq. change (4 * 0)%nat with 0%nat.
      rewrite substring_app_l by lia.
      pose proof (substring_whole (fmt_4_03X w')) as Hwhole.
      by rewrite Hc in Hwhole.
    + replace (4 * S j)%nat
        with (String.length (fmt_4_03X w) + 4 * j)%nat by lia.
      rewrite substring_app_r. by apply IH3.
Qed.

Lemma hex_text_rows (h : list (list Z)) :
  Forall (fun row => String.length (hex_row row) = 65%nat) h →
  String.length (hex_text h) = (65 * length h)%nat
  ∧ ∀ (i : nat) row (n m : nat), h !! i = Some row → (n + m ≤ 65)%nat →
      substring (65 * i + n) m (hex_text h) = substring n m (hex_row row).
Proof.
  induction 1 as [|row h Hrow _ (IH1 & IH2)]; [done |].
  cbn [hex_text foldr length]. fold (hex_text h). split.
  - rewrite str_app_length, Hrow, IH1. lia.
  - intros [|i] row' n m Hi Hnm; simpl in Hi.
    + simplify_eq. rewrite Nat.mul_0_r, Nat.add_0_l.
      apply substring_app_l. lia.
    + replace (65 * S i + n)%nat
        with (String.length (hex_row row) + (65 * i + n))%nat by lia.
      rewrite substring_app_r. by apply IH2.
Qed.

Lemma hexdump_rows (r : list Z) (h : list (list Z)) :
  hexdump r = Some h →
  length h = 16%nat
  ∧ ∀ (i : nat) row, h !! i = Some row →
      length row = 16%nat
      ∧ ∀ (j : nat) w, row !! j = Some w → r !! (16 * i + j)%nat = Some w.
Proof.
  intros Hh. pose proof (mapM_Some_1 _ _ _ Hh) as Hrows. split.
  - apply length_mapM in Hh. by rewrite <- Hh.
  - intros i row Hi.
    destruct (Forall2_lookup_r _ _ _ _ _ Hrows Hi) as (x & Hx & Hrow).
    apply lookup_seqZ in Hx as [-> Hxi].
    pose proof (mapM_Some_1 _ _ _ Hrow) as Hcells. split.
    + apply length_mapM in Hrow. by rewrite <- Hrow.
    + intros j w Hj.
      destruct (Forall2_lookup_r _ _ _ _ _ Hcells Hj) as (y & Hy & Hw).
      apply lookup_seqZ in Hy as [-> Hyj]. unfold load in Hw.
      rewrite <- Hw. f_equal. rewrite Z.shiftl_mul_pow2 by lia. lia.
Qed.

(** X27. The text of the hex file. From a [rom] of 256 words below
    0x1000 the hex file is 16 lines of 64 characters and a line feed,
    and the word at address [16 i + j] is the four characters at offset
    [65 i + 4 j] of the file. *)
Theorem hex_text_layout (r : list Z) :
  length r = Z.to_nat 256 →
  Forall (fun w => 0 ≤ w < 0x1000) r →
  ∃ h, hexdump r = Some h
       ∧ String.length (hex_text h) = (16 * 65)%nat
       ∧ ∀ i j : nat, (i < 16)%nat → (j < 16)%nat →
           substring (65 * i + 64) 1 (hex_text h) = LF
           ∧ ∃ w, r !! (16 * i + j)%nat = Some w
                  ∧ substring (65 * i + 4 * j) 4 (hex_text h)
                    = fmt_4_03X w.
Proof.
  intros Hlen Hsmall. destruct (hexdump_total r Hlen) as [h Hh].
  destruct (hexdump_rows r h Hh) as [Hlh Hrows].
  assert (∀ (i : nat) row, h !! i = Some row →
            Forall (fun w => 0 ≤ w < 0x1000) row) as Hrow_small.
  { intros i row Hi. destruct (Hrows i row Hi) as [_ Hcells].
    apply Forall_lookup. intros j w Hj.
    apply (proj1 (Forall_lookup _ r) Hsmall _ _ (Hcells j w Hj)). }
  assert (Forall (fun row => String.length (hex_row row) = 65%nat) h)
    as Hrow_len.
  { apply Forall_lookup. intros i row Hi.
    destruct (hex_row_cells row (Hrow_small i row Hi)) as [-> _].
    destruct (Hrows i row Hi) as [-> _]. done. }
  destruct (hex_text_rows h Hrow_len) as [Hlt Hsub].
  exists h. split; [done |]. split; [by rewrite Hlt, Hlh |].
  intros i j Hi Hj.
  destruct (lookup_lt_is_Some_2 h i) as [row Hrow]; [lia |].
  destruct (Hrows i row Hrow) as [Hlr Hcells].
  destruct (hex_row_cells row (Hrow_small i row Hrow)) as (_ & Hlf & Hcell).
  split.
  - rewrite (Hsub i row 64%nat 1%nat Hrow) by lia.
    rewrite Hlr in Hlf. exact Hlf.
  - destruct (lookup_lt_is_Some_2 row j) as [w Hw]; [lia |].
    exists w. split; [by apply Hcells |].
    rewrite (Hsub i row (4 * j)%nat 4%nat Hrow) by lia. by apply Hcell.
Qed.

Lemma hex_text_layout_witness :
  ∃ h, hexdump (rom (init zero_stack)) = Some h
       ∧ String.length (hex_text h) = (16 * 65)%nat.
Proof.
  assert (Forall (fun w => 0 ≤ w < 0x1000) (rom (init zero_stack))) as Hs.
  { apply Forall_forall. intros w Hin. unfold init, zero_stack in Hin.
    cbn [rom] in Hin. apply list_elem_of_fmap in Hin as (i & -> & _).
    vm_compute. split; [discriminate | reflexivity]. }
  destruct (hex_text_layout (rom (init zero_stack)) eq_refl Hs)
    as (h & Hh & Hl & _).
  exists h. split; [exact Hh | exact Hl].
Defined.

(** ** The comment of a listing line *)







(** ** A mnemonic without an operand *)

Lemma parse_label_semicolon (q : string) :
  first_is ";" q = true → parse_label q 16 2 0xff = INVALID.
Proof.
  destruct q as [|c q]; [done |]. simpl. intros ->%Ascii.eqb_eq.
  assert (hex_prefix 16 (String ";" q) = 0%nat) as Hp.
  { unfold hex_prefix. simpl. by destruct q as [|x [|d q]]. }
  unfold parse_label, strtoul. simpl. rewrite Hp. simpl. reflexivity.
Qed.

Lemma semicolon_first (q : string) :
  first_is ";" q = true →
  first_is "$" q = false ∧ first_is "%" q = false ∧ find_indreg q = None.
Proof.
  destruct q as [|c q]; [done |]. simpl. intros ->%Ascii.eqb_eq.
  split_and!; [done | done |].
  destruct (find_indreg (String ";" q)) as [r|] eqn:Hr; [| done].
  apply List.find_some in Hr as [Hin Heq]. apply String.eqb_eq in Heq.
  simpl in Hin. repeat (destruct Hin as [<- | Hin]; [done |]). done.
Qed.

(** The state after the tokens before the mnemonic. *)
Lemma label_prefix_loop sp g pfx ps :
  wf g → label_prefix pfx →
  ∃ g0 l0,
    token_loop sp g line_init (pfx ++ ps) = token_loop sp g0 l0 ps
    ∧ wf g0 ∧ pc g0 = pc g ∧ rom g0 = rom g
    ∧ syntax_error g0 = syntax_error g ∧ other_error g0 = other_error g
    ∧ warning g ≤ warning g0 ≤ warning g + 1
    ∧ (warning g0 ≠ warning g →
       sp = true
       ∧ ∃ lab, pfx = [lab] ∧ load (label g) (token_id lab) ≠ Some (pc g))
    ∧ (parser_state l0 = LABEL ∨ parser_state l0 = MNEMONIC)
    ∧ operand l0 = 0.
Proof.
  intros Hwf [-> | (lab & -> & Hlab & Hid)].
  - exists g, line_init. split_and!; try done; try lia. by left.
  - assert (0 ≤ token_id lab ≤ 9999) as Hrange.
    { unfold token_id in *.
      destruct (parse_label_bound (str_tail lab) 10 4 9999); [done | lia]. }
    destruct (load_is_Some (label g) (token_id lab)) as [v Hv].
    { destruct Hwf as [-> _ _]. lia. }
    cbn [app token_loop]. unfold on_token. cbn [parser_state line_init].
    rewrite Hlab. unfold case_LABEL. fold (token_id lab).
    destruct (Z.eqb_spec (token_id lab) INVALID) as [| _]; [done |].
    rewrite andb_false_r.
    destruct sp.
    + rewrite Hv. cbn [mbind option_bind].
      destruct (Z.eqb_spec v (pc g)) as [-> | Hne]; cbn [negb].
      * rewrite store_Some by (destruct Hwf as [-> _ _]; lia).
        cbn [mbind option_bind]. eexists _, _. split; [done |].
        split_and!; try done; try (simpl; lia); try (by right).
        by apply wf_set_label.
      * rewrite store_Some by (cbn [label incr_warning];
                               destruct Hwf as [-> _ _]; lia).
        cbn [mbind option_bind]. eexists _, _. split; [done |].
        split_and!; try done; try (simpl; lia); try (by right).
        -- apply (wf_set_label (incr_warning g)). by apply wf_incr_warning.
        -- intros _. split; [done |]. exists lab. split; [done |].
           rewrite Hv. congruence.
    + cbn [mbind option_bind].
      rewrite store_Some by (destruct Hwf as [-> _ _]; lia).
      cbn [mbind option_bind]. eexists _, _. split; [done |].
      split_and!; try done; try (simpl; lia); try (by right).
      by apply wf_set_label.
Qed.

(** C10. A line whose tokens are the mnemonic of an instruction (not
    the directive), alone or after one label declaration that
    [parse_label] accepts, and nothing after it, raises no syntax error
    and no other error in either pass, and no warning but the one of
    the second pass for a label on the line whose entry in the table is
    not the address counter; the word at the address counter gets the
    opcode in its high 4 bits over an operand byte of 0, and the address
    counter advances by 1 (modulo 256). A comment after the mnemonic is
    a token of the line: with no operand before it, the first pass reads
    it as the operand, counts a syntax error and leaves the address
    counter where it was. *)
Theorem mnemonic_without_operand (second_pass : bool) (g : asm_state)
    (line_buf : string) (pfx : list string) (t : token_t) :
  wf g → t ∈ token → tk_code t < ORG → label_prefix pfx →
  (strtok line_buf = pfx ++ [tk_name t] →
   ∃ g' w,
     asm_line second_pass g line_buf = Some g'
     ∧ syntax_error g' = syntax_error g
     ∧ other_error g' = other_error g
     ∧ warning g ≤ warning g' ≤ warning g + 1
     ∧ (warning g' ≠ warning g →
        second_pass = true
        ∧ ∃ lab, pfx = [lab]
                 ∧ load (label g) (token_id lab) ≠ Some (pc g))
     ∧ load (rom g') (pc g) = Some w
     ∧ Z.shiftr w 8 = tk_code t
     ∧ Z.land w 0xff = 0
     ∧ pc g' = (pc g + 1) mod 256)
  ∧ (∀ q rest,
       strtok line_buf = pfx ++ tk_name t :: q :: rest →
       first_is ";" q = true →
       ∃ g',
         asm_line false g line_buf = Some g'
         ∧ syntax_error g' = syntax_error g + 1
         ∧ pc g' = pc g).
Proof.
  intros Hwf Hin Hcode Hpfx.
  pose proof (find_token_name _ Hin) as Hf.
  destruct (find_token_first _ _ Hf) as [Hd _].
  apply Z.ltb_lt in Hcode as Hlt.
  assert (∀ sp g0 l0 ps,
            wf g0 → parser_state l0 = LABEL ∨ parser_state l0 = MNEMONIC →
            token_loop sp g0 l0 (tk_name t :: ps)
            = token_loop sp
                (set_rom (<[Z.to_nat (pc g0) := Z.shiftl (tk_code t) 8]>
                            (rom g0)) g0)
                (set_parser_state OPERAND (set_token t l0)) ps) as Hmn.
  { intros sp g0 l0 ps Hwf0 Hst. cbn [token_loop]. unfold on_token.
    destruct Hst as [-> | ->]; rewrite ?Hd;
      by rewrite (case_MNEMONIC_found _ _ _ _ _ Hwf0 Hf), Hlt. }
  split.
  - intros Htok.
    destruct (label_prefix_loop second_pass g pfx [tk_name t] Hwf Hpfx)
      as (g0 & l0 & Hloop & Hwf0 & Hpc & Hrom & Hse & Hoe & Hw & Hwhy
          & Hst & _).
    rewrite asm_line_unfold by (rewrite Htok; by destruct pfx).
    rewrite Htok, Hloop, (Hmn _ _ _ _ Hwf0 Hst).
    cbn [token_loop mbind option_bind line_result]. unfold print_listing.
    cbn [parser_state set_parser_state reached_OPERAND name set_token
         opcode]. rewrite Hlt.
    eexists _, (Z.shiftl (tk_code t) 8). split; [reflexivity |].
    cbn [set_pc set_rom syntax_error other_error warning rom pc].
    split_and!; try done; try lia.
    + rewrite <- Hpc. unfold load. apply list_lookup_insert_eq.
      by apply wf_pc_index.
    + apply instruction_word. by apply token_code_range.
    + apply instruction_word. by apply token_code_range.
    + by rewrite Hpc.
  - intros q rest Htok Hq.
    destruct (label_prefix_loop false g pfx (tk_name t :: q :: rest)
                Hwf Hpfx)
      as (g0 & l0 & Hloop & Hwf0 & Hpc & Hrom & Hse & _ & _ & _ & Hst & Hop).
    destruct (semicolon_first q Hq) as (Hq1 & Hq2 & Hq3).
    rewrite asm_line_unfold by (rewrite Htok; by destruct pfx).
    rewrite Htok, Hloop, (Hmn _ _ _ _ Hwf0 Hst).
    cbn [token_loop]. unfold on_token.
    cbn [parser_state set_parser_state]. unfold case_OPERAND.
    rewrite Hq1, Hq3, Hq2.
    cbn [operand set_parser_state set_token optype negb andb].
    rewrite Hop. cbn [Z.eqb negb].
    destruct (is_type REG (Some (tk_type t)));
      rewrite ?(parse_label_semicolon q Hq), ?Z.eqb_refl;
      cbn [mbind option_bind line_result];
      (eexists; split; [reflexivity |]);
      cbn [incr_syntax_error set_rom syntax_error pc]; split; congruence.
Qed.

Lemma mnemonic_without_operand_witness :
  (∃ g' w,
     asm_line true (set_pc 0 (init zero_stack)) "$3  ADI" = Some g'
     ∧ syntax_error g' = 0 ∧ other_error g' = 0
     ∧ load (rom g') 0 = Some w
     ∧ Z.shiftr w 8 = 5 ∧ Z.land w 0xff = 0 ∧ pc g' = 1)
  ∧ ∃ g',
      asm_line false (set_pc 0 (init zero_stack)) "ADI ; note" = Some g'
      ∧ syntax_error g' = 1 ∧ pc g' = 0.
Proof.
  assert (t_in : Token "ADI" 0x5 IMM ∈ token).
  { apply list_elem_of_In. simpl. tauto. }
  assert (Hwf : wf (set_pc 0 (init zero_stack))).
  { apply wf_set_pc, wf_init. }
  split.
  - assert (Hpfx : label_prefix ["$3"]).
    { right. exists "$3"%string. split; [reflexivity |].
      split; [reflexivity |]. vm_compute. discriminate. }
    destruct (mnemonic_without_operand true (set_pc 0 (init zero_stack))
                "$3  ADI" ["$3"] (Token "ADI" 0x5 IMM) Hwf t_in eq_refl Hpfx)
      as [H _].
    destruct (H eq_refl)
      as (g' & w & Ha & Hs & Ho & _ & _ & Hr & Hw1 & Hw2 & Hp).
    exists g', w. split; [exact Ha |]. split; [exact Hs |].
    split; [exact Ho |]. split; [exact Hr |]. split; [exact Hw1 |].
    split; [exact Hw2 | exact Hp].
  - destruct (mnemonic_without_operand false (set_pc 0 (init zero_stack))
                "ADI ; note" [] (Token "ADI" 0x5 IMM) Hwf t_in eq_refl
                (or_introl eq_refl))
      as [_ H].
    exact (H ";"%string ["note"] eq_refl eq_refl).
Defined.

(** The claim as the specification words it takes in a line with the
    mnemonic and a comment, which has no operand token either, and
    fails on it: for the source line [ADI ; note] the tokens are the
    mnemonic, the semicolon and the word; the first pass reads the
    semicolon as the operand and counts a syntax error, the program
    ends with status 1 and writes no hex file. *)
Lemma mnemonic_then_comment_rejected :
  strtok "ADI ; note" = ["ADI"; ";"; "note"]
  ∧ find_token "ADI" = Some (Token "ADI" 0x5 IMM)
  ∧ syntax_error <$> asm_line false (set_pc 0 (init zero_stack)) "ADI ; note"
    = Some 1
  ∧ pc <$> asm_line false (set_pc 0 (init zero_stack)) "ADI ; note" = Some 0
  ∧ exit_status <$> main 4 zero_stack (file_of ["ADI ; note"]) = Some 1
  ∧ hex_file <$> main 4 zero_stack (file_of ["ADI ; note"]) = Some None.
Proof. split_and!; vm_compute; reflexivity. Qed.
